(** * The chat session model and the agent event dispatcher of Aide

    A shallow embedding of
    - [src/vs/workbench/contrib/aideAgent/common/aideAgentModel.ts]
      (the response content accumulator [Response], [ChatResponseModel],
      [ChatRequestModel] and [ChatModel] with its persistence), and
    - the session provider of the extension
      ([AideResponseStreamCollection], [AideAgentSessionProvider]),
    together with the properties the specification states about them. *)

From Stdlib Require Import String List Bool Arith Lia DecimalString.
From stdpp Require Import base list strings gmap.
Import ListNotations.

Local Open Scope string_scope.
Local Open Scope list_scope.

(** ** Strings

    A [string] stands for a JS string that the code compares, joins or passes
    on: an id, a key, a message. Where the code counts or cuts ([length],
    [slice], [substring], [split]) the text is a [JsString], the sequence of
    its UTF-16 code units, which is what these methods count. *)
Abbreviation JsString := (list N).

(** The JS string of an ASCII literal. *)
Definition js (s : string) : JsString :=
  map (fun c => N.of_nat (Ascii.nat_of_ascii c)) (list_ascii_of_string s).

(** [if (s)] on a string. *)
Definition nonEmptyText (s : JsString) : bool :=
  match s with [] => false | _ => true end.

(** ** Markdown strings and URIs (base/common) *)

Record URI := mkURI {
  scheme : string;
  authority : string;
  path : string;
  query : string;
  fragment : string
}.

#[global] Instance URI_eq_dec : EqDecision URI.
Proof. solve_decision. Defined.

(** [isTrusted?: boolean | MarkdownStringTrustedOptions]. *)
Inductive Trust :=
| TrustBool (b : bool)
| TrustOptions (enabledCommands : list string).

#[global] Instance Trust_eq_dec : EqDecision Trust.
Proof. solve_decision. Defined.

Record IMarkdownString := mkMarkdown {
  value : string;
  isTrusted : option Trust;
  supportThemeIcons : option bool;
  supportHtml : option bool;
  baseUri : option URI
}.

#[global] Instance IMarkdownString_eq_dec : EqDecision IMarkdownString.
Proof. solve_decision. Defined.

(** [new MarkdownString(value)]: no trust, no theme icons, no html, no base. *)
Definition MarkdownString (v : string) : IMarkdownString :=
  mkMarkdown v (Some (TrustBool false)) (Some false) (Some false) None.

(** Modelled from the spec: [equals] of base/common/objects.js is not under
    src/; it is the deep structural comparison of two values, here at the
    type of [isTrusted]. *)
Definition equals (a b : option Trust) : bool := bool_decide (a = b).

(** Modelled from the spec: [isEqual] of base/common/resources.js is not under
    src/; the specification says that buckets are found by URI equality. *)
Definition isEqual (a b : URI) : bool := bool_decide (a = b).

(** [===] on [boolean | undefined]. *)
Definition strictEq (a b : option bool) : bool := bool_decide (a = b).

Definition canMergeMarkdownStrings (md1 md2 : IMarkdownString) : bool :=
  let tail :=
    equals (isTrusted md1) (isTrusted md2)
    && strictEq (supportHtml md1) (supportHtml md2)
    && strictEq (supportThemeIcons md1) (supportThemeIcons md2) in
  match baseUri md1, baseUri md2 with
  | Some u1, Some u2 =>
      let baseUriEquals :=
        String.eqb (scheme u1) (scheme u2)
        && String.eqb (authority u1) (authority u2)
        && String.eqb (path u1) (path u2)
        && String.eqb (query u1) (query u2)
        && String.eqb (fragment u1) (fragment u2) in
      if negb baseUriEquals then false else tail
  | Some _, None | None, Some _ => false
  | None, None => tail
  end.

(** [appendMarkdownString(md1, md2)] for a markdown [md2]. *)
Definition appendMarkdownString (md1 md2 : IMarkdownString) : IMarkdownString :=
  {| value := value md1 +:+ value md2;
     isTrusted := isTrusted md1;
     supportThemeIcons := supportThemeIcons md1;
     supportHtml := supportHtml md1;
     baseUri := baseUri md1 |}.

(** ** Response content parts *)

(** [TextEdit] of editor/common/languages: a range and its replacement. *)
Record TextEdit := mkTextEdit {
  startLineNumber : nat;
  startColumn : nat;
  endLineNumber : nat;
  endColumn : nat;
  text : string
}.

#[global] Instance TextEdit_eq_dec : EqDecision TextEdit.
Proof. solve_decision. Defined.

Record IChatTextEditGroupState := mkEditState {
  sha1 : string;
  applied : nat
}.

#[global] Instance IChatTextEditGroupState_eq_dec : EqDecision IChatTextEditGroupState.
Proof. solve_decision. Defined.

(** [IChatProgressResponseContent], one constructor per [kind]. Payloads
    the model never inspects are kept as the string that identifies them. *)
Inductive IChatProgressResponseContent :=
| markdownContent (content : IMarkdownString)
| markdownVuln (content : IMarkdownString)
| codeblockUri (uri : URI)
| treeData (tree : string)
| inlineReference (inlineRef : string)
| progressMessage (content : IMarkdownString)
| command (title : string)
| warning (content : IMarkdownString)
| progressTask (content : IMarkdownString)
| textEditGroup (uri : URI) (edits : list (list TextEdit))
                (state : option IChatTextEditGroupState) (done : option bool)
| confirmation (title message : string)
| toolTypeError (message : string)
| planStep (description : IMarkdownString)
| stage (message : string).

#[global] Instance IChatProgressResponseContent_eq_dec :
  EqDecision IChatProgressResponseContent.
Proof. solve_decision. Defined.

(** The [kind] tag of a part. *)
Definition kind (p : IChatProgressResponseContent) : string :=
  match p with
  | markdownContent _ => "markdownContent"
  | markdownVuln _ => "markdownVuln"
  | codeblockUri _ => "codeblockUri"
  | treeData _ => "treeData"
  | inlineReference _ => "inlineReference"
  | progressMessage _ => "progressMessage"
  | command _ => "command"
  | warning _ => "warning"
  | progressTask _ => "progressTask"
  | textEditGroup _ _ _ _ => "textEditGroup"
  | confirmation _ _ => "confirmation"
  | toolTypeError _ => "toolTypeError"
  | planStep _ => "planStep"
  | stage _ => "stage"
  end.

(** What [updateContent] accepts: a content part, or an [IChatTextEdit]
    ([kind: 'textEdit'], one batch of edits for one file). *)
Inductive Progress :=
| contentPart (p : IChatProgressResponseContent)
| textEdit (uri : URI) (edits : list TextEdit) (done : option bool).

Module Response.

(** The accumulator state is [_responseParts]. The two derived strings
    ([_responseRepr], [_markdownContent]) are recomputed from it by
    [_updateRepr] and never read back by the accumulator. *)
Definition t := list IChatProgressResponseContent.

(** [_updateRepr(quiet)]: returns whether [onDidChangeValue] fires. *)
Definition _updateRepr (quiet : bool) : bool := negb quiet.

(** [clear()] *)
Definition clear (_ : t) : t * bool := ([], _updateRepr true).

(** The loop of the [textEdit] branch: the first part, from index 0, that is
    a [textEditGroup] for the same file receives the batch and the [done]
    flag. [None] is [found = false]. *)
Fixpoint mergeTextEdit (parts : t) (u : URI) (batch : list TextEdit)
         (d : option bool) : option t :=
  match parts with
  | [] => None
  | candidate :: rest =>
      match candidate with
      | textEditGroup cu ces cst _ =>
          if isEqual cu u
          then Some (textEditGroup cu (ces ++ [batch]) cst d :: rest)
          else option_map (cons candidate) (mergeTextEdit rest u batch d)
      | _ => option_map (cons candidate) (mergeTextEdit rest u batch d)
      end
  end.

(** [updateContent(progress, quiet)]: the new parts and whether the value
    change event fired. A task is pushed as it arrives; what its promise and
    its progress events do later happens in later turns of the event loop and
    is not part of the call. *)
Definition updateContent (parts : t) (progress : Progress) (quiet : bool)
  : t * bool :=
  match progress with
  | contentPart (markdownContent content) =>
      match last parts with
      | Some (markdownContent lastContent) =>
          if negb (canMergeMarkdownStrings lastContent content)
          then (parts ++ [markdownContent content], _updateRepr quiet)
          else (removelast parts
                  ++ [markdownContent (appendMarkdownString lastContent content)],
                _updateRepr quiet)
      | _ => (parts ++ [markdownContent content], _updateRepr quiet)
      end
  | textEdit u batch d =>
      if (0 <? length batch)%nat then
        match mergeTextEdit parts u batch d with
        | Some parts' => (parts', _updateRepr quiet)
        | None => (parts ++ [textEditGroup u [batch] None d], _updateRepr quiet)
        end
      else (parts, false)
  | contentPart (progressTask content) =>
      (parts ++ [progressTask content], _updateRepr quiet)
  | contentPart p => (parts ++ [p], _updateRepr quiet)
  end.

(** Feeding a sequence of fragments, in arrival order. *)
Definition updateAll (parts : t) (fragments : list Progress) : t :=
  fold_left (fun ps f => fst (updateContent ps f false)) fragments parts.




End Response.

(** ** Requests and responses *)

Record IChatResponseErrorDetails := mkErrorDetails {
  errorMessage : string;
  responseIsRedacted : option bool
}.

Record IChatAgentResult := mkResult {
  errorDetails : option IChatResponseErrorDetails
}.

Inductive ChatAgentVoteDirection := Down | Up.

(** A variable entry, in the current shape or in the old one, which has a
    list of [values] and perhaps no [id]. *)
Inductive IChatRequestVariableEntry :=
| VariableEntry (id name : string) (val : option string)
| OldVariableEntry (id : option string) (name : string) (values : list string).

Record IChatRequestVariableData := mkVariableData {
  variables : list IChatRequestVariableEntry
}.

(** [ChatRequestTextPart]: an offset range and the text it covers. *)
Record ChatRequestTextPart := mkTextPart {
  rangeStart : nat;
  rangeEndExclusive : nat;
  partText : JsString
}.

Record IParsedChatRequest := mkParsed {
  messageText : JsString;
  parts : list ChatRequestTextPart
}.

Record ChatRequestModel := mkRequest {
  requestId : string;
  message : IParsedChatRequest;
  _variableData : IChatRequestVariableData;
  _attempt : nat;
  _confirmation : option string;
  _locationData : option string;
  _attachedContext : option (list IChatRequestVariableEntry);
  requestIsCompleteAddedRequest : bool;
  requestShouldBeRemovedOnSend : bool
}.

Record ChatResponseModel := mkResponse {
  responseId : string;
  _response : Response.t;
  _agent : option string;
  _slashCommand : option string;
  _isComplete : bool;
  _isCanceled : bool;
  _vote : option ChatAgentVoteDirection;
  _voteDownReason : option string;
  _result : option IChatAgentResult;
  _followups : option (list string);
  responseIsCompleteAddedRequest : bool;
  _shouldBeRemovedOnSend : bool;
  _isStale : bool;
  _hasSideEffects : bool;
  _usedContext : option string;
  _contentReferences : list string;
  _codeCitations : list string;
  isDisposed : bool
}.

(** Field writes on a response object. *)
Definition with_response (v : Response.t) (r : ChatResponseModel) :=
  mkResponse (responseId r) v (_agent r) (_slashCommand r) (_isComplete r)
    (_isCanceled r) (_vote r) (_voteDownReason r) (_result r) (_followups r)
    (responseIsCompleteAddedRequest r) (_shouldBeRemovedOnSend r) (_isStale r)
    (_hasSideEffects r) (_usedContext r) (_contentReferences r)
    (_codeCitations r) (isDisposed r).

Definition with_isComplete (v : bool) (r : ChatResponseModel) :=
  mkResponse (responseId r) (_response r) (_agent r) (_slashCommand r) v
    (_isCanceled r) (_vote r) (_voteDownReason r) (_result r) (_followups r)
    (responseIsCompleteAddedRequest r) (_shouldBeRemovedOnSend r) (_isStale r)
    (_hasSideEffects r) (_usedContext r) (_contentReferences r)
    (_codeCitations r) (isDisposed r).

Definition with_isCanceled (v : bool) (r : ChatResponseModel) :=
  mkResponse (responseId r) (_response r) (_agent r) (_slashCommand r)
    (_isComplete r) v (_vote r) (_voteDownReason r) (_result r) (_followups r)
    (responseIsCompleteAddedRequest r) (_shouldBeRemovedOnSend r) (_isStale r)
    (_hasSideEffects r) (_usedContext r) (_contentReferences r)
    (_codeCitations r) (isDisposed r).

Definition with_result (v : option IChatAgentResult) (r : ChatResponseModel) :=
  mkResponse (responseId r) (_response r) (_agent r) (_slashCommand r)
    (_isComplete r) (_isCanceled r) (_vote r) (_voteDownReason r) v (_followups r)
    (responseIsCompleteAddedRequest r) (_shouldBeRemovedOnSend r) (_isStale r)
    (_hasSideEffects r) (_usedContext r) (_contentReferences r)
    (_codeCitations r) (isDisposed r).

Definition with_shouldBeRemovedOnSend (v : bool) (r : ChatResponseModel) :=
  mkResponse (responseId r) (_response r) (_agent r) (_slashCommand r)
    (_isComplete r) (_isCanceled r) (_vote r) (_voteDownReason r) (_result r)
    (_followups r) (responseIsCompleteAddedRequest r) v (_isStale r)
    (_hasSideEffects r) (_usedContext r) (_contentReferences r)
    (_codeCitations r) (isDisposed r).

Definition with_hasSideEffects (v : bool) (r : ChatResponseModel) :=
  mkResponse (responseId r) (_response r) (_agent r) (_slashCommand r)
    (_isComplete r) (_isCanceled r) (_vote r) (_voteDownReason r) (_result r)
    (_followups r) (responseIsCompleteAddedRequest r) (_shouldBeRemovedOnSend r)
    (_isStale r) v (_usedContext r) (_contentReferences r)
    (_codeCitations r) (isDisposed r).

Definition with_usedContext (v : option string) (r : ChatResponseModel) :=
  mkResponse (responseId r) (_response r) (_agent r) (_slashCommand r)
    (_isComplete r) (_isCanceled r) (_vote r) (_voteDownReason r) (_result r)
    (_followups r) (responseIsCompleteAddedRequest r) (_shouldBeRemovedOnSend r)
    (_isStale r) (_hasSideEffects r) v (_contentReferences r)
    (_codeCitations r) (isDisposed r).

Definition with_contentReferences (v : list string) (r : ChatResponseModel) :=
  mkResponse (responseId r) (_response r) (_agent r) (_slashCommand r)
    (_isComplete r) (_isCanceled r) (_vote r) (_voteDownReason r) (_result r)
    (_followups r) (responseIsCompleteAddedRequest r) (_shouldBeRemovedOnSend r)
    (_isStale r) (_hasSideEffects r) (_usedContext r) v
    (_codeCitations r) (isDisposed r).

Definition with_codeCitations (v : list string) (r : ChatResponseModel) :=
  mkResponse (responseId r) (_response r) (_agent r) (_slashCommand r)
    (_isComplete r) (_isCanceled r) (_vote r) (_voteDownReason r) (_result r)
    (_followups r) (responseIsCompleteAddedRequest r) (_shouldBeRemovedOnSend r)
    (_isStale r) (_hasSideEffects r) (_usedContext r) (_contentReferences r)
    v (isDisposed r).

Definition with_isDisposed (v : bool) (r : ChatResponseModel) :=
  mkResponse (responseId r) (_response r) (_agent r) (_slashCommand r)
    (_isComplete r) (_isCanceled r) (_vote r) (_voteDownReason r) (_result r)
    (_followups r) (responseIsCompleteAddedRequest r) (_shouldBeRemovedOnSend r)
    (_isStale r) (_hasSideEffects r) (_usedContext r) (_contentReferences r)
    (_codeCitations r) v.

Definition with_requestShouldBeRemovedOnSend (v : bool) (r : ChatRequestModel) :=
  mkRequest (requestId r) (message r) (_variableData r) (_attempt r)
    (_confirmation r) (_locationData r) (_attachedContext r)
    (requestIsCompleteAddedRequest r) v.

(** ** The object store

    Requests and responses are objects: the exchange list of a session, the
    callers of its methods and the listeners of its events all hold references
    to the same object. A reference is the address of the object in the store;
    the two static [nextId] counters number the objects of each class. *)

Inductive ExchangeRef :=
| RequestRef (address : nat)
| ResponseRef (address : nat).

#[global] Instance ExchangeRef_eq_dec : EqDecision ExchangeRef.
Proof. solve_decision. Defined.

(** ** The persisted session format *)

(** An element of the persisted [response] array: a markdown string, the
    data of a file tree, or a part that carries its [kind]. *)
Inductive SerializedPart :=
| SerMarkdown (md : IMarkdownString)
| SerTreeData (tree : string)
| SerKinded (p : IChatProgressResponseContent).

Record RawUsedContext := mkRawUsedContext {
  documentsIsArray : bool;
  usedContextData : string
}.

Record ISerializableChatRequestData := mkRawRequest {
  (** a string is the old format *)
  rawMessage : JsString + IParsedChatRequest;
  (** [None]: no [variables] array *)
  rawVariableData : option IChatRequestVariableData;
  rawRequestIsHidden : option bool
}.

Record ISerializableChatResponseData := mkRawResponse {
  rawResponse : option (list SerializedPart);
  rawAgent : option (bool * string);  (** has [metadata]?, the agent *)
  rawSlashCommand : option string;
  (** the old field: absent, or present with or without a value *)
  rawResponseErrorDetails : option (option IChatResponseErrorDetails);
  rawResult : option IChatAgentResult;
  rawFollowups : option (list string);
  rawIsCanceled : option bool;
  rawVote : option ChatAgentVoteDirection;
  rawVoteDownReason : option string;
  rawUsedContext : option RawUsedContext;
  rawContentReferences : option (list string);
  rawCodeCitations : option (list string);
  rawResponseIsHidden : option bool
}.

(** A persisted exchange record: [type] is ['request'], ['response'], or
    anything else. *)
Inductive ISerializableExchange :=
| RawRequest (d : ISerializableChatRequestData)
| RawResponse (d : ISerializableChatResponseData)
| RawOther (type : string).

Record SessionFields := mkSessionFields {
  dataSessionId : string;
  dataCreationDate : nat;
  dataIsImported : bool;
  dataLastMessageDate : nat;
  dataCustomTitle : option JsString
}.

(** [IExportableChatData], and [ISerializableChatData] when the session
    fields are there. [exchanges] is [None] when the field is not an array. *)
Record ISerializableChatData := mkChatData {
  dataRequesterUsername : string;
  dataResponderUsername : string;
  dataInitialLocation : option string;
  dataExchanges : option (list ISerializableExchange);
  dataSession : option SessionFields
}.

(** The first argument of [logService.error]: a string of the code, or a
    template string of the code that ends in [JSON.stringify(obj)], whose
    text is the engine's. *)
Inductive LogMessage :=
| Message (text : string)
| MessageWithJson (text : string) (obj : ISerializableChatData).

(** What is thrown: an [Error] that the code makes, with its message, or a
    [TypeError] of the engine, whose message is the engine's. *)
Inductive JsError :=
| Error (message : string)
| TypeError.

#[global] Instance JsError_eq_dec : EqDecision JsError.
Proof. solve_decision. Defined.

Record World := mkWorld {
  requestObjects : list ChatRequestModel;
  responseObjects : list ChatResponseModel;
  ChatRequestModel_nextId : nat;
  ChatResponseModel_nextId : nat;
  (** every fire of a response's [_onDidChange], oldest first, with the
      response as its listeners see it at that moment *)
  responseDidChange : list (nat * ChatResponseModel);
  (** calls of [logService.error], oldest first: the message and, when one
      is passed, the error caught *)
  logService_error : list (LogMessage * option JsError)
}.

Definition emptyWorld : World := mkWorld [] [] 0 0 [] [].

(** [throw] and [try]/[catch]: a computation returns or throws, and changes
    the store either way. *)
Inductive Outcome (A : Type) :=
| Returned (a : A)
| Thrown (error : JsError).
Arguments Returned {A} a.
Arguments Thrown {A} error.

Definition M (A : Type) : Type := World -> Outcome A * World.

Definition ret {A} (a : A) : M A := fun w => (Returned a, w).
Definition throw {A} (error : JsError) : M A := fun w => (Thrown error, w).
Definition bind {A B} (c : M A) (k : A -> M B) : M B :=
  fun w => match c w with
           | (Returned a, w') => k a w'
           | (Thrown e, w') => (Thrown e, w')
           end.
Definition try_catch {A} (body : M A) (handler : JsError -> M A) : M A :=
  fun w => match body w with
           | (Returned a, w') => (Returned a, w')
           | (Thrown e, w') => handler e w'
           end.

Notation "x <- c ;; k" := (bind c (fun x => k))
  (at level 100, c at next level, right associativity).
Notation "c ;;; k" := (bind c (fun _ => k))
  (at level 100, k at level 200, right associativity).

(** [Array.prototype.map] with a callback that may throw: the first throw
    ends the traversal. *)
Fixpoint mapM {A B} (f : A -> M B) (l : list A) : M (list B) :=
  match l with
  | [] => ret []
  | a :: rest => b <- f a ;; bs <- mapM f rest ;; ret (b :: bs)
  end.

(** [Array.prototype.forEach]. *)
Fixpoint forEachM {A} (f : A -> M unit) (l : list A) : M unit :=
  match l with
  | [] => ret tt
  | a :: rest => f a ;;; forEachM f rest
  end.

Definition modify (f : World -> World) : M unit := fun w => (Returned tt, f w).
Definition get {A} (f : World -> A) : M A := fun w => (Returned (f w), w).

Definition logError (line : LogMessage * option JsError) : M unit :=
  modify (fun w => mkWorld (requestObjects w) (responseObjects w)
                     (ChatRequestModel_nextId w) (ChatResponseModel_nextId w)
                     (responseDidChange w) (logService_error w ++ [line])).

Definition writeRequest (a : nat) (f : ChatRequestModel -> ChatRequestModel) : M unit :=
  modify (fun w => mkWorld
                     (match requestObjects w !! a with
                      | Some r => <[a := f r]> (requestObjects w)
                      | None => requestObjects w
                      end)
                     (responseObjects w)
                     (ChatRequestModel_nextId w) (ChatResponseModel_nextId w)
                     (responseDidChange w) (logService_error w)).

Definition writeResponse (a : nat) (f : ChatResponseModel -> ChatResponseModel) : M unit :=
  modify (fun w => mkWorld (requestObjects w)
                     (match responseObjects w !! a with
                      | Some r => <[a := f r]> (responseObjects w)
                      | None => responseObjects w
                      end)
                     (ChatRequestModel_nextId w) (ChatResponseModel_nextId w)
                     (responseDidChange w) (logService_error w)).

(** [this._onDidChange.fire()] of the response at address [a]. *)
Definition fireResponse (a : nat) : M unit :=
  modify (fun w => mkWorld (requestObjects w) (responseObjects w)
                     (ChatRequestModel_nextId w) (ChatResponseModel_nextId w)
                     (match responseObjects w !! a with
                      | Some r => responseDidChange w ++ [(a, r)]
                      | None => responseDidChange w
                      end)
                     (logService_error w)).

(** Decimal rendering of a counter, as string concatenation does. *)
Definition showNat (n : nat) : string := NilZero.string_of_uint (Nat.to_uint n).

Module ChatRequestModelClass.

(** [new ChatRequestModel(session, message, variableData, attempt,
    confirmation, locationData, attachedContext, isCompleteAddedRequest)] *)
Definition new (msg : IParsedChatRequest) (variableData : IChatRequestVariableData)
    (attempt : nat) (confirmation locationData : option string)
    (attachedContext : option (list IChatRequestVariableEntry))
    (isCompleteAddedRequest : bool) : M nat :=
  fun w =>
    let id := "request_" +:+ showNat (ChatRequestModel_nextId w) in
    let obj := mkRequest id msg variableData attempt confirmation locationData
                 attachedContext isCompleteAddedRequest false in
    (Returned (length (requestObjects w)),
     mkWorld (requestObjects w ++ [obj]) (responseObjects w)
       (S (ChatRequestModel_nextId w)) (ChatResponseModel_nextId w)
       (responseDidChange w) (logService_error w)).

End ChatRequestModelClass.

Module ChatResponseModelClass.

(** [new ChatResponseModel(_response, session, agent, slashCommand,
    isComplete = false, isCanceled = false, vote, voteDownReason, result,
    followups, isCompleteAddedRequest = false, shouldBeRemovedOnSend = false)]
    for a [_response] that is an array of parts. *)
Definition new (initial : Response.t) (agent slashCommand : option string)
    (isComplete isCanceled : bool) (vote : option ChatAgentVoteDirection)
    (voteDownReason : option string) (result : option IChatAgentResult)
    (followups : option (list string)) (isCompleteAddedRequest : bool) : M nat :=
  fun w =>
    let id := "response_" +:+ showNat (ChatResponseModel_nextId w) in
    let stale := negb (length initial =? 0)%nat in
    let obj := mkResponse id initial agent slashCommand isComplete isCanceled
                 vote voteDownReason result followups isCompleteAddedRequest
                 false stale false None [] [] false in
    (Returned (length (responseObjects w)),
     mkWorld (requestObjects w) (responseObjects w ++ [obj])
       (ChatRequestModel_nextId w) (S (ChatResponseModel_nextId w))
       (responseDidChange w) (logService_error w)).

(** [toLowerCase()] on the ASCII letters; every other character is left as
    it is. The code lowers a text for one test only, whether it starts with
    [running command], and no character outside ASCII lowers to a letter of
    that prefix on its own. *)
Definition lowerAscii (c : Ascii.ascii) : Ascii.ascii :=
  let n := Ascii.nat_of_ascii c in
  if ((65 <=? n) && (n <=? 90))%nat then Ascii.ascii_of_nat (n + 32) else c.

Fixpoint toLowerCase (s : string) : string :=
  match s with
  | EmptyString => EmptyString
  | String c rest => String (lowerAscii c) (toLowerCase rest)
  end.

(** The side-effect flag after a fragment. *)
Definition sideEffectsAfter (progress : Progress) (before : bool) : bool :=
  match progress with
  | textEdit _ _ _ => true
  | contentPart (markdownContent newContent) =>
      if String.prefix "running command" (toLowerCase (value newContent))
      then true else before
  | _ => before
  end.

(** [updateContent(responsePart, quiet)] *)
Definition updateContent (a : nat) (responsePart : Progress) (quiet : bool) : M unit :=
  r <- get (fun w => responseObjects w !! a) ;;
  match r with
  | None => ret tt
  | Some obj =>
      let '(parts', changed) := Response.updateContent (_response obj) responsePart quiet in
      writeResponse a (with_response parts') ;;;
      (if changed then fireResponse a else ret tt) ;;;
      writeResponse a (fun o => with_hasSideEffects
                                  (sideEffectsAfter responsePart (_hasSideEffects o)) o)
  end.

(** [applyReference(progress)] for a used-context record. *)
Definition applyUsedContext (a : nat) (progress : string) : M unit :=
  writeResponse a (with_usedContext (Some progress)).

(** [applyReference(progress)] for a content reference. *)
Definition applyContentReference (a : nat) (progress : string) : M unit :=
  writeResponse a (fun o => with_contentReferences (_contentReferences o ++ [progress]) o) ;;;
  fireResponse a.

(** [applyCodeCitation(progress)]: the accumulator's [addCitation] updates
    the derived strings loudly, which fires once, and the method fires
    again. *)
Definition applyCodeCitation (a : nat) (progress : string) : M unit :=
  writeResponse a (fun o => with_codeCitations (_codeCitations o ++ [progress]) o) ;;;
  fireResponse a ;;;
  fireResponse a.

(** [setResult(result)] *)
Definition setResult (a : nat) (result : IChatAgentResult) : M unit :=
  writeResponse a (with_result (Some result)) ;;;
  fireResponse a.

(** [this._result?.errorDetails?.responseIsRedacted], as a condition. *)
Definition isRedacted (obj : ChatResponseModel) : bool :=
  match _result obj with
  | Some res =>
      match errorDetails res with
      | Some details =>
          match responseIsRedacted details with
          | Some b => b
          | None => false
          end
      | None => false
      end
  | None => false
  end.

(** [complete()] *)
Definition complete (a : nat) : M unit :=
  r <- get (fun w => responseObjects w !! a) ;;
  match r with
  | None => ret tt
  | Some obj =>
      (if isRedacted obj
       then writeResponse a (fun o => with_response (fst (Response.clear (_response o))) o)
       else ret tt) ;;;
      writeResponse a (with_isComplete true) ;;;
      fireResponse a
  end.

(** [cancel()] *)
Definition cancel (a : nat) : M unit :=
  writeResponse a (with_isComplete true) ;;;
  writeResponse a (with_isCanceled true) ;;;
  fireResponse a.

(** The setter of [shouldBeRemovedOnSend]. *)
Definition set_shouldBeRemovedOnSend (a : nat) (hidden : bool) : M unit :=
  writeResponse a (with_shouldBeRemovedOnSend hidden) ;;;
  fireResponse a.

(** [dispose()] *)
Definition dispose (a : nat) : M unit :=
  writeResponse a (with_isDisposed true).

End ChatResponseModelClass.

(** ** Reading the persisted session format *)

(** The truth value of an object or array that may be undefined. *)
Definition defined {A} (o : option A) : bool :=
  match o with Some _ => true | None => false end.

(** [!!x] on [boolean | undefined]. *)
Definition truthy (b : option bool) : bool :=
  match b with Some true => true | _ => false end.

(** Modelled from the spec: [isIUsedContext] of aideAgentService.js is not
    under src/; a used-context record is one with a [documents] array. *)
Definition isIUsedContext (u : RawUsedContext) : bool := documentsIsArray u.

(** Modelled from the spec: [reviveParsedChatRequest] of
    aideAgentParserTypes.js is not under src/; a persisted parsed request
    revives to the request it was exported from. *)
Definition reviveParsedChatRequest (p : IParsedChatRequest) : IParsedChatRequest := p.

(** ** The events of a session *)

Inductive ChatExchangeRemovalReason := Removal | Resend.

Inductive IChatChangeEvent :=
| initializeEvent
| addRequestEvent (request : nat)
| changedRequestEvent (request : nat)
| addResponseEvent (response : nat)
| removeExchangeEvent (exchangeId : string) (reason : ChatExchangeRemovalReason)
| setHiddenEvent (hiddenRequestIds : gset string).

Record ChatModel := mkChatModel {
  _sessionId : string;
  _exchanges : list ExchangeRef;
  _creationDate : nat;
  _lastMessageDate : nat;
  _isImported : bool;
  _customTitle : option JsString;
  requesterUsername : string;
  responderUsername : string;
  _initialLocation : option string;
  (** the context key, unset until the first [set] *)
  lastExchangeComplete : option bool;
  (** every fire of the session's [_onDidChange], oldest first, with the
      exchange list as its listeners see it at that moment *)
  onDidChange : list (IChatChangeEvent * list ExchangeRef)
}.

Definition with_exchanges (v : list ExchangeRef) (m : ChatModel) :=
  mkChatModel (_sessionId m) v (_creationDate m) (_lastMessageDate m)
    (_isImported m) (_customTitle m) (requesterUsername m) (responderUsername m)
    (_initialLocation m) (lastExchangeComplete m) (onDidChange m).

Definition with_lastMessageDate (v : nat) (m : ChatModel) :=
  mkChatModel (_sessionId m) (_exchanges m) (_creationDate m) v
    (_isImported m) (_customTitle m) (requesterUsername m) (responderUsername m)
    (_initialLocation m) (lastExchangeComplete m) (onDidChange m).

(** [this.lastExchangeComplete.set(v)] *)
Definition set_lastExchangeComplete (v : bool) (m : ChatModel) :=
  mkChatModel (_sessionId m) (_exchanges m) (_creationDate m) (_lastMessageDate m)
    (_isImported m) (_customTitle m) (requesterUsername m) (responderUsername m)
    (_initialLocation m) (Some v) (onDidChange m).

(** [this._onDidChange.fire(e)] *)
Definition fire (e : IChatChangeEvent) (m : ChatModel) :=
  mkChatModel (_sessionId m) (_exchanges m) (_creationDate m) (_lastMessageDate m)
    (_isImported m) (_customTitle m) (requesterUsername m) (responderUsername m)
    (_initialLocation m) (lastExchangeComplete m)
    (onDidChange m ++ [(e, _exchanges m)]).

(** [exchange.id] through a reference. *)
Definition exchangeId (w : World) (e : ExchangeRef) : option string :=
  match e with
  | RequestRef a => requestId <$> requestObjects w !! a
  | ResponseRef a => responseId <$> responseObjects w !! a
  end.

(** [exchange.shouldBeRemovedOnSend] through a reference. *)
Definition shouldBeRemovedOnSend (w : World) (e : ExchangeRef) : option bool :=
  match e with
  | RequestRef a => requestShouldBeRemovedOnSend <$> requestObjects w !! a
  | ResponseRef a => _shouldBeRemovedOnSend <$> responseObjects w !! a
  end.

Module ChatModelClass.

(** [getParsedRequestFromString(message)] *)
Definition getParsedRequestFromString (msg : JsString) : IParsedChatRequest :=
  mkParsed msg [mkTextPart 0 (length msg) msg].

(** [reviveVariableData(raw)] *)
Definition reviveVariableData (raw : option IChatRequestVariableData)
  : IChatRequestVariableData :=
  let variableData := match raw with
                      | Some d => d
                      | None => mkVariableData []
                      end in
  mkVariableData
    (map (fun v => match v with
                   | OldVariableEntry id name values =>
                       VariableEntry (default "" id) name (head values)
                   | _ => v
                   end)
         (variables variableData)).

(** The constructor of [Response] on a persisted array. *)
Definition reviveParts (items : list SerializedPart) : Response.t :=
  map (fun v => match v with
                | SerMarkdown md => markdownContent md
                | SerKinded p => p
                | SerTreeData tree => treeData tree
                end) items.

(** The callback of [exchanges.map] in [_deserialize]. The request branch
    builds the request and ends without a [return], so control reaches
    the [throw] after the conditional. *)
Definition deserializeExchange (raw : ISerializableExchange) : M ExchangeRef :=
  match raw with
  | RawRequest d =>
      let parsedRequest :=
        match rawMessage d with
        | inl s => getParsedRequestFromString s
        | inr p => reviveParsedChatRequest p
        end in
      let variableData := reviveVariableData (rawVariableData d) in
      request <- ChatRequestModelClass.new parsedRequest variableData 0 None None None false ;;
      writeRequest request
        (with_requestShouldBeRemovedOnSend (truthy (rawRequestIsHidden d))) ;;;
      throw (Error "Unknown exchange")
  | RawResponse d =>
      if defined (rawResponse d) || defined (rawResult d)
         || match rawResponseErrorDetails d with Some (Some _) => true | _ => false end
      then
        let agent := match rawAgent d with
                     | Some (true, a) => Some a
                     | _ => None
                     end in
        let result := match rawResponseErrorDetails d with
                      | Some details => Some (mkResult details)
                      | None => rawResult d
                      end in
        response <- ChatResponseModelClass.new
                      (reviveParts (default [SerMarkdown (MarkdownString "")] (rawResponse d)))
                      agent (rawSlashCommand d) true
                      (default false (rawIsCanceled d))
                      (rawVote d) (rawVoteDownReason d) result (rawFollowups d) false ;;
        match rawUsedContext d with
        | Some u => ChatResponseModelClass.applyUsedContext response (usedContextData u)
        | None => ret tt
        end ;;;
        ChatResponseModelClass.set_shouldBeRemovedOnSend response
          (truthy (rawResponseIsHidden d)) ;;;
        forEachM (ChatResponseModelClass.applyContentReference response)
          (default [] (rawContentReferences d)) ;;;
        forEachM (ChatResponseModelClass.applyCodeCitation response)
          (default [] (rawCodeCitations d)) ;;;
        ret (ResponseRef response)
      else throw (Error "Unknown response")
  | RawOther _ => throw (Error "Unknown exchange")
  end.

(** [_deserialize(obj)] *)
Definition _deserialize (obj : ISerializableChatData) : M (list ExchangeRef) :=
  match dataExchanges obj with
  | None =>
      logError (MessageWithJson "Ignoring malformed session data: " obj, None) ;;;
      ret []
  | Some exchanges =>
      try_catch (mapM deserializeExchange exchanges)
        (fun error =>
           logError (Message "Failed to parse chat data", Some error) ;;;
           ret [])
  end.

(** [isSerializableSessionData(obj)] on data that is there. [every] is
    called on the [exchanges] field, whatever it is. *)
Definition isSerializableSessionData (obj : ISerializableChatData) : M bool :=
  match dataSession obj with
  | None => ret false
  | Some _ =>
      match dataExchanges obj with
      | None => throw TypeError
      | Some exchanges =>
          ret (forallb (fun exchange =>
                          match exchange with
                          | RawRequest _ => true
                          | RawResponse d =>
                              match rawUsedContext d with
                              | None => true
                              | Some u => isIUsedContext u
                              end
                          | RawOther _ => false
                          end) exchanges)
      end
  end.

(** What the constructor takes from its surroundings: [generateUuid()],
    [Date.now()], and the names the default agent gives, if there is one. *)
Record Env := mkEnv {
  generateUuid : string;
  Date_now : nat;
  defaultRequesterName : option string;
  defaultResponderName : option string
}.

(** [new ChatModel(initialData, initialLocation, ...)] *)
Definition new (env : Env) (initialData : option ISerializableChatData)
    (initialLocation : option string) : M ChatModel :=
  match initialData with
  | None =>
      ret (mkChatModel (generateUuid env) [] (Date_now env) (Date_now env) false None
             (default "" (defaultRequesterName env))
             (default "" (defaultResponderName env))
             initialLocation None [])
  | Some data =>
      serializable <- isSerializableSessionData data ;;
      let session := if serializable then dataSession data else None in
      let isImported :=
        negb serializable
        || match dataSession data with Some f => dataIsImported f | None => false end in
      let sessionId :=
        match session with
        | Some f => if String.eqb (dataSessionId f) "" then generateUuid env
                    else dataSessionId f
        | None => generateUuid env
        end in
      exchanges <- _deserialize data ;;
      let creationDate :=
        match session with
        | Some f => if (dataCreationDate f =? 0)%nat then Date_now env
                    else dataCreationDate f
        | None => Date_now env
        end in
      let lastMessageDate :=
        match session with
        | Some f => if (dataLastMessageDate f =? 0)%nat then creationDate
                    else dataLastMessageDate f
        | None => creationDate
        end in
      let customTitle :=
        match session with Some f => dataCustomTitle f | None => None end in
      ret (mkChatModel sessionId exchanges creationDate lastMessageDate isImported
             customTitle
             (default (dataRequesterUsername data) (defaultRequesterName env))
             (default (dataResponderUsername data) (defaultResponderName env))
             initialLocation None [])
  end.

(** [getExchanges()] *)
Definition getExchanges (m : ChatModel) : list ExchangeRef := _exchanges m.

(** The callback of [this._exchanges.forEach] in [disableRequests]. *)
Definition hideExchange (toHide : gset string) (exchange : ExchangeRef) : M unit :=
  id <- get (fun w => exchangeId w exchange) ;;
  match id with
  | None => throw TypeError
  | Some id =>
      let hide := bool_decide (id ∈ toHide) in
      match exchange with
      | RequestRef a =>
          writeRequest a (with_requestShouldBeRemovedOnSend hide)
      | ResponseRef a =>
          ChatResponseModelClass.set_shouldBeRemovedOnSend a hide
      end
  end.

(** [disableRequests(requestIds)] *)
Definition disableRequests (m : ChatModel) (requestIds : list string) : M ChatModel :=
  let toHide : gset string := list_to_set requestIds in
  forEachM (hideExchange toHide) (_exchanges m) ;;;
  ret (fire (setHiddenEvent (list_to_set requestIds)) m).

(** [addRequest(message, variableData, attempt, chatAgent, slashCommand,
    confirmation, locationData, attachments, isCompleteAddedRequest)], at
    the time [now]. [autoAcceptLastExchange()] has an empty body. *)
Definition addRequest (m : ChatModel) (now : nat) (msg : IParsedChatRequest)
    (variableData : IChatRequestVariableData) (attempt : nat)
    (chatAgent slashCommand confirmation locationData : option string)
    (attachments : option (list IChatRequestVariableEntry))
    (isCompleteAddedRequest : option bool) : M (nat * ChatModel) :=
  request <- ChatRequestModelClass.new msg variableData attempt confirmation
               locationData attachments (default false isCompleteAddedRequest) ;;
  response <- ChatResponseModelClass.new [] chatAgent slashCommand false false
                None None None None (default false isCompleteAddedRequest) ;;
  let m := with_exchanges (_exchanges m ++ [RequestRef request; ResponseRef response]) m in
  let m := with_lastMessageDate now m in
  let m := set_lastExchangeComplete false m in
  let m := fire (addRequestEvent request) m in
  ret (request, m).

(** [addResponse()] *)
Definition addResponse (m : ChatModel) : M (nat * ChatModel) :=
  response <- ChatResponseModelClass.new [] None None false false
                None None None None false ;;
  let m := with_exchanges (_exchanges m ++ [ResponseRef response]) m in
  let m := fire (addResponseEvent response) m in
  ret (response, m).

(** [this._exchanges.findIndex(exchange => exchange.id === id)], with the
    exchange found there. *)
Definition findIndex (w : World) (id : string) (exchanges : list ExchangeRef)
  : option (nat * ExchangeRef) :=
  list_find (fun exchange => exchangeId w exchange = Some id) exchanges.

(** [removeExchange(id, reason)] *)
Definition removeExchange (m : ChatModel) (id : string)
    (reason : ChatExchangeRemovalReason) : M ChatModel :=
  found <- get (fun w => findIndex w id (_exchanges m)) ;;
  match found with
  | Some (index, exchange) =>
      let m := fire (removeExchangeEvent id reason) m in
      let m := with_exchanges (delete index (_exchanges m)) m in
      match exchange with
      | ResponseRef a => ChatResponseModelClass.dispose a
      | RequestRef _ => ret tt
      end ;;;
      ret m
  | None => ret m
  end.

(** [cancelResponse(response)] *)
Definition cancelResponse (m : ChatModel) (response : option nat) : M ChatModel :=
  match response with
  | Some a => ChatResponseModelClass.cancel a
  | None => ret tt
  end ;;;
  ret m.

(** [completeResponse(response)] *)
Definition completeResponse (m : ChatModel) (response : option nat) : M ChatModel :=
  match response with
  | None => throw (Error "Call setResponse before completeResponse")
  | Some a =>
      ChatResponseModelClass.complete a ;;;
      ret (set_lastExchangeComplete true m)
  end.

(** The persisted form of a content part in [toExport]. *)
Definition exportPart (item : IChatProgressResponseContent) : SerializedPart :=
  match item with
  | treeData tree => SerTreeData tree
  | markdownContent content => SerMarkdown content
  | _ => SerKinded item
  end.

(** The callback of [this._exchanges.map] in [toExport]. *)
Definition exportExchange (e : ExchangeRef) : M ISerializableExchange :=
  match e with
  | RequestRef a =>
      r <- get (fun w => requestObjects w !! a) ;;
      match r with
      | Some r =>
          ret (RawRequest
                 (mkRawRequest (inr (mkParsed (messageText (message r)) (parts (message r))))
                    (Some (_variableData r))
                    (Some (requestShouldBeRemovedOnSend r))))
      | None => throw (Error "Unknown exchange type")
      end
  | ResponseRef a =>
      r <- get (fun w => responseObjects w !! a) ;;
      match r with
      | Some r =>
          ret (RawResponse
                 (mkRawResponse
                    (Some (map exportPart (_response r)))
                    (option_map (fun agent => (true, agent)) (_agent r))
                    (_slashCommand r)
                    None
                    (_result r)
                    (_followups r)
                    (Some (_isCanceled r))
                    (_vote r)
                    (_voteDownReason r)
                    (option_map (mkRawUsedContext true) (_usedContext r))
                    (Some (_contentReferences r))
                    (Some (_codeCitations r))
                    (Some (_shouldBeRemovedOnSend r))))
      | None => throw (Error "Unknown exchange type")
      end
  end.

(** [toExport()], as the data without the session fields. *)
Definition toExport (m : ChatModel) : M ISerializableChatData :=
  exchanges <- mapM exportExchange (_exchanges m) ;;
  ret (mkChatData (requesterUsername m) (responderUsername m)
         (_initialLocation m) (Some exchanges) None).

(** [toJSON()] *)
Definition toJSON (m : ChatModel) : M ISerializableChatData :=
  exported <- toExport m ;;
  ret (mkChatData (dataRequesterUsername exported) (dataResponderUsername exported)
         (dataInitialLocation exported) (dataExchanges exported)
         (Some (mkSessionFields (_sessionId m) (_creationDate m) (_isImported m)
                  (_lastMessageDate m) (_customTitle m)))).


(** The getters [hasRequests] and [lastExchange]. *)
Definition hasRequests (m : ChatModel) : bool :=
  (0 <? length (_exchanges m))%nat.


(** [exchanges.find(r => isRequestModel(r))] on the exchanges of a session. *)
Fixpoint firstRequest (w : World) (exchanges : list ExchangeRef) : option ChatRequestModel :=
  match exchanges with
  | [] => None
  | RequestRef a :: rest =>
      match requestObjects w !! a with
      | Some r => Some r
      | None => firstRequest w rest
      end
  | ResponseRef _ :: rest => firstRequest w rest
  end.

(** [s.split('\n')[0]]: what stands before the first line feed. *)
Fixpoint firstLine (s : JsString) : JsString :=
  match s with
  | [] => []
  | c :: rest => if (c =? 10)%N then [] else c :: firstLine rest
  end.

(** [ChatModel.getDefaultTitle(exchanges)] *)
Definition getDefaultTitle (w : World) (exchanges : list ExchangeRef) : JsString :=
  let msg := match firstRequest w exchanges with
             | Some firstRequestMessage => messageText (message firstRequestMessage)
             | None => js "Session"
             end in
  take 50 (firstLine msg).

(** The getter [title]: [this._customTitle || getDefaultTitle(...)]. *)
Definition title (m : ChatModel) (w : World) : JsString :=
  match _customTitle m with
  | Some t => if nonEmptyText t then t else getDefaultTitle w (_exchanges m)
  | None => getDefaultTitle w (_exchanges m)
  end.

(** [setCustomTitle(title)] *)
Definition setCustomTitle (m : ChatModel) (t : JsString) : ChatModel :=
  mkChatModel (_sessionId m) (_exchanges m) (_creationDate m) (_lastMessageDate m)
    (_isImported m) (Some t) (requesterUsername m) (responderUsername m)
    (_initialLocation m) (lastExchangeComplete m) (onDidChange m).

(** [disableExchange(id, _reason)]: the index may be -1, and then the
    exchange read at it is undefined. *)
Definition disableExchange (m : ChatModel) (id : string) : M ChatModel :=
  found <- get (fun w => findIndex w id (_exchanges m)) ;;
  match found with
  | Some (_, RequestRef a) =>
      writeRequest a (with_requestShouldBeRemovedOnSend true) ;;;
      ret m
  | Some (_, ResponseRef a) =>
      ChatResponseModelClass.set_shouldBeRemovedOnSend a true ;;;
      ret m
  | None => throw TypeError
  end.

(** [ChatModelInitState] *)
Inductive ChatModelInitState := Created | Initializing | Initialized.

(** The name of a state, [ChatModelInitState[state]]. *)
Definition initStateName (state : ChatModelInitState) : string :=
  match state with
  | Created => "Created"
  | Initializing => "Initializing"
  | Initialized => "Initialized"
  end.

(** Modelled from the spec: [DeferredPromise] of base/common/async.js is not
    under src/; the initialization future is pending, resolved or rejected,
    it is settled once it is resolved or rejected, and a settled future
    stays as it is. *)
Inductive DeferredPromise := Pending | Resolved | Rejected (error : string).

Definition isSettled (d : DeferredPromise) : bool :=
  match d with Pending => false | _ => true end.

Definition complete (d : DeferredPromise) : DeferredPromise :=
  match d with Pending => Resolved | _ => d end.

(** The fields of the session that the initialization methods work on, as
    they are in a new session. *)
Record InitFields := mkInitFields {
  _initState : ChatModelInitState;
  _isInitializedDeferred : DeferredPromise;
  _welcomeMessage : option string
}.

Definition newInitFields : InitFields := mkInitFields Created Pending None.

(** [startInitialize()] *)
Definition startInitialize (f : InitFields) : string + InitFields :=
  match _initState f with
  | Created =>
      inr (mkInitFields Initializing (_isInitializedDeferred f) (_welcomeMessage f))
  | state =>
      inl ("ChatModel is in the wrong state for startInitialize: " +:+ initStateName state)
  end.

(** [deinitialize()] *)
Definition deinitialize (f : InitFields) : InitFields :=
  mkInitFields Created Pending (_welcomeMessage f).

(** [initialize(welcomeMessage)] *)
Definition initialize (welcomeMessage : option string) (f : InitFields) (m : ChatModel)
  : string + InitFields * ChatModel :=
  match _initState f with
  | Initializing =>
      inr (mkInitFields Initialized (complete (_isInitializedDeferred f)) welcomeMessage,
           fire initializeEvent m)
  | state =>
      inl ("ChatModel is in the wrong state for initialize: " +:+ initStateName state)
  end.

(** [setInitializationError(error)] *)
Definition setInitializationError (error : string) (f : InitFields) : string + InitFields :=
  match _initState f with
  | Initializing =>
      inr (if negb (isSettled (_isInitializedDeferred f))
           then mkInitFields (_initState f) (Rejected error) (_welcomeMessage f)
           else f)
  | state =>
      inl ("ChatModel is in the wrong state for setInitializationError: "
           +:+ initStateName state)
  end.

(** [waitForInitialization()] *)
Definition waitForInitialization (f : InitFields) : DeferredPromise :=
  _isInitializedDeferred f.

End ChatModelClass.

(** ** The session provider of the extension: routing agent events *)

(** A JavaScript [Map] with string keys: entries in insertion order, a key
    at most once. *)
Module JsMap.
Abbreviation t V := (list (string * V)).

Section WithValue.
Context {V : Type}.

Fixpoint get (k : string) (m : t V) : option V :=
  match m with
  | [] => None
  | (k', v) :: rest => if decide (k' = k) then Some v else get k rest
  end.

Definition has (k : string) (m : t V) : bool := defined (get k m).

Fixpoint replace (k : string) (v : V) (m : t V) : t V :=
  match m with
  | [] => []
  | (k', v') :: rest =>
      if decide (k' = k) then (k', v) :: rest else (k', v') :: replace k v rest
  end.

Definition set (k : string) (v : V) (m : t V) : t V :=
  if has k m then replace k v m else m ++ [(k, v)].

Definition delete (k : string) (m : t V) : t V :=
  filter (fun entry => fst entry ≠ k) m.

Definition values (m : t V) : list V := map snd m.
End WithValue.
End JsMap.

Module AideAgentSessionProvider.

Record ResponseStreamIdentifier := mkIdentifier {
  sessionId : string;
  exchangeId : string
}.

#[global] Instance ResponseStreamIdentifier_eq_dec : EqDecision ResponseStreamIdentifier.
Proof. solve_decision. Defined.

(** [vscode.AideAgentEventSenderResponse]: the exchange it answers and the
    stream object, known by its identity. *)
Record AideAgentEventSenderResponse := mkSender {
  senderExchangeId : string;
  stream : nat
}.

(** The calls made on a stream object. *)
Inductive StreamCall :=
| Stage (message : string)
| Markdown (value : JsString)
| Reference (fsPath : JsString)
| ToolTypeErrorCall (message : string)
| Step (index : nat) (description : string)
| Close.

#[global] Instance StreamCall_eq_dec : EqDecision StreamCall.
Proof. solve_decision. Defined.

(** A call as the provider makes it: the identifier with which the stream
    was looked up, the stream object, the call. *)
Record Emitted := mkEmitted {
  lookedUp : ResponseStreamIdentifier;
  onStream : nat;
  call : StreamCall
}.

#[global] Instance Emitted_eq_dec : EqDecision Emitted.
Proof. solve_decision. Defined.

(** The events of the sidecar. An event object has one populated field at
    each level; the provider tests the fields in a fixed order. *)
Inductive ToolInputPartial :=
| AttemptCompletion
| ToolOpenFile (fs_file_path : JsString)
| OtherToolInput (key : string).

Inductive FrameworkEvent :=
| OpenFile (fs_file_path : JsString)
| ToolThinking (thinking : JsString)
| ToolParameterFound (field_name : string) (field_content_delta : JsString)
| ToolUseDetected (tool_use_partial_input : option ToolInputPartial)
| ToolTypeError (error_string : string)
| OtherFrameworkEvent.

Inductive SymbolEventSubStepKind :=
| GoToDefinition
| Edit (thinkingForEdit : option JsString)  (** [ThinkingForEdit.delta], if the field is there *)
| Probe (keys : list string)
| OtherSubStep.

Inductive PlanEvent :=
| PlanStepTitleAdded (index : nat) (title : string)
| PlanStepDescriptionUpdate (index : nat) (delta : string).

Inductive ExchangeEvent :=
| PlansExchangeState (edits_state : string)
| EditsExchangeState (edits_state : string)
| ExecutionState (state : string)
| FinishedExchange
| OtherExchangeEvent.

Inductive UIEvent :=
| FrameworkEv (e : FrameworkEvent)
| SymbolEvent (keys : list string)
| SymbolEventSubStep (fs_file_path symbol_name : string) (e : SymbolEventSubStepKind)
| RequestEvent
| EditRequestFinished
| ChatEvent (delta : option JsString)
| PlanEv (e : PlanEvent)
| ExchangeEv (e : ExchangeEvent)
| OtherEvent.

Inductive SideCarAgentEvent :=
| keep_alive
| started (session_id : string)
| done
| UIEventWithID (request_id exchange_id : string) (event : UIEvent).

Record t := mkProvider {
  responseStreamCollection : JsMap.t AideAgentEventSenderResponse;
  lastThinkingText : gmap string JsString;
  startedStreams : gset string
}.

Definition initial : t := mkProvider [] ∅ ∅.

(** [getKey(responseStreamIdentifier)], also the template
    [`${sessionId}-${exchangeId}`] of the provider. *)
Definition getKey (i : ResponseStreamIdentifier) : string :=
  sessionId i +:+ "-" +:+ exchangeId i.

(** [responseStreamCollection.addResponseStream(identifier, responseStream)] *)
Definition addResponseStream (i : ResponseStreamIdentifier)
    (responseStream : AideAgentEventSenderResponse) (p : t) : t :=
  mkProvider (JsMap.set (getKey i) responseStream (responseStreamCollection p))
    (lastThinkingText p) (startedStreams p).

Definition getResponseStream (i : ResponseStreamIdentifier) (p : t)
  : option AideAgentEventSenderResponse :=
  JsMap.get (getKey i) (responseStreamCollection p).

Definition removeResponseStream (i : ResponseStreamIdentifier) (p : t) : t :=
  mkProvider (JsMap.delete (getKey i) (responseStreamCollection p))
    (lastThinkingText p) (startedStreams p).

Definition getAllResponseStreams (p : t) : list AideAgentEventSenderResponse :=
  JsMap.values (responseStreamCollection p).

(** [responseStream?.stream.f(...)] *)
Definition callOn (i : ResponseStreamIdentifier)
    (responseStream : option AideAgentEventSenderResponse) (c : StreamCall)
  : list Emitted :=
  match responseStream with
  | Some s => [mkEmitted i (stream s) c]
  | None => []
  end.

(** [closeAndRemoveResponseStream(sessionId, exchangeId)] *)
Definition closeAndRemoveResponseStream (sid eid : string) (p : t) : t * list Emitted :=
  let responseStreamIdentifier := mkIdentifier sid eid in
  let responseStream := getResponseStream responseStreamIdentifier p in
  let out := callOn responseStreamIdentifier responseStream Close in
  let p := removeResponseStream responseStreamIdentifier p in
  let key := sid +:+ "-" +:+ eid in
  (mkProvider (responseStreamCollection p)
     (base.delete key (lastThinkingText p)) (startedStreams p),
   out).

(** [for (const stream of openStreams)
      this.closeAndRemoveResponseStream(sessionId, stream.exchangeId)] *)
Fixpoint closeEach (sid : string) (openStreams : list AideAgentEventSenderResponse)
    (p : t) : t * list Emitted :=
  match openStreams with
  | [] => (p, [])
  | s :: rest =>
      let '(p1, out1) := closeAndRemoveResponseStream sid (senderExchangeId s) p in
      let '(p2, out2) := closeEach sid rest p1 in
      (p2, out1 ++ out2)
  end.

(** How one turn of the loop ends. *)
Inductive Flow :=
| Continue
| Return
| Throws (error : JsError).

(** [currentText.slice(n)] *)
Definition slice (n : nat) (s : JsString) : JsString := drop n s.

Definition nonEmpty (s : string) : bool := negb (String.eqb s "").

(** The branches of the loop body under [event.event.FrameworkEvent]. *)
Definition onFrameworkEvent (i : ResponseStreamIdentifier)
    (responseStream : AideAgentEventSenderResponse) (e : FrameworkEvent) (p : t)
  : t * list Emitted * Flow :=
  let emit c := mkEmitted i (stream responseStream) c in
  match e with
  | OpenFile filePath =>
      (p, if nonEmptyText filePath then [emit (Reference filePath)] else [], Continue)
  | ToolThinking currentText =>
      let key := sessionId i +:+ "-" +:+ exchangeId i in
      let lastText := default [] (lastThinkingText p !! key) in
      let delta := slice (length lastText) currentText in
      (mkProvider (responseStreamCollection p)
         (<[key := currentText]> (lastThinkingText p)) (startedStreams p),
       if nonEmptyText delta then [emit (Markdown (delta ++ js "
"))] else [],
       Continue)
  | ToolParameterFound fieldName delta =>
      (p,
       if String.eqb fieldName "fs_file_path" || String.eqb fieldName "directory_path"
       then [emit (Reference delta)]
       else if String.eqb fieldName "instruction" || String.eqb fieldName "result"
               || String.eqb fieldName "question"
       then [emit (Markdown (delta ++ js "
"))]
       else if String.eqb fieldName "command"
       then [emit (Markdown (js "Running command: `" ++ delta ++ js "`
"))]
       else if String.eqb fieldName "regex_pattern"
       then [emit (Markdown (js "
Searching the codebase: `" ++ delta ++ js "`
"))]
       else if String.eqb fieldName "file_pattern"
       then [emit (Markdown (js "
Looking for files: `" ++ delta ++ js "`
"))]
       else [],
       Continue)
  | ToolUseDetected None => (p, [], Continue)
  | ToolUseDetected (Some AttemptCompletion) =>
      let out := [emit (Stage "Complete")] in
      let openStreams := getAllResponseStreams p in
      let '(p', closed) := closeEach (sessionId i) openStreams p in
      (p', out ++ closed, Return)
  | ToolUseDetected (Some (ToolOpenFile filePath)) =>
      (p, if nonEmptyText filePath then [emit (Reference filePath)] else [], Continue)
  | ToolUseDetected (Some (OtherToolInput _)) => (p, [], Continue)
  | ToolTypeError error_string =>
      let out := [emit (ToolTypeErrorCall error_string); emit (Stage "Error")] in
      let openStreams := getAllResponseStreams p in
      let '(p', closed) := closeEach (sessionId i) openStreams p in
      (p', out ++ closed, Return)
  | OtherFrameworkEvent => (p, [], Continue)
  end.

(** The branches under [event.event.ExchangeEvent]; the stream is looked
    up again there. *)
Definition onExchangeEvent (i : ResponseStreamIdentifier) (e : ExchangeEvent) (p : t)
  : t * list Emitted * Flow :=
  let responseStream := getResponseStream i p in
  let stageOf msg := callOn i responseStream (Stage msg) in
  match e with
  | PlansExchangeState editsState =>
      if String.eqb editsState "Loading" then (p, stageOf "Planning", Continue)
      else if String.eqb editsState "Cancelled" then (p, stageOf "Cancelled", Continue)
      else if String.eqb editsState "MarkedComplete" then
        let '(p', closed) := closeAndRemoveResponseStream (sessionId i) (exchangeId i) p in
        (p', stageOf "Complete" ++ closed, Return)
      else if String.eqb editsState "Accepted" then (p, stageOf "Accepted", Continue)
      else (p, [], Continue)
  | EditsExchangeState editsState =>
      if String.eqb editsState "Loading" then (p, stageOf "Editing", Continue)
      else if String.eqb editsState "Cancelled" then (p, stageOf "Cancelled", Continue)
      else if String.eqb editsState "MarkedComplete" then
        let '(p', closed) := closeAndRemoveResponseStream (sessionId i) (exchangeId i) p in
        (p', stageOf "Complete" ++ closed, Return)
      else (p, [], Continue)
  | ExecutionState executionState =>
      if String.eqb executionState "Inference" then (p, stageOf "Reasoning", Continue)
      else if String.eqb executionState "InReview" then (p, stageOf "Review", Continue)
      else if String.eqb executionState "Cancelled" then (p, stageOf "Cancelled", Continue)
      else (p, [], Continue)
  | FinishedExchange =>
      let '(p', closed) := closeAndRemoveResponseStream (sessionId i) (exchangeId i) p in
      (p', stageOf "Complete" ++ closed, Continue)
  | OtherExchangeEvent => (p, [], Continue)
  end.

(** The dispatch after the stream is resolved and the first-event stage is
    sent. *)
Definition onUIEvent (i : ResponseStreamIdentifier)
    (responseStream : AideAgentEventSenderResponse) (e : UIEvent) (p : t)
  : t * list Emitted * Flow :=
  let emit c := mkEmitted i (stream responseStream) c in
  match e with
  | FrameworkEv fe => onFrameworkEvent i responseStream fe p
  | SymbolEvent _ => (p, [], Continue)
  | SymbolEventSubStep fs_file_path symbol_name sub =>
      match sub with
      | GoToDefinition => (p, [], Continue)
      | Edit thinking =>
          if negb (nonEmpty fs_file_path) && negb (nonEmpty symbol_name)
          then (p, [], Continue)
          else match thinking with
               | None => (p, [], Throws TypeError)
               | Some delta =>
                   (p, if nonEmptyText delta then [emit (Markdown delta)] else [], Continue)
               end
      | Probe _ => (p, [], Continue)
      | OtherSubStep => (p, [], Continue)
      end
  | RequestEvent => (p, [], Continue)
  | EditRequestFinished => (p, [], Continue)
  | ChatEvent delta =>
      (p,
       match delta with
       | Some d => callOn i (getResponseStream i p) (Markdown d)
       | None => []
       end,
       Continue)
  | PlanEv (PlanStepTitleAdded index title) =>
      let rs := getResponseStream i p in
      (p, callOn i rs (Stage "Planning") ++ callOn i rs (Step index ("### " +:+ title)),
       Continue)
  | PlanEv (PlanStepDescriptionUpdate index delta) =>
      (p, callOn i (getResponseStream i p) (Step index ("
" +:+ delta)), Continue)
  | ExchangeEv ee => onExchangeEvent i ee p
  | OtherEvent => (p, [], Continue)
  end.

(** One turn of the loop of [reportAgentEventsToChat]: the body for one
    event. *)
Definition onEvent (editMode : bool) (event : SideCarAgentEvent) (p : t)
  : t * list Emitted * Flow :=
  match event with
  | keep_alive => (p, [], Continue)
  | started _ => (p, [], Continue)
  | done => (p, [], Continue)
  | UIEventWithID sid eid e =>
      let i := mkIdentifier sid eid in
      match getResponseStream i p with
      | None => (p, [], Continue)
      | Some responseStream =>
          let key := sid +:+ "-" +:+ eid in
          let '(p1, loading) :=
            if bool_decide (key ∈ startedStreams p)
            then (p, [])
            else (mkProvider (responseStreamCollection p) (lastThinkingText p)
                    ({[key]} ∪ startedStreams p),
                  [mkEmitted i (stream responseStream) (Stage "Loading...")]) in
          let '(p2, out, flow) := onUIEvent i responseStream e p1 in
          (p2, loading ++ out, flow)
      end
  end.

(** [reportAgentEventsToChat(editMode, stream)] over the events the stream
    yields: the loop ends with the stream, at a [return], or at a throw. *)
Fixpoint reportAgentEventsToChat (editMode : bool) (events : list SideCarAgentEvent)
    (p : t) : t * list Emitted * Flow :=
  match events with
  | [] => (p, [], Continue)
  | event :: rest =>
      let '(p1, out1, flow) := onEvent editMode event p in
      match flow with
      | Continue =>
          let '(p2, out2, flow2) := reportAgentEventsToChat editMode rest p1 in
          (p2, out1 ++ out2, flow2)
      | _ => (p1, out1, flow)
      end
  end.

(** The provider runs one loop per request, all on the same provider
    object, and a turn of a loop is not interrupted. What the provider does
    over all its loops is a sequence of turns: [turns] lists the events in
    the order their turns run. *)
Fixpoint dispatch (editMode : bool) (turns : list SideCarAgentEvent) (p : t)
  : t * list Emitted :=
  match turns with
  | [] => (p, [])
  | event :: rest =>
      let '(p1, out1, _) := onEvent editMode event p in
      let '(p2, out2) := dispatch editMode rest p1 in
      (p2, out1 ++ out2)
  end.


(** The loop of [getNextOpenPort(startFrom)] over the ports that are left
    below 65535; [isPortOpen] is what the probe of a port answers. *)
Fixpoint scanPorts (isPortOpen : N → bool) (remaining : nat) (startFrom : N) : option N :=
  match remaining with
  | O => None
  | S remaining =>
      if isPortOpen startFrom then Some startFrom
      else scanPorts isPortOpen remaining (N.succ startFrom)
  end.

(** [getNextOpenPort(startFrom = 42427)]: [openPort] is null for as long as
    the loop runs, so the loop goes on while [startFrom < 65535]. *)
Definition getNextOpenPort (isPortOpen : N → bool) (startFrom : N) : option N :=
  scanPorts isPortOpen (N.to_nat (65535 - startFrom)) startFrom.

(** [vscode.AideAgentRequest], by the fields that [handleEvent] reads. *)
Record AideAgentRequest := mkAgentRequest {
  requestSessionId : string;
  requestExchangeId : string;
  prompt : string
}.

(** The fields of the provider that [handleEvent] works on. *)
Record Intake := mkIntake {
  eventQueue : list AideAgentRequest;
  processingEvents : JsMap.t bool
}.

(** [handleEvent(event)]: the fields afterwards, and the event when
    [processEvent] is called on it. *)
Definition handleEvent (event : AideAgentRequest) (q : Intake)
  : Intake * option AideAgentRequest :=
  let queue := eventQueue q ++ [event] in
  let uniqueId := requestSessionId event +:+ "-" +:+ requestExchangeId event in
  if negb (JsMap.has uniqueId (processingEvents q))
  then (mkIntake queue (JsMap.set uniqueId true (processingEvents q)), Some event)
  else (mkIntake queue (processingEvents q), None).

End AideAgentSessionProvider.

(** ** The view model *)

Module ChatViewModelClass.

(** [ChatResponseViewModel], by its model and the two flags that the list
    sets. *)
Record ChatResponseViewModel := mkResponseVM {
  responseModel : nat;
  isFirst : bool;
  isLast : bool
}.

(** An item of [_items]. *)
Inductive Item :=
| RequestVM (requestModel : nat)
| ResponseVM (response : ChatResponseViewModel).

(** [new ChatResponseViewModel(_model)]: [isFirst = false; isLast = true]. *)
Definition newResponseVM (responseModel : nat) : Item :=
  ResponseVM (mkResponseVM responseModel false true).

(** The model of an item. *)
Definition model (item : Item) : ExchangeRef :=
  match item with
  | RequestVM a => RequestRef a
  | ResponseVM r => ResponseRef (responseModel r)
  end.

(** The loop at the head of [addItem], which goes from the last item to
    the first: the list is taken in reverse. *)
Fixpoint clearOldLast (reversed : list Item) : list Item :=
  match reversed with
  | [] => []
  | ResponseVM r :: rest =>
      if isLast r
      then ResponseVM (mkResponseVM (responseModel r) (isFirst r) false) :: rest
      else ResponseVM r :: clearOldLast rest
  | item :: rest => item :: clearOldLast rest
  end.

(** [addItem(item)] *)
Definition addItem (item : Item) (_items : list Item) : list Item :=
  let _items := rev (clearOldLast (rev _items)) in
  let item :=
    match item with
    | ResponseVM r =>
        let previousItem := last _items in
        ResponseVM (mkResponseVM (responseModel r)
                      (match previousItem with Some (RequestVM _) => true | _ => false end)
                      (isLast r))
    | RequestVM _ => item
    end in
  _items ++ [item].

(** [removeItem(index)]; [None] is the index -1. The item that is taken out
    is disposed when it is a response. *)
Definition removeItem (index : option nat) (_items : list Item) : list Item :=
  match index with
  | Some index => delete index _items
  | None => _items
  end.

(** [onAddResponse(responseModel)] *)
Definition onAddResponse (responseModel : nat) (_items : list Item) : list Item :=
  addItem (newResponseVM responseModel) _items.

(** The constructor: the items for the exchanges of the model. *)
Definition new (exchanges : list ExchangeRef) : list Item :=
  fold_left (fun _items exchange =>
               match exchange with
               | RequestRef a => addItem (RequestVM a) _items
               | ResponseRef a => onAddResponse a _items
               end) exchanges [].

(** [this._items.findIndex(item => item.id === e.exchangeId)] *)
Definition findIndex (w : World) (id : string) (_items : list Item) : option nat :=
  fst <$> list_find (fun item => exchangeId w (model item) = Some id) _items.

(** The listener of the model's [onDidChange], for what it does to the
    items. *)
Definition onModelChange (w : World) (e : IChatChangeEvent) (_items : list Item)
  : list Item :=
  match e with
  | addRequestEvent request => addItem (RequestVM request) _items
  | addResponseEvent response => onAddResponse response _items
  | removeExchangeEvent id _ => removeItem (findIndex w id _items) _items
  | _ => _items
  end.

(** [getItems()], for items whose models are in the store. *)
Definition getItems (w : World) (_items : list Item) : list Item :=
  filter (fun item => shouldBeRemovedOnSend w (model item) ≠ Some true) _items.

End ChatViewModelClass.

(** ** Vocabulary of the properties *)

(** Two markdown strings agree on trust, html, theme icons and base URI. *)
Definition sameAttributes (a b : IMarkdownString) : Prop :=
  isTrusted a = isTrusted b
  ∧ supportHtml a = supportHtml b
  ∧ supportThemeIcons a = supportThemeIcons b
  ∧ baseUri a = baseUri b.

Definition isMarkdownContent (p : IChatProgressResponseContent) : Prop :=
  match p with markdownContent _ => True | _ => False end.

(** A markdown fragment as [updateContent] receives it. *)
Definition markdownFragment (md : IMarkdownString) : Progress :=
  contentPart (markdownContent md).

(** A text-edit fragment: the file, one batch of edits, the [done] flag. *)
Record TextEditFragment := mkFragment {
  fragmentUri : URI;
  fragmentEdits : list TextEdit;
  fragmentDone : option bool
}.

Definition asProgress (f : TextEditFragment) : Progress :=
  textEdit (fragmentUri f) (fragmentEdits f) (fragmentDone f).

(** The batches of the fragments that address [u], in arrival order. *)
Definition batchesFor (u : URI) (fragments : list TextEditFragment) : list (list TextEdit) :=
  map fragmentEdits (filter (fun f => fragmentUri f = u) fragments).

(** No part is an edit group for the file [u]. *)
Definition noGroupFor (u : URI) (parts : Response.t) : Prop :=
  Forall (fun p => match p with
                   | textEditGroup cu _ _ _ => cu ≠ u
                   | _ => True
                   end) parts.

(** The edit groups of two files [A] and [B] that hold the batches [a] and
    [b]: a file without a batch has no group, and the groups stand in the
    order in which the files were first addressed. *)
Inductive Buckets (A B : URI)
  : list (list TextEdit) → list (list TextEdit) → Response.t → Prop :=
| Buckets_none : Buckets A B [] [] []
| Buckets_A a dA : a ≠ [] → Buckets A B a [] [textEditGroup A a None dA]
| Buckets_B b dB : b ≠ [] → Buckets A B [] b [textEditGroup B b None dB]
| Buckets_AB a b dA dB : a ≠ [] → b ≠ [] →
    Buckets A B a b [textEditGroup A a None dA; textEditGroup B b None dB]
| Buckets_BA a b dA dB : a ≠ [] → b ≠ [] →
    Buckets A B a b [textEditGroup B b None dB; textEditGroup A a None dA].

(** A computation that writes no error line. *)
Definition keepsLog {A} (c : M A) : Prop :=
  ∀ w, logService_error (snd (c w)) = logService_error w.

(** A persisted record that is neither a request nor a response with
    anything in it. *)
Definition unrecognized (raw : ISerializableExchange) : Prop :=
  match raw with
  | RawOther _ => True
  | RawResponse d =>
      rawResponse d = None ∧ rawResult d = None
      ∧ ∀ details, rawResponseErrorDetails d ≠ Some (Some details)
  | RawRequest _ => False
  end.

(** *** A session to run *)

Definition scenarioEnv : ChatModelClass.Env :=
  ChatModelClass.mkEnv "session-1" 1000 None None.

Definition fooTs : URI := mkURI "file" "" "/foo.ts" "" "".

(** The response that stands last in the exchange list. *)
Definition lastResponse (m : ChatModel) : option nat :=
  match last (_exchanges m) with
  | Some (ResponseRef a) => Some a
  | _ => None
  end.

Definition onLastResponse (m : ChatModel) (k : nat → M unit) : M unit :=
  match lastResponse m with
  | Some a => k a
  | None => throw (Error "no response")
  end.

(** A request answered by two markdown fragments that merge and one text
    edit, completed; then a second request whose response is canceled. *)
Definition scenarioSession : M ChatModel :=
  m <- ChatModelClass.new scenarioEnv None (Some "panel") ;;
  added <- ChatModelClass.addRequest m 1001
             (ChatModelClass.getParsedRequestFromString (js "Fix the bug in foo.ts"))
             (mkVariableData []) 0 None None None None None None ;;
  let m := snd added in
  onLastResponse m (fun a =>
    ChatResponseModelClass.updateContent a
      (markdownFragment (MarkdownString "Let me look")) false ;;;
    ChatResponseModelClass.updateContent a
      (markdownFragment (MarkdownString " at this.")) false ;;;
    ChatResponseModelClass.updateContent a
      (textEdit fooTs [mkTextEdit 1 1 1 4 "let"] (Some true)) false) ;;;
  m <- ChatModelClass.completeResponse m (lastResponse m) ;;
  added <- ChatModelClass.addRequest m 1002
             (ChatModelClass.getParsedRequestFromString (js "Now add a test"))
             (mkVariableData []) 0 None None None None None None ;;
  let m := snd added in
  ChatModelClass.cancelResponse m (lastResponse m).

(** A response whose result says that the answer was redacted. *)
Definition redactedResponse : ChatResponseModel :=
  mkResponse "response_0" [markdownContent (MarkdownString "secret")] None None
    false false None None
    (Some (mkResult (Some (mkErrorDetails "filtered" (Some true)))))
    None false false false false None [] [] false.

Definition redactedWorld : World := mkWorld [] [redactedResponse] 0 1 [] [].

Definition emptyModel : ChatModel :=
  mkChatModel "session-1" [] 1000 1000 false None "" "" None None [].

(** What the three exchanges of a persisted session look like when the one
    in the middle has an unknown [type]. *)
Definition persistedResponse (answer : string) : ISerializableExchange :=
  RawResponse (mkRawResponse (Some [SerMarkdown (MarkdownString answer)]) None None None
                 None None (Some false) None None None (Some []) (Some []) (Some false)).

Definition persistedWithStranger : ISerializableChatData :=
  mkChatData "user" "Aide" (Some "panel")
    (Some [persistedResponse "first"; RawOther "note"; persistedResponse "second"])
    None.

(** *** Vocabulary of the dispatcher *)

Module Terminal.
Import AideAgentSessionProvider.

(** The two terminal events after which the provider goes through all the
    open streams. *)
Definition fansOut (e : UIEvent) : Prop :=
  match e with
  | FrameworkEv (ToolUseDetected (Some AttemptCompletion)) => True
  | FrameworkEv (ToolTypeError _) => True
  | _ => False
  end.

(** The terminal events that name a state of one exchange. *)
Definition endsExchange (e : UIEvent) : Prop :=
  match e with
  | ExchangeEv FinishedExchange => True
  | ExchangeEv (PlansExchangeState s) => s = "MarkedComplete"
  | ExchangeEv (EditsExchangeState s) => s = "MarkedComplete"
  | _ => False
  end.

Definition isTerminal (e : UIEvent) : Prop := fansOut e ∨ endsExchange e.

(** The stream [s] is open for the session [sid]: it is registered under
    the session and its own exchange id, as [newExchangeIdForSession]
    registers a stream. *)
Definition openIn (sid : string) (s : AideAgentEventSenderResponse) (p : t) : Prop :=
  getResponseStream (mkIdentifier sid (senderExchangeId s)) p = Some s.

(** The stream [s] of the session [sid] is closed and removed by a turn
    that ends in [p'] after the calls [out]. *)
Definition closedAndRemoved (sid : string) (s : AideAgentEventSenderResponse)
    (p' : t) (out : list Emitted) : Prop :=
  getResponseStream (mkIdentifier sid (senderExchangeId s)) p' = None
  ∧ mkEmitted (mkIdentifier sid (senderExchangeId s)) (stream s) Close ∈ out.


(** Three streams open in the session [s]. *)
Definition threeStreams : t :=
  addResponseStream (mkIdentifier "s" "e3") (mkSender "e3" 3)
    (addResponseStream (mkIdentifier "s" "e2") (mkSender "e2" 2)
       (addResponseStream (mkIdentifier "s" "e1") (mkSender "e1" 1) initial)).
End Terminal.

(** *** Vocabulary of the further properties *)

(** The texts of a run of markdown fragments, one after the other. *)
Definition joinValues (fs : list IMarkdownString) : string :=
  fold_right (fun f acc => value f +:+ acc) "" fs.

(** The character [c] is the character [l], or the capital letter of it. *)
Definition sameLetter (c l : Ascii.ascii) : Prop :=
  c = l
  ∨ ((65 <= Ascii.nat_of_ascii c <= 90)%nat
     ∧ Ascii.nat_of_ascii c + 32 = Ascii.nat_of_ascii l).

(** The text starts, in any letter case, with [running command]. *)
Definition announcesCommand (s : string) : Prop :=
  ∃ head rest,
    s = head +:+ rest
    ∧ Forall2 sameLetter (list_ascii_of_string head)
        (list_ascii_of_string "running command").

(** A fragment that gives a response side effects: a text edit, or a
    markdown text that announces a command. *)
Definition marksSideEffects (progress : Progress) : Prop :=
  match progress with
  | textEdit _ _ _ => True
  | contentPart (markdownContent content) => announcesCommand (value content)
  | contentPart _ => False
  end.


(** The line feed, as a code unit. *)
Definition lineFeedUnit : N := 10%N.

(** Every exchange of the list is a response. *)
Definition onlyResponses (exchanges : list ExchangeRef) : Prop :=
  ∀ x, x ∈ exchanges → ∃ a, x = ResponseRef a.

(** [text] gives the session its default title: it is the text of the
    first request among the exchanges, or [Session] when there is none. *)
Definition isTitleSource (w : World) (exchanges : list ExchangeRef) (text : JsString)
  : Prop :=
  (∃ before a r after,
     exchanges = before ++ RequestRef a :: after
     ∧ onlyResponses before
     ∧ requestObjects w !! a = Some r
     ∧ text = messageText (message r))
  ∨ (onlyResponses exchanges ∧ text = js "Session").

(** [line] is the first line of [text]: it holds no line feed, and it is
    the whole text or what stands before a line feed of it. *)
Definition isFirstLine (text line : JsString) : Prop :=
  (lineFeedUnit ∉ line)
  ∧ (text = line ∨ ∃ tail, text = line ++ lineFeedUnit :: tail).


(** A computation that returns [x], rewrites the response at [a] with [f]
    and leaves the rest of the store alone, but for the events of that
    response. *)
Definition editsResponse {A} (c : M A) (a : nat)
    (f : ChatResponseModel → ChatResponseModel) (x : A) : Prop :=
  ∀ w obj,
    responseObjects w !! a = Some obj →
    ∃ w', c w = (Returned x, w')
          ∧ responseObjects w' = <[a := f obj]> (responseObjects w)
          ∧ requestObjects w' = requestObjects w
          ∧ ChatRequestModel_nextId w' = ChatRequestModel_nextId w
          ∧ ChatResponseModel_nextId w' = ChatResponseModel_nextId w
          ∧ logService_error w' = logService_error w.

(** What reading back makes of an exported response: the content, the agent
    and command, the canceled flag, the vote, the result, the followups, the
    hidden flag, the used context, the references and the citations are
    those of the response; it is complete, without side effects, not added
    complete, stale when it has content, and has the id [id]. *)
Definition readBack (id : string) (r : ChatResponseModel) : ChatResponseModel :=
  mkResponse id (_response r) (_agent r) (_slashCommand r) true (_isCanceled r)
    (_vote r) (_voteDownReason r) (_result r) (_followups r) false
    (_shouldBeRemovedOnSend r) (negb (length (_response r) =? 0)%nat) false
    (_usedContext r) (_contentReferences r) (_codeCitations r) false.

(** The record that the callback of [toExport] writes for the response [r]. *)
Definition exportedResponse (r : ChatResponseModel) : ISerializableExchange :=
  RawResponse
    (mkRawResponse
       (Some (map ChatModelClass.exportPart (_response r)))
       (option_map (fun agent => (true, agent)) (_agent r))
       (_slashCommand r)
       None
       (_result r)
       (_followups r)
       (Some (_isCanceled r))
       (_vote r)
       (_voteDownReason r)
       (option_map (mkRawUsedContext true) (_usedContext r))
       (Some (_contentReferences r))
       (Some (_codeCitations r))
       (Some (_shouldBeRemovedOnSend r))).

(** What reading back makes of the exported responses [rs], in their order,
    when the id counter stands at [n]. *)
Fixpoint readBackFrom (n : nat) (rs : list ChatResponseModel) : list ChatResponseModel :=
  match rs with
  | [] => []
  | r :: rest => readBack ("response_" +:+ showNat n) r :: readBackFrom (S n) rest
  end.

(** The exchanges are responses, and [rs] are the objects they stand for. *)
Definition responsesAt (w : World) (exchanges : list ExchangeRef)
    (rs : list ChatResponseModel) : Prop :=
  Forall2 (fun e r => ∃ a, e = ResponseRef a ∧ responseObjects w !! a = Some r)
    exchanges rs.

(** *** Vocabulary of the further properties of the dispatcher *)

Module Routing.
Import AideAgentSessionProvider.

(** An event that the loop passes over: a sentinel, or an event of a pair
    for which no stream is registered in [p]. *)
Definition unrouted (p : t) (event : SideCarAgentEvent) : Prop :=
  match event with
  | UIEventWithID sid eid _ => getResponseStream (mkIdentifier sid eid) p = None
  | _ => True
  end.

(** An event of the pair [i], or a sentinel. *)
Definition ofPair (i : ResponseStreamIdentifier) (event : SideCarAgentEvent) : Prop :=
  match event with
  | UIEventWithID sid eid _ => mkIdentifier sid eid = i
  | _ => True
  end.

(** The key under which [handleEvent] remembers a request. *)
Definition uniqueId (event : AideAgentRequest) : string :=
  requestSessionId event +:+ "-" +:+ requestExchangeId event.

(** The calls of [handleEvent] for [events], one after the other: the fields
    afterwards and the events that went to [processEvent], in that order. *)
Fixpoint handleEvents (events : list AideAgentRequest) (q : Intake)
  : Intake * list AideAgentRequest :=
  match events with
  | [] => (q, [])
  | event :: rest =>
      let '(q1, processed1) := handleEvent event q in
      let '(q2, processed2) := handleEvents rest q1 in
      (q2, from_option (fun e => [e]) [] processed1 ++ processed2)
  end.
End Routing.

(** *** Where a loop ends *)

Module LoopEnd.
Import AideAgentSessionProvider.

(** The events at which the loop of [reportAgentEventsToChat] returns. *)
Definition endsLoop (e : UIEvent) : Prop :=
  match e with
  | FrameworkEv (ToolUseDetected (Some AttemptCompletion)) => True
  | FrameworkEv (ToolTypeError _) => True
  | ExchangeEv (PlansExchangeState s) => s = "MarkedComplete"
  | ExchangeEv (EditsExchangeState s) => s = "MarkedComplete"
  | _ => False
  end.

(** The edit sub-steps that name a file or a symbol and have no
    [ThinkingForEdit] field. *)
Definition lacksThinking (e : UIEvent) : Prop :=
  match e with
  | SymbolEventSubStep fs_file_path symbol_name (Edit None) =>
      fs_file_path ≠ "" ∨ symbol_name ≠ ""
  | _ => False
  end.
End LoopEnd.

(** *** Vocabulary of the initialization *)

Module Init.
Import ChatModelClass.

(** A call of one of the initialization methods. *)
Inductive InitCall :=
| StartInitialize
| Deinitialize
| Initialize (welcomeMessage : option string)
| SetInitializationError (error : string).

(** The session after a call; a call that throws leaves it as it was. *)
Definition afterCall (c : InitCall) (s : InitFields * ChatModel) : InitFields * ChatModel :=
  match c with
  | StartInitialize =>
      match startInitialize (fst s) with inr f => (f, snd s) | inl _ => s end
  | Deinitialize => (deinitialize (fst s), snd s)
  | Initialize welcomeMessage =>
      match initialize welcomeMessage (fst s) (snd s) with inr s' => s' | inl _ => s end
  | SetInitializationError error =>
      match setInitializationError error (fst s) with inr f => (f, snd s) | inl _ => s end
  end.

(** The session after the calls, one after the other. *)
Definition afterCalls (calls : list InitCall) (s : InitFields * ChatModel)
  : InitFields * ChatModel :=
  fold_left (fun s c => afterCall c s) calls s.

(** How often a list of fired events holds the ['initialize'] event. *)
Definition initializeEvents (fired : list (IChatChangeEvent * list ExchangeRef)) : nat :=
  length (List.filter (fun e => match fst e with initializeEvent => true | _ => false end)
            fired).

(** How often [startInitialize] is called in a list of calls. *)
Definition starts (calls : list InitCall) : nat :=
  length (List.filter (fun c => match c with StartInitialize => true | _ => false end)
            calls).

(** What holds of the state and the future after any calls. *)
Definition initInvariant (f : InitFields) : Prop :=
  match _initState f with
  | Created => _isInitializedDeferred f = Pending
  | Initializing => _isInitializedDeferred f ≠ Resolved
  | Initialized => _isInitializedDeferred f ≠ Pending
  end.

(** One more [initialize] is possible in the state [Initializing] only. *)
Definition initializing (f : InitFields) : nat :=
  match _initState f with Initializing => 1 | _ => 0 end.
End Init.

(** *** Vocabulary of the view model *)

Module View.
Import ChatViewModelClass.

(** A call that changes the items of a view model. *)
Inductive ViewCall :=
| AddRequest (request : nat)
| AddResponse (response : nat)
| RemoveItem (index : option nat).

Definition afterViewCall (c : ViewCall) (items : list Item) : list Item :=
  match c with
  | AddRequest a => addItem (RequestVM a) items
  | AddResponse a => onAddResponse a items
  | RemoveItem index => removeItem index items
  end.

(** The items after the calls, one after the other. *)
Definition afterViewCalls (calls : list ViewCall) (items : list Item) : list Item :=
  fold_left (fun items c => afterViewCall c items) calls items.

(** The item is not a response that is marked last. *)
Definition notMarkedLast (item : Item) : Prop :=
  match item with
  | ResponseVM r => isLast r = false
  | RequestVM _ => True
  end.

(** The item without the mark of the last item. *)
Definition unmark (item : Item) : Item :=
  match item with
  | ResponseVM r => ResponseVM (mkResponseVM (responseModel r) (isFirst r) false)
  | RequestVM _ => item
  end.

(** The exchange is a request. *)
Definition isRequest (e : option ExchangeRef) : bool :=
  match e with Some (RequestRef _) => true | _ => false end.

(** The item that a view model built from [exchanges] has for the exchange
    at [i]. *)
Definition builtItem (exchanges : list ExchangeRef) (i : nat) (e : ExchangeRef) : Item :=
  match e with
  | RequestRef a => RequestVM a
  | ResponseRef a =>
      ResponseVM (mkResponseVM a
                    (match i with 0 => false | S j => isRequest (exchanges !! j) end)
                    (bool_decide (S i = length exchanges)))
  end.

(** The item stands for an exchange whose id is not among [ids]. *)
Definition standsOutside (w : World) (ids : list string) (item : Item) : Prop :=
  ∃ id, exchangeId w (model item) = Some id ∧ id ∉ ids.

#[global] Instance standsOutside_dec w ids item : Decision (standsOutside w ids item).
Proof.
  unfold standsOutside. destruct (exchangeId w (model item)) as [id|].
  - destruct (decide (id ∈ ids)) as [Hin|Hout].
    + right. intros (id' & [= <-] & Hno). by apply Hno.
    + left. by exists id.
  - right. by intros (id' & Hno & _).
Defined.
End View.

(** [removeExchange] for each of the ids, one after the other, as a caller
    does that removes an exchange and all that come after it. *)
Fixpoint removeEach (ids : list string) (m : ChatModel) : M ChatModel :=
  match ids with
  | [] => ret m
  | id :: rest =>
      m <- ChatModelClass.removeExchange m id Removal ;;
      removeEach rest m
  end.

(** The ids of the exchanges, in the store [w]. *)
Definition idsIn (w : World) (exchanges : list ExchangeRef) (ids : list string) : Prop :=
  Forall2 (fun e id => exchangeId w e = Some id) exchanges ids.

(** * Properties *)

(** ** The accumulator *)

Lemma canMergeMarkdownStrings_spec (a b : IMarkdownString) :
  canMergeMarkdownStrings a b = true ↔ sameAttributes a b.
Proof.
  unfold canMergeMarkdownStrings, sameAttributes, equals, strictEq.
  destruct a as [va ta ia ha ua], b as [vb tb ib hb ub]; simpl.
  destruct ua as [[s1 a1 p1 q1 f1]|], ub as [[s2 a2 p2 q2 f2]|]; simpl.
  - destruct (negb _) eqn:E.
    + apply negb_true_iff in E. split; [discriminate|].
      intros (_ & _ & _ & Hu). injection Hu as -> -> -> -> ->.
      rewrite !String.eqb_refl in E. discriminate.
    + apply negb_false_iff in E.
      rewrite !andb_true_iff, !String.eqb_eq in E.
      destruct E as ((((-> & ->) & ->) & ->) & ->).
      rewrite !andb_true_iff, !bool_decide_eq_true. tauto.
  - split; [discriminate|]. intros (_ & _ & _ & Hu). discriminate.
  - split; [discriminate|]. intros (_ & _ & _ & Hu). discriminate.
  - rewrite !andb_true_iff, !bool_decide_eq_true. tauto.
Qed.

Lemma sameAttributes_append (l f : IMarkdownString) :
  sameAttributes l f → sameAttributes (appendMarkdownString l f) f.
Proof. unfold sameAttributes. simpl. tauto. Qed.

Lemma sameAttributes_trans (a b c : IMarkdownString) :
  sameAttributes a b → sameAttributes b c → sameAttributes a c.
Proof. unfold sameAttributes. intuition congruence. Qed.

Lemma sameAttributes_sym (a b : IMarkdownString) :
  sameAttributes a b → sameAttributes b a.
Proof. unfold sameAttributes. intuition congruence. Qed.

(** A markdown fragment that cannot join the last part becomes a part. *)
Lemma updateContent_markdown_push (parts : Response.t) (f : IMarkdownString) (q : bool) :
  (∀ l, last parts = Some (markdownContent l) → ¬ sameAttributes l f) →
  Response.updateContent parts (markdownFragment f) q
  = (parts ++ [markdownContent f], negb q).
Proof.
  intros Hno. unfold Response.updateContent, markdownFragment, Response._updateRepr.
  destruct (last parts) as [[l| | | | | | | | | | | | | ]|] eqn:Hlast; try reflexivity.
  destruct (canMergeMarkdownStrings l f) eqn:Hm; [|reflexivity].
  apply canMergeMarkdownStrings_spec in Hm. exfalso. exact (Hno l eq_refl Hm).
Qed.

(** A markdown fragment that can join the last part is appended to it. *)
Lemma updateContent_markdown_merge (parts : Response.t) (l f : IMarkdownString) (q : bool) :
  last parts = Some (markdownContent l) → sameAttributes l f →
  Response.updateContent parts (markdownFragment f) q
  = (removelast parts ++ [markdownContent (appendMarkdownString l f)], negb q).
Proof.
  intros Hlast Hsame. unfold Response.updateContent, markdownFragment, Response._updateRepr.
  rewrite Hlast. apply canMergeMarkdownStrings_spec in Hsame. rewrite Hsame. reflexivity.
Qed.

(** After a markdown fragment the last part is markdown with the
    attributes of the fragment. *)
Lemma updateContent_markdown_last (parts : Response.t) (f : IMarkdownString) (q : bool) :
  ∃ m, last (fst (Response.updateContent parts (markdownFragment f) q))
       = Some (markdownContent m)
       ∧ sameAttributes m f.
Proof.
  destruct (last parts) as [p|] eqn:Hlast.
  - assert (Hcases : (∃ l, p = markdownContent l ∧ sameAttributes l f)
                     ∨ ¬ (∃ l, p = markdownContent l ∧ sameAttributes l f)).
    { destruct p as [l| | | | | | | | | | | | | ];
        try (right; intros (l' & Hl' & _); discriminate).
      destruct (canMergeMarkdownStrings l f) eqn:Hm.
      - left. exists l. split; [reflexivity|]. by apply canMergeMarkdownStrings_spec.
      - right. intros (l' & Hl' & Hs). injection Hl' as <-.
        apply canMergeMarkdownStrings_spec in Hs. congruence. }
    destruct Hcases as [(l & -> & Hs)|Hn].
    + rewrite (updateContent_markdown_merge _ l) by assumption. simpl.
      exists (appendMarkdownString l f). rewrite last_snoc. split; [reflexivity|].
      by apply sameAttributes_append.
    + rewrite updateContent_markdown_push.
      * simpl. exists f. rewrite last_snoc. unfold sameAttributes. tauto.
      * intros l Hl Hs. apply Hn. exists l. split; congruence.
  - rewrite updateContent_markdown_push by (intros; congruence).
    simpl. exists f. rewrite last_snoc. unfold sameAttributes. tauto.
Qed.

(** C4. Two consecutive markdown fragments with the same trust, html, theme
    icon and base URI attributes end in one markdown part: the second
    fragment adds no part and its text is appended to the part that holds the
    first; when the first fragment opened a part, that part holds exactly the
    concatenation of the two texts, in arrival order (so from an empty
    response the result is that single part). A fragment whose attributes
    differ from those of the last part, or that follows a part that is not
    markdown, or no part, is pushed as a new part. *)
Theorem updateContent_merges_consecutive_markdown :
  ∀ (parts : Response.t) (f1 f2 : IMarkdownString) (q1 q2 : bool),
    let after1 := fst (Response.updateContent parts (markdownFragment f1) q1) in
    let after2 := fst (Response.updateContent after1 (markdownFragment f2) q2) in
    let both := mkMarkdown (value f1 +:+ value f2) (isTrusted f1)
                  (supportThemeIcons f1) (supportHtml f1) (baseUri f1) in
    (sameAttributes f1 f2 →
       (∃ m, last after1 = Some (markdownContent m)
             ∧ after2 = removelast after1 ++ [markdownContent (appendMarkdownString m f2)])
       ∧ length after2 = length after1
       ∧ (after1 = parts ++ [markdownContent f1] →
          after2 = parts ++ [markdownContent both])
       ∧ Response.updateAll [] [markdownFragment f1; markdownFragment f2]
         = [markdownContent both])
    ∧ (¬ sameAttributes f1 f2 → after2 = after1 ++ [markdownContent f2])
    ∧ ((∀ l, last parts = Some (markdownContent l) → ¬ sameAttributes l f1) →
       after1 = parts ++ [markdownContent f1]).
Proof.
  intros parts f1 f2 q1 q2 after1 after2 both.
  destruct (updateContent_markdown_last parts f1 q1) as (m & Hlast & Hm).
  fold after1 in Hlast.
  split; [|split].
  - intros Hsame.
    assert (Hm2 : sameAttributes m f2) by (eapply sameAttributes_trans; eassumption).
    assert (Hafter2 : after2 = removelast after1
                               ++ [markdownContent (appendMarkdownString m f2)]).
    { unfold after2. by rewrite (updateContent_markdown_merge _ m). }
    split; [|split; [|split]].
    + exists m. split; assumption.
    + rewrite Hafter2. destruct after1 as [|x xs] using rev_ind; [discriminate|].
      rewrite removelast_last. by rewrite !length_app.
    + intros Hfresh. rewrite Hafter2. rewrite Hfresh in Hlast |- *.
      rewrite last_snoc in Hlast. injection Hlast as <-.
      by rewrite removelast_last.
    + unfold Response.updateAll. simpl.
      apply canMergeMarkdownStrings_spec in Hsame. rewrite Hsame. reflexivity.
  - intros Hdiff. unfold after2. rewrite updateContent_markdown_push; [reflexivity|].
    intros l Hl Hs. rewrite Hlast in Hl. injection Hl as <-.
    apply Hdiff. eapply sameAttributes_trans; [|exact Hs].
    by apply sameAttributes_sym.
  - intros Hno. unfold after1. by rewrite updateContent_markdown_push.
Qed.

Lemma updateContent_merges_consecutive_markdown_witness :
  sameAttributes (MarkdownString "Let me look") (MarkdownString " at this.")
  ∧ Response.updateAll []
      [markdownFragment (MarkdownString "Let me look");
       markdownFragment (MarkdownString " at this.")]
    = [markdownContent (MarkdownString "Let me look at this.")].
Proof.
  assert (Hsame : sameAttributes (MarkdownString "Let me look") (MarkdownString " at this."))
    by (unfold sameAttributes; simpl; tauto).
  split; [exact Hsame|].
  destruct (updateContent_merges_consecutive_markdown []
              (MarkdownString "Let me look") (MarkdownString " at this.") false false)
    as [Hmerge _].
  destruct (Hmerge Hsame) as (_ & _ & _ & Hall). exact Hall.
Defined.

(** *** Edit groups *)

Lemma isEqual_refl (u : URI) : isEqual u u = true.
Proof. unfold isEqual. by apply bool_decide_eq_true. Qed.

Lemma isEqual_ne (u v : URI) : u ≠ v → isEqual u v = false.
Proof. unfold isEqual. by apply bool_decide_eq_false. Qed.

(** The search passes over parts that are not groups of the file. *)
Lemma mergeTextEdit_skip (pre rest : Response.t) (u : URI) (batch : list TextEdit)
    (d : option bool) :
  noGroupFor u pre →
  Response.mergeTextEdit (pre ++ rest) u batch d
  = option_map (app pre) (Response.mergeTextEdit rest u batch d).
Proof.
  induction 1 as [|p pre Hp Hpre IH]; simpl.
  - by destruct (Response.mergeTextEdit rest u batch d).
  - destruct p; try (rewrite IH; by destruct (Response.mergeTextEdit rest u batch d)).
    rewrite isEqual_ne by assumption.
    rewrite IH; by destruct (Response.mergeTextEdit rest u batch d).
Qed.

Lemma updateContent_textEdit_nonempty (parts : Response.t) (u : URI)
    (batch : list TextEdit) (d : option bool) (q : bool) :
  batch ≠ [] →
  fst (Response.updateContent parts (textEdit u batch d) q)
  = match Response.mergeTextEdit parts u batch d with
    | Some parts' => parts'
    | None => parts ++ [textEditGroup u [batch] None d]
    end.
Proof.
  intros Hne. unfold Response.updateContent.
  destruct batch as [|e batch]; [done|]. simpl.
  by destruct (Response.mergeTextEdit parts u (e :: batch) d).
Qed.

Lemma batchesFor_same (u : URI) (batch : list TextEdit) (d : option bool) :
  batchesFor u [mkFragment u batch d] = [batch].
Proof.
  unfold batchesFor. rewrite filter_cons, decide_True by reflexivity.
  reflexivity.
Qed.

Lemma batchesFor_other (u v : URI) (batch : list TextEdit) (d : option bool) :
  v ≠ u → batchesFor u [mkFragment v batch d] = [].
Proof.
  intros Hne. unfold batchesFor. rewrite filter_cons, decide_False by assumption.
  reflexivity.
Qed.

Section TwoFiles.
Variables A B : URI.
Hypothesis HAB : A ≠ B.

(** One fragment for [A] or [B] keeps the bucket shape and appends its batch
    to the bucket of its file. *)
Lemma Buckets_step (pre gs : Response.t) (a b : list (list TextEdit))
    (f : TextEditFragment) (q : bool) :
  noGroupFor A pre → noGroupFor B pre →
  Buckets A B a b gs →
  fragmentEdits f ≠ [] →
  fragmentUri f = A ∨ fragmentUri f = B →
  ∃ gs', fst (Response.updateContent (pre ++ gs) (asProgress f) q) = pre ++ gs'
         ∧ Buckets A B (a ++ batchesFor A [f]) (b ++ batchesFor B [f]) gs'.
Proof.
  intros HpA HpB Hb Hne Huri.
  destruct f as [u batch d].
  unfold asProgress. cbn [fragmentUri fragmentEdits fragmentDone] in *.
  rewrite updateContent_textEdit_nonempty by assumption.
  assert (HBA : B ≠ A) by congruence.
  destruct Huri as [-> | ->].
  - rewrite (mergeTextEdit_skip pre gs A) by assumption.
    rewrite batchesFor_same, batchesFor_other by assumption.
    rewrite app_nil_r.
    destruct Hb; simpl;
      rewrite ?isEqual_refl, ?(isEqual_ne B A) by assumption; simpl;
      rewrite ?isEqual_refl; simpl; rewrite <- ?app_assoc; simpl;
      eexists; (split; [reflexivity|]);
      constructor; try assumption; try (by destruct a); try discriminate.
  - rewrite (mergeTextEdit_skip pre gs B) by assumption.
    rewrite batchesFor_same, batchesFor_other by assumption.
    rewrite app_nil_r.
    destruct Hb; simpl;
      rewrite ?isEqual_refl, ?(isEqual_ne A B) by assumption; simpl;
      rewrite ?isEqual_refl; simpl; rewrite <- ?app_assoc; simpl;
      eexists; (split; [reflexivity|]);
      constructor; try assumption; try (by destruct b); try discriminate.
Qed.

Lemma batchesFor_cons (u : URI) (f : TextEditFragment) (fs : list TextEditFragment) :
  batchesFor u (f :: fs) = batchesFor u [f] ++ batchesFor u fs.
Proof.
  unfold batchesFor. rewrite !filter_cons.
  by destruct (decide (fragmentUri f = u)).
Qed.

Lemma Buckets_run (pre : Response.t) (fs : list TextEditFragment) :
  noGroupFor A pre → noGroupFor B pre →
  Forall (fun f => fragmentEdits f ≠ [] ∧ (fragmentUri f = A ∨ fragmentUri f = B)) fs →
  ∀ gs a b,
    Buckets A B a b gs →
    ∃ gs', Response.updateAll (pre ++ gs) (map asProgress fs) = pre ++ gs'
           ∧ Buckets A B (a ++ batchesFor A fs) (b ++ batchesFor B fs) gs'.
Proof.
  intros HpA HpB. induction 1 as [|f fs [Hne Huri] Hfs IH]; intros gs a b Hb.
  - exists gs. unfold batchesFor; simpl. rewrite !app_nil_r. by split.
  - destruct (Buckets_step pre gs a b f false HpA HpB Hb Hne Huri) as (gs1 & Hstep & Hb1).
    destruct (IH gs1 _ _ Hb1) as (gs2 & Hrun & Hb2).
    exists gs2. split.
    + unfold Response.updateAll in *. cbn [map fold_left]. by rewrite Hstep.
    + rewrite (batchesFor_cons A), (batchesFor_cons B), !app_assoc. exact Hb2.
Qed.
End TwoFiles.

Lemma batchesFor_nonempty (u : URI) (fs : list TextEditFragment) :
  (∃ f, f ∈ fs ∧ fragmentUri f = u) → batchesFor u fs ≠ [].
Proof.
  intros (f & Hin & Hu) Hnil. unfold batchesFor in Hnil.
  apply fmap_nil_inv in Hnil.
  assert (Hf : f ∈ filter (fun f => fragmentUri f = u) fs)
    by (apply list_elem_of_filter; by split).
  rewrite Hnil in Hf. by apply not_elem_of_nil in Hf.
Qed.

(** C5. Fragments with non-empty edit batches for two different files [A] and
    [B], in any interleaving with at least one fragment for each, leave
    exactly two edit groups behind the parts that were there (none of them a
    group of [A] or [B]; none at all for a new response): one group per file,
    in the order in which the files were first addressed, each holding exactly
    the batches of its own file in arrival order. *)
Theorem updateContent_buckets_edits_by_uri :
  ∀ (A B : URI) (pre : Response.t) (fs : list TextEditFragment),
    A ≠ B →
    noGroupFor A pre → noGroupFor B pre →
    Forall (fun f => fragmentEdits f ≠ [] ∧ (fragmentUri f = A ∨ fragmentUri f = B)) fs →
    (∃ f, f ∈ fs ∧ fragmentUri f = A) →
    (∃ f, f ∈ fs ∧ fragmentUri f = B) →
    ∃ dA dB,
      let groupA := textEditGroup A (batchesFor A fs) None dA in
      let groupB := textEditGroup B (batchesFor B fs) None dB in
      Response.updateAll pre (map asProgress fs) = pre ++ [groupA; groupB]
      ∨ Response.updateAll pre (map asProgress fs) = pre ++ [groupB; groupA].
Proof.
  intros A B pre fs HAB HpA HpB Hfs HA HB.
  destruct (Buckets_run A B HAB pre fs HpA HpB Hfs [] [] [] (Buckets_none A B))
    as (gs & Hrun & Hb).
  rewrite app_nil_r in Hrun. simpl in Hb.
  apply batchesFor_nonempty in HA, HB.
  inversion Hb as [Ha0 | a dA Ha Ha1 Hb1 | b dB Hb0 Ha1 Hb1
                   | a b dA dB Ha Hb0 | a b dA dB Ha Hb0]; subst; try congruence.
  - exists dA, dB. left. exact Hrun.
  - exists dA, dB. right. exact Hrun.
Qed.

Lemma updateContent_buckets_edits_by_uri_witness :
  let A := mkURI "file" "" "/a.ts" "" "" in
  let B := mkURI "file" "" "/b.ts" "" "" in
  let e n := [mkTextEdit n 1 n 1 "x"] in
  let fs := [mkFragment A (e 1) None; mkFragment B (e 2) None;
             mkFragment A (e 3) (Some true); mkFragment B (e 4) (Some true)] in
  ∃ dA dB,
    Response.updateAll [] (map asProgress fs)
    = [textEditGroup A [e 1; e 3] None dA; textEditGroup B [e 2; e 4] None dB].
Proof.
  intros A B e fs.
  assert (HAB : A ≠ B) by discriminate.
  destruct (updateContent_buckets_edits_by_uri A B [] fs HAB) as (dA & dB & [H|H]).
  - constructor.
  - constructor.
  - repeat constructor; discriminate.
  - exists (mkFragment A (e 1) None). split; [apply list_elem_of_here | reflexivity].
  - exists (mkFragment B (e 2) None).
    split; [apply list_elem_of_further, list_elem_of_here | reflexivity].
  - exists dA, dB. exact H.
  - exfalso. vm_compute in H. discriminate H.
Defined.

(** ** The session model *)

Lemma lookup_snoc_new {X} (l : list X) (x : X) : (l ++ [x]) !! length l = Some x.
Proof. by rewrite list_lookup_middle. Qed.

Lemma lookup_snoc_old {X} (l : list X) (x y : X) (i : nat) :
  l !! i = Some y → (l ++ [x]) !! i = Some y.
Proof. intros H. by apply lookup_app_l_Some. Qed.

(** C7. [addRequest] appends one request and then one empty, incomplete
    response at the end of the exchange list, fires the single change event
    ['addRequest'] with the new request (the listeners see the grown list),
    sets the last-exchange-complete context to false and returns the new
    request; the two objects are new, every object that existed is the same
    as before, and no response fires a change event. *)
Theorem addRequest_appends_request_and_response :
  ∀ (m : ChatModel) (w : World) (now : nat) (msg : IParsedChatRequest)
    (variableData : IChatRequestVariableData) (attempt : nat)
    (chatAgent slashCommand confirm locationData : option string)
    (attachments : option (list IChatRequestVariableEntry))
    (isCompleteAddedRequest : option bool),
  ∃ (request response : nat) (m' : ChatModel) (w' : World)
    (req : ChatRequestModel) (resp : ChatResponseModel),
    ChatModelClass.addRequest m now msg variableData attempt chatAgent slashCommand
      confirm locationData attachments isCompleteAddedRequest w
    = (Returned (request, m'), w')
    ∧ _exchanges m' = _exchanges m ++ [RequestRef request; ResponseRef response]
    ∧ requestObjects w !! request = None
    ∧ responseObjects w !! response = None
    ∧ requestObjects w' !! request = Some req
    ∧ message req = msg
    ∧ responseObjects w' !! response = Some resp
    ∧ _response resp = []
    ∧ _isComplete resp = false
    ∧ _isCanceled resp = false
    ∧ onDidChange m' = onDidChange m ++ [(addRequestEvent request, _exchanges m')]
    ∧ lastExchangeComplete m' = Some false
    ∧ (∀ a r, requestObjects w !! a = Some r → requestObjects w' !! a = Some r)
    ∧ (∀ a r, responseObjects w !! a = Some r → responseObjects w' !! a = Some r)
    ∧ responseDidChange w' = responseDidChange w.
Proof.
  intros. unfold ChatModelClass.addRequest, bind, ret,
    ChatRequestModelClass.new, ChatResponseModelClass.new. cbn -[showNat].
  exists (length (requestObjects w)), (length (responseObjects w)).
  do 2 eexists.
  exists (mkRequest ("request_" +:+ showNat (ChatRequestModel_nextId w)) msg variableData
            attempt confirm locationData attachments
            (default false isCompleteAddedRequest) false).
  exists (mkResponse ("response_" +:+ showNat (ChatResponseModel_nextId w)) [] chatAgent
            slashCommand false false None None None None
            (default false isCompleteAddedRequest) false false false None [] [] false).
  split; [reflexivity|]. cbn -[showNat].
  repeat split.
  - apply lookup_ge_None_2. lia.
  - apply lookup_ge_None_2. lia.
  - apply lookup_snoc_new.
  - apply lookup_snoc_new.
  - intros a r. apply lookup_snoc_old.
  - intros a r. apply lookup_snoc_old.
Qed.

(** The condition of [complete] is the flag of the error details. *)
Lemma isRedacted_spec (resp : ChatResponseModel) :
  ChatResponseModelClass.isRedacted resp = true
  ↔ ∃ res details, _result resp = Some res
                   ∧ errorDetails res = Some details
                   ∧ responseIsRedacted details = Some true.
Proof.
  unfold ChatResponseModelClass.isRedacted. split.
  - destruct (_result resp) as [res|]; [|discriminate].
    destruct (errorDetails res) as [details|] eqn:Hd; [|discriminate].
    destruct (responseIsRedacted details) as [[|]|] eqn:Hr; try discriminate.
    intros _. by exists res, details.
  - intros (res & details & -> & -> & ->). reflexivity.
Qed.

(** C6. [completeResponse] on a response: the response is complete, the
    last-exchange-complete context is true, and the content parts are the
    empty list when the result carries the redacted flag and are what they
    were when it does not; nothing else of the response changes, no other
    object changes, and the one change event of the response shows its
    listeners the cleared content together with the complete flag. Without a
    response the method throws. *)
Theorem completeResponse_completes_and_clears_redacted :
  ∀ (m : ChatModel) (w : World) (a : nat) (resp : ChatResponseModel),
    responseObjects w !! a = Some resp →
    let redacted := ∃ res details, _result resp = Some res
                                   ∧ errorDetails res = Some details
                                   ∧ responseIsRedacted details = Some true in
    ∃ (m' : ChatModel) (w' : World) (resp' : ChatResponseModel),
      ChatModelClass.completeResponse m (Some a) w = (Returned m', w')
      ∧ lastExchangeComplete m' = Some true
      ∧ _exchanges m' = _exchanges m
      ∧ onDidChange m' = onDidChange m
      ∧ responseObjects w' !! a = Some resp'
      ∧ _isComplete resp' = true
      ∧ (redacted → _response resp' = [])
      ∧ (¬ redacted → _response resp' = _response resp)
      ∧ resp' = with_isComplete true (with_response (_response resp') resp)
      ∧ (∀ a', a' ≠ a → responseObjects w' !! a' = responseObjects w !! a')
      ∧ requestObjects w' = requestObjects w
      ∧ responseDidChange w' = responseDidChange w ++ [(a, resp')]
      ∧ (∀ w0, ChatModelClass.completeResponse m None w0
               = (Thrown (Error "Call setResponse before completeResponse"), w0)).
Proof.
  intros m w a resp Hlive redacted.
  assert (Hlt : a < length (responseObjects w)) by (eapply lookup_lt_Some; eassumption).
  pose proof (isRedacted_spec resp) as Hspec. fold redacted in Hspec.
  unfold ChatModelClass.completeResponse, ChatResponseModelClass.complete,
    bind, ret, get, writeResponse, fireResponse, modify. cbn.
  rewrite Hlive.
  destruct (ChatResponseModelClass.isRedacted resp) eqn:Hred; cbn.
  - rewrite Hlive. cbn.
    repeat (rewrite list_lookup_insert_eq by (rewrite ?length_insert; assumption); cbn).
    do 3 eexists. split; [reflexivity|]. cbn.
    repeat (rewrite list_lookup_insert_eq by (rewrite ?length_insert; assumption); cbn).
    repeat split; try reflexivity.
    + intros Hn. exfalso. apply Hn. by apply Hspec.
    + intros a' Hne. by rewrite !list_lookup_insert_ne by congruence.
  - repeat (rewrite list_lookup_insert_eq by (rewrite ?length_insert; assumption); cbn).
    rewrite ?Hlive. cbn.
    repeat (rewrite list_lookup_insert_eq by (rewrite ?length_insert; assumption); cbn).
    do 3 eexists. split; [reflexivity|]. cbn.
    repeat (rewrite list_lookup_insert_eq by (rewrite ?length_insert; assumption); cbn).
    repeat split; try reflexivity.
    + intros Hr. apply Hspec in Hr. discriminate.
    + intros a' Hne. by rewrite !list_lookup_insert_ne by congruence.
Qed.

(** The run of [removeExchange] for an id that the exchange [e] is the
    first to have. *)
Lemma removeExchange_run (m : ChatModel) (w : World) (id : string)
    (reason : ChatExchangeRemovalReason) (before after : list ExchangeRef)
    (e : ExchangeRef) :
  _exchanges m = before ++ e :: after →
  exchangeId w e = Some id →
  (∀ x, x ∈ before → exchangeId w x ≠ Some id) →
  ∃ (m' : ChatModel) (w' : World),
    ChatModelClass.removeExchange m id reason w = (Returned m', w')
    ∧ onDidChange m'
      = onDidChange m ++ [(removeExchangeEvent id reason, before ++ e :: after)]
    ∧ _exchanges m' = before ++ after
    ∧ requestObjects w' = requestObjects w
    ∧ responseDidChange w' = responseDidChange w
    ∧ match e with
      | RequestRef _ => w' = w
      | ResponseRef a =>
          ∃ resp, responseObjects w !! a = Some resp
                  ∧ responseId resp = id
                  ∧ responseObjects w'
                    = <[a := with_isDisposed true resp]> (responseObjects w)
      end.
Proof.
  intros Hex Hid Hbefore.
  assert (Hfound : ChatModelClass.findIndex w id (_exchanges m) = Some (length before, e)).
  { unfold ChatModelClass.findIndex. apply list_find_Some. rewrite Hex.
    split; [by rewrite list_lookup_middle|]. split; [exact Hid|].
    intros j y Hy Hj. rewrite lookup_app_l in Hy by exact Hj.
    apply Hbefore. by eapply list_elem_of_lookup_2. }
  unfold ChatModelClass.removeExchange, bind, get, ret. rewrite Hfound.
  assert (Hdel : delete (length before) (_exchanges m) = before ++ after).
  { rewrite Hex, delete_take_drop, take_app_length.
    rewrite drop_app_ge by lia. replace (S (length before) - length before) with 1 by lia.
    reflexivity. }
  destruct e as [a|a].
  - eexists _, w. split; [reflexivity|]. cbn [_exchanges with_exchanges fire onDidChange].
    split; [by rewrite Hex|]. split; [exact Hdel|]. by repeat split.
  - cbn [exchangeId] in Hid.
    destruct (responseObjects w !! a) as [resp|] eqn:Hlive; [|discriminate].
    unfold ChatResponseModelClass.dispose, writeResponse, modify. rewrite Hlive.
    eexists _, _. split; [reflexivity|]. cbn [_exchanges with_exchanges fire onDidChange].
    split; [by rewrite Hex|]. split; [exact Hdel|]. split; [reflexivity|].
    split; [reflexivity|]. exists resp. split; [reflexivity|].
    split; [by injection Hid|reflexivity].
Qed.

(** C10. [removeExchange] with an id that no exchange of the session has
    changes nothing: the session (exchange list and fired events) and every
    object are as before. With an id that some exchange has, the exchange
    that goes is the first one with that id: the ['removeExchange'] event is
    fired while the listeners still see that exchange in the list, the
    exchange is then taken out of the list and the exchanges before and
    after it stay in their order; it is disposed when it is a response,
    while a request leaves every object as it was. No response fires a
    change event of its own. *)
Theorem removeExchange_unknown_id_is_noop :
  ∀ (m : ChatModel) (w : World) (id : string) (reason : ChatExchangeRemovalReason),
    ((∀ e, e ∈ _exchanges m → exchangeId w e ≠ Some id) →
     ChatModelClass.removeExchange m id reason w = (Returned m, w))
    ∧ (∀ before e after,
         _exchanges m = before ++ e :: after →
         exchangeId w e = Some id →
         (∀ x, x ∈ before → exchangeId w x ≠ Some id) →
         ∃ (m' : ChatModel) (w' : World),
           ChatModelClass.removeExchange m id reason w = (Returned m', w')
           ∧ onDidChange m'
             = onDidChange m ++ [(removeExchangeEvent id reason, before ++ e :: after)]
           ∧ _exchanges m' = before ++ after
           ∧ requestObjects w' = requestObjects w
           ∧ responseDidChange w' = responseDidChange w
           ∧ match e with
             | RequestRef _ => w' = w
             | ResponseRef a =>
                 ∃ resp, responseObjects w !! a = Some resp
                         ∧ responseId resp = id
                         ∧ responseObjects w'
                           = <[a := with_isDisposed true resp]> (responseObjects w)
             end).
Proof.
  intros m w id reason. split.
  - intros Hnone. unfold ChatModelClass.removeExchange, bind, get, ret.
    replace (ChatModelClass.findIndex w id (_exchanges m)) with
      (@None (nat * ExchangeRef)); [reflexivity|].
    symmetry. apply list_find_None. apply Forall_forall. intros e He.
    by apply Hnone.
  - intros before e after. apply removeExchange_run.
Qed.

(** *** Soft-hiding *)

Lemma hideExchange_run (toHide : gset string) (x : ExchangeRef) (w : World) (id : string) :
  exchangeId w x = Some id →
  ∃ w', ChatModelClass.hideExchange toHide x w = (Returned tt, w')
        ∧ (∀ e, exchangeId w' e = exchangeId w e)
        ∧ shouldBeRemovedOnSend w' x = Some (bool_decide (id ∈ toHide))
        ∧ (∀ e, e ≠ x → shouldBeRemovedOnSend w' e = shouldBeRemovedOnSend w e).
Proof.
  intros Hid. unfold ChatModelClass.hideExchange, bind, get. rewrite Hid.
  destruct x as [a|a]; cbn in Hid.
  - destruct (requestObjects w !! a) as [r|] eqn:Hr; [|discriminate].
    assert (Hlt : a < length (requestObjects w)) by (eapply lookup_lt_Some; eassumption).
    unfold writeRequest, modify. rewrite Hr. eexists. split; [reflexivity|].
    split; [|split].
    + intros [a'|a']; cbn; [|reflexivity].
      destruct (decide (a = a')) as [<-|Hne].
      * rewrite list_lookup_insert_eq by assumption. by rewrite Hr.
      * by rewrite list_lookup_insert_ne by assumption.
    + cbn. by rewrite list_lookup_insert_eq by assumption.
    + intros [a'|a'] Hne; cbn; [|reflexivity].
      rewrite list_lookup_insert_ne; [reflexivity|congruence].
  - destruct (responseObjects w !! a) as [r|] eqn:Hr; [|discriminate].
    assert (Hlt : a < length (responseObjects w)) by (eapply lookup_lt_Some; eassumption).
    unfold ChatResponseModelClass.set_shouldBeRemovedOnSend, bind, writeResponse,
      fireResponse, modify. cbn. rewrite Hr. eexists. split; [reflexivity|].
    split; [|split].
    + intros [a'|a']; cbn; [reflexivity|].
      destruct (decide (a = a')) as [<-|Hne].
      * rewrite list_lookup_insert_eq by assumption. by rewrite Hr.
      * by rewrite list_lookup_insert_ne by assumption.
    + cbn. by rewrite list_lookup_insert_eq by assumption.
    + intros [a'|a'] Hne; cbn; [reflexivity|].
      rewrite list_lookup_insert_ne; [reflexivity|congruence].
Qed.

Lemma forEach_hideExchange (toHide : gset string) (l : list ExchangeRef) :
  ∀ w, (∀ e, e ∈ l → is_Some (exchangeId w e)) →
       ∃ w', forEachM (ChatModelClass.hideExchange toHide) l w = (Returned tt, w')
             ∧ (∀ e, exchangeId w' e = exchangeId w e)
             ∧ (∀ e id, e ∈ l → exchangeId w e = Some id →
                        shouldBeRemovedOnSend w' e = Some (bool_decide (id ∈ toHide)))
             ∧ (∀ e, e ∉ l → shouldBeRemovedOnSend w' e = shouldBeRemovedOnSend w e).
Proof.
  induction l as [|x l IH]; intros w Hlive.
  - exists w. repeat split; try reflexivity.
    intros e i He. destruct (not_elem_of_nil e He).
  - destruct (Hlive x) as [idx Hidx]; [apply list_elem_of_here|].
    destruct (hideExchange_run toHide x w idx Hidx) as (w1 & Hrun1 & Hids1 & Hx1 & Hframe1).
    destruct (IH w1) as (w2 & Hrun2 & Hids2 & Hin2 & Hframe2).
    { intros e He. rewrite Hids1. apply Hlive. by apply list_elem_of_further. }
    exists w2. split; [|split; [|split]].
    + cbn [forEachM]. unfold bind. by rewrite Hrun1.
    + intros e. by rewrite Hids2, Hids1.
    + intros e id He Hid. destruct (decide (e ∈ l)) as [Hl|Hl].
      * apply Hin2; [assumption|]. by rewrite Hids1.
      * apply elem_of_cons in He as [->|He]; [|contradiction].
        rewrite Hframe2 by assumption.
        rewrite Hidx in Hid. injection Hid as <-. exact Hx1.
    + intros e He. apply not_elem_of_cons in He as [Hne Hl].
      rewrite Hframe2 by assumption. by apply Hframe1.
Qed.

(** C9. [disableRequests(ids)] leaves the exchange list as it is, keeps every
    id, sets [shouldBeRemovedOnSend] to true on every exchange whose id is in
    [ids] and to false on every exchange whose id is not, whatever the flag
    was before, and fires exactly one session event, ['setHidden'] with the
    set of [ids]. *)
Theorem disableRequests_sets_and_resets_hidden :
  ∀ (m : ChatModel) (w : World) (ids : list string),
    (∀ e, e ∈ _exchanges m → is_Some (exchangeId w e)) →
    ∃ (m' : ChatModel) (w' : World),
      ChatModelClass.disableRequests m ids w = (Returned m', w')
      ∧ _exchanges m' = _exchanges m
      ∧ (∀ e id, e ∈ _exchanges m → exchangeId w e = Some id →
           exchangeId w' e = Some id
           ∧ (id ∈ ids → shouldBeRemovedOnSend w' e = Some true)
           ∧ (id ∉ ids → shouldBeRemovedOnSend w' e = Some false))
      ∧ onDidChange m'
        = onDidChange m ++ [(setHiddenEvent (list_to_set ids), _exchanges m)].
Proof.
  intros m w ids Hlive.
  destruct (forEach_hideExchange (list_to_set ids) (_exchanges m) w Hlive)
    as (w' & Hrun & Hids & Hin & _).
  exists (fire (setHiddenEvent (list_to_set ids)) m), w'.
  split; [|split; [|split]].
  - unfold ChatModelClass.disableRequests, bind, ret. by rewrite Hrun.
  - reflexivity.
  - intros e id He Hid. split; [by rewrite Hids|].
    rewrite (Hin e id He Hid). split; intros Hmem; f_equal.
    + apply bool_decide_eq_true. by apply elem_of_list_to_set.
    + apply bool_decide_eq_false. by rewrite elem_of_list_to_set.
  - reflexivity.
Qed.

Lemma completeResponse_completes_and_clears_redacted_witness :
  responseObjects redactedWorld !! 0 = Some redactedResponse
  ∧ ∃ m' w' resp',
      ChatModelClass.completeResponse emptyModel (Some 0) redactedWorld = (Returned m', w')
      ∧ lastExchangeComplete m' = Some true
      ∧ responseObjects w' !! 0 = Some resp'
      ∧ _isComplete resp' = true
      ∧ _response resp' = [].
Proof.
  assert (Hlive : responseObjects redactedWorld !! 0 = Some redactedResponse)
    by reflexivity.
  split; [exact Hlive|].
  destruct (completeResponse_completes_and_clears_redacted emptyModel redactedWorld 0
              redactedResponse Hlive)
    as (m' & w' & resp' & Hrun & Hctx & _ & _ & Hobj & Hcomplete & Hclear & _).
  exists m', w', resp'. repeat split; try assumption.
  apply Hclear. eexists _, _. repeat split; reflexivity.
Defined.

Lemma disableRequests_sets_and_resets_hidden_witness :
  ∃ m w m' w',
    scenarioSession emptyWorld = (Returned m, w)
    ∧ ChatModelClass.disableRequests m ["request_0"; "response_1"] w = (Returned m', w')
    ∧ map (shouldBeRemovedOnSend w') (_exchanges m')
      = [Some true; Some false; Some false; Some true].
Proof.
  destruct (scenarioSession emptyWorld) as [[m|e] w] eqn:Hscenario;
    [|vm_compute in Hscenario; discriminate].
  assert (Hm : _exchanges m = [RequestRef 0; ResponseRef 0; RequestRef 1; ResponseRef 1])
    by (vm_compute in Hscenario; by injection Hscenario as <- <-).
  assert (Hids : map (exchangeId w) (_exchanges m)
                 = [Some "request_0"; Some "response_0"; Some "request_1"; Some "response_1"])
    by (vm_compute in Hscenario; by injection Hscenario as <- <-).
  rewrite Hm in Hids. cbn [map] in Hids.
  injection Hids as H0 H1 H2 H3.
  destruct (disableRequests_sets_and_resets_hidden m w ["request_0"; "response_1"])
    as (m' & w' & Hrun & Hsame & Hflags & _).
  { intros e He. rewrite Hm in He.
    repeat (apply elem_of_cons in He as [->|He]; [eauto|]).
    destruct (not_elem_of_nil e He). }
  exists m, w, m', w'. split; [reflexivity|]. split; [exact Hrun|].
  rewrite Hsame, Hm. cbn [map].
  assert (Hin : ∀ e, e ∈ [RequestRef 0; ResponseRef 0; RequestRef 1; ResponseRef 1] →
                     e ∈ _exchanges m) by (by rewrite Hm).
  repeat f_equal.
  - eapply Hflags; [apply Hin; repeat constructor|exact H0|]. repeat constructor.
  - eapply Hflags; [apply Hin; repeat constructor|exact H1|].
    intros Hmem. repeat (apply elem_of_cons in Hmem as [Heq|Hmem]; [discriminate|]).
    destruct (not_elem_of_nil _ Hmem).
  - eapply Hflags; [apply Hin; repeat constructor|exact H2|].
    intros Hmem. repeat (apply elem_of_cons in Hmem as [Heq|Hmem]; [discriminate|]).
    destruct (not_elem_of_nil _ Hmem).
  - eapply Hflags; [apply Hin; repeat constructor|exact H3|]. repeat constructor.
Defined.

Lemma removeExchange_unknown_id_is_noop_witness :
  ∃ m w m' w',
    scenarioSession emptyWorld = (Returned m, w)
    ∧ map (exchangeId w) (_exchanges m)
      = [Some "request_0"; Some "response_0"; Some "request_1"; Some "response_1"]
    ∧ ChatModelClass.removeExchange m "request_7" Removal w = (Returned m, w)
    ∧ ChatModelClass.removeExchange m "response_0" Removal w = (Returned m', w')
    ∧ map (exchangeId w') (_exchanges m')
      = [Some "request_0"; Some "request_1"; Some "response_1"]
    ∧ last (onDidChange m')
      = Some (removeExchangeEvent "response_0" Removal, _exchanges m)
    ∧ (isDisposed <$> responseObjects w !! 0) = Some false
    ∧ (isDisposed <$> responseObjects w' !! 0) = Some true.
Proof.
  destruct (scenarioSession emptyWorld) as [[m|e] w] eqn:Hscenario;
    [|vm_compute in Hscenario; discriminate].
  assert (Hm : _exchanges m = [RequestRef 0] ++ ResponseRef 0 :: [RequestRef 1; ResponseRef 1])
    by (vm_compute in Hscenario; by injection Hscenario as <- <-).
  assert (Hids : map (exchangeId w) (_exchanges m)
                 = [Some "request_0"; Some "response_0"; Some "request_1"; Some "response_1"])
    by (vm_compute in Hscenario; by injection Hscenario as <- <-).
  assert (Hlive : (isDisposed <$> responseObjects w !! 0) = Some false)
    by (vm_compute in Hscenario; by injection Hscenario as <- <-).
  destruct (removeExchange_unknown_id_is_noop m w "request_7" Removal) as [Hnoop _].
  destruct (removeExchange_unknown_id_is_noop m w "response_0" Removal) as [_ Hfound].
  pose proof Hids as Hids'. rewrite Hm in Hids'. cbn [map app] in Hids'.
  injection Hids' as Hid0 Hid1 Hid2 Hid3.
  change (exchangeId w (RequestRef 0) = Some "request_0") in Hid0.
  change (exchangeId w (ResponseRef 0) = Some "response_0") in Hid1.
  change (exchangeId w (RequestRef 1) = Some "request_1") in Hid2.
  change (exchangeId w (ResponseRef 1) = Some "response_1") in Hid3.
  destruct (Hfound [RequestRef 0] (ResponseRef 0) [RequestRef 1; ResponseRef 1] Hm Hid1)
    as (m' & w' & Hrun & Hev & Hex & Hreq & _ & resp & Hresp & _ & Hobj).
  { intros x Hx. apply list_elem_of_singleton in Hx as ->. rewrite Hid0. discriminate. }
  exists m, w, m', w'. split; [reflexivity|]. split; [exact Hids|]. split.
  { apply Hnoop. intros x Hx Hid.
    assert (Hmem : Some "request_7" ∈ map (exchangeId w) (_exchanges m)).
    { rewrite <- Hid. apply list_elem_of_fmap. by exists x. }
    rewrite Hids in Hmem.
    repeat (apply elem_of_cons in Hmem as [Heq|Hmem]; [discriminate|]).
    destruct (not_elem_of_nil _ Hmem). }
  split; [exact Hrun|]. split; [|split; [|split; [exact Hlive|]]].
  - rewrite Hex.
    change ([exchangeId w' (RequestRef 0); exchangeId w' (RequestRef 1);
             exchangeId w' (ResponseRef 1)]
            = [Some "request_0"; Some "request_1"; Some "response_1"]).
    assert (Hsame : ∀ x, exchangeId w' x = exchangeId w x).
    { intros [b|b]; cbn [exchangeId]; [by rewrite Hreq|]. rewrite Hobj.
      destruct (decide (b = 0)) as [->|Hne].
      - rewrite list_lookup_insert_eq by (eapply lookup_lt_Some; eassumption).
        by rewrite Hresp.
      - by rewrite list_lookup_insert_ne by congruence. }
    by rewrite !Hsame, Hid0, Hid2, Hid3.
  - rewrite Hev, last_snoc. by rewrite Hm.
  - rewrite Hobj, list_lookup_insert_eq by (eapply lookup_lt_Some; eassumption).
    reflexivity.
Defined.

(** ** Persistence *)

(** A traversal throws when the callback throws on one of the elements. *)
Lemma mapM_throws {X Y} (f : X → M Y) (l : list X) :
  (∃ x, x ∈ l ∧ ∀ w, ∃ e w', f x w = (Thrown e, w')) →
  ∀ w, ∃ e w', mapM f l w = (Thrown e, w').
Proof.
  induction l as [|a l IH]; intros (x & Hin & Hthrows) w.
  - destruct (not_elem_of_nil x Hin).
  - cbn [mapM]. unfold bind at 1.
    destruct (f a w) as [[b|e] w1] eqn:Hfa; [|by eauto].
    apply elem_of_cons in Hin as [->|Hin].
    + destruct (Hthrows w) as (e & w' & Hx). congruence.
    + destruct (IH (ex_intro _ x (conj Hin Hthrows)) w1) as (e & w' & Hrest).
      unfold bind. rewrite Hrest. eauto.
Qed.

Lemma deserializeExchange_request_throws (d : ISerializableChatRequestData) (w : World) :
  ∃ w', ChatModelClass.deserializeExchange (RawRequest d) w = (Thrown (Error "Unknown exchange"), w').
Proof.
  unfold ChatModelClass.deserializeExchange, bind, ChatRequestModelClass.new,
    writeRequest, modify, throw. cbn. eauto.
Qed.

Lemma deserializeExchange_unrecognized_throws (raw : ISerializableExchange) (w : World) :
  unrecognized raw →
  ∃ e w', ChatModelClass.deserializeExchange raw w = (Thrown e, w').
Proof.
  destruct raw as [d|d|type]; cbn [unrecognized]; intros Hu.
  - destruct Hu.
  - destruct Hu as (Hr & Hres & Hold). unfold ChatModelClass.deserializeExchange.
    rewrite Hr, Hres. cbn.
    destruct (rawResponseErrorDetails d) as [[details|]|] eqn:Hd;
      [by destruct (Hold details)| |]; unfold throw; eauto.
  - unfold ChatModelClass.deserializeExchange, throw. eauto.
Qed.

(** Whatever else the persisted list holds, one request in it empties the
    session that is read back. *)
Lemma deserialize_request_is_lost (obj : ISerializableChatData)
    (exchanges : list ISerializableExchange) (w : World) :
  dataExchanges obj = Some exchanges →
  (∃ d, RawRequest d ∈ exchanges) →
  ∃ w', ChatModelClass._deserialize obj w = (Returned [], w').
Proof.
  intros Hex (d & Hin). unfold ChatModelClass._deserialize. rewrite Hex.
  destruct (mapM_throws ChatModelClass.deserializeExchange exchanges) with (w := w)
    as (e & w1 & Hthrow).
  { exists (RawRequest d). split; [assumption|]. intros w0.
    destruct (deserializeExchange_request_throws d w0) as (w' & H). eauto. }
  unfold try_catch. rewrite Hthrow. unfold bind, logError, modify, ret. eauto.
Qed.

(** C1 (the code does not do this). The session of the scenario has four
    exchanges: a request, its completed response with one merged markdown
    part and one edit group, a second request and its canceled response.
    [toJSON] exports the four of them. The session constructed over that
    export has no exchange at all: reading back the first request ends in the
    throw after the conditional, which [_deserialize] catches and logs. *)
Theorem toJSON_then_deserialize_loses_the_session :
  ∃ (m : ChatModel) (w : World) (data : ISerializableChatData)
    (persisted : list ISerializableExchange) (m2 : ChatModel) (w2 : World),
    scenarioSession emptyWorld = (Returned m, w)
    ∧ length (_exchanges m) = 4
    ∧ ChatModelClass.toJSON m w = (Returned data, w)
    ∧ dataExchanges data = Some persisted
    ∧ length persisted = 4
    ∧ ChatModelClass.new scenarioEnv (Some data) (Some "panel") w = (Returned m2, w2)
    ∧ _exchanges m2 = []
    ∧ logService_error w2
      = [(Message "Failed to parse chat data", Some (Error "Unknown exchange"))].
Proof.
  destruct (scenarioSession emptyWorld) as [[m|e] w] eqn:Hscenario;
    [|vm_compute in Hscenario; discriminate].
  vm_compute in Hscenario. injection Hscenario as <- <-.
  do 6 eexists.
  split; [reflexivity|]. split; [reflexivity|].
  split; [vm_compute; reflexivity|].
  split; [reflexivity|]. split; [reflexivity|].
  split; [vm_compute; reflexivity|].
  split; reflexivity.
Qed.

(** *** Only [_deserialize] itself writes to the log *)

Lemma keepsLog_ret {X} (x : X) : keepsLog (ret x).
Proof. by intros w. Qed.

Lemma keepsLog_throw {X} (e : JsError) : keepsLog (@throw X e).
Proof. by intros w. Qed.

Lemma keepsLog_bind {X Y} (c : M X) (k : X → M Y) :
  keepsLog c → (∀ x, keepsLog (k x)) → keepsLog (bind c k).
Proof.
  intros Hc Hk w. unfold bind. specialize (Hc w).
  destruct (c w) as [[x|e] w1]; cbn in *; [|assumption].
  by rewrite Hk.
Qed.

Lemma keepsLog_get {X} (f : World → X) : keepsLog (get f).
Proof. by intros w. Qed.

Lemma keepsLog_writeRequest a f : keepsLog (writeRequest a f).
Proof. by intros w. Qed.

Lemma keepsLog_writeResponse a f : keepsLog (writeResponse a f).
Proof. by intros w. Qed.

Lemma keepsLog_fireResponse a : keepsLog (fireResponse a).
Proof. by intros w. Qed.

Lemma keepsLog_forEachM {X} (f : X → M unit) (l : list X) :
  (∀ x, keepsLog (f x)) → keepsLog (forEachM f l).
Proof.
  intros Hf. induction l as [|x l IH]; cbn [forEachM].
  - apply keepsLog_ret.
  - apply keepsLog_bind; [apply Hf | intros _; exact IH].
Qed.

Lemma keepsLog_mapM {X Y} (f : X → M Y) (l : list X) :
  (∀ x, keepsLog (f x)) → keepsLog (mapM f l).
Proof.
  intros Hf. induction l as [|x l IH]; cbn [mapM].
  - apply keepsLog_ret.
  - apply keepsLog_bind; [apply Hf | intros y].
    apply keepsLog_bind; [exact IH | intros ys; apply keepsLog_ret].
Qed.

Create HintDb keepsLog.
#[local] Hint Resolve keepsLog_ret keepsLog_throw keepsLog_get keepsLog_writeRequest
  keepsLog_writeResponse keepsLog_fireResponse : keepsLog.

Ltac keepsLog_steps :=
  repeat first
    [ apply keepsLog_bind; [|intros ?]
    | apply keepsLog_forEachM; intros ?
    | solve [auto with keepsLog]
    | match goal with |- keepsLog (match ?o with _ => _ end) => destruct o end
    | match goal with |- keepsLog (if ?b then _ else _) => destruct b end ].

Lemma keepsLog_deserializeExchange (raw : ISerializableExchange) :
  keepsLog (ChatModelClass.deserializeExchange raw).
Proof.
  destruct raw as [d|d|type]; unfold ChatModelClass.deserializeExchange.
  - apply keepsLog_bind; [by intros w|intros request]. keepsLog_steps.
  - destruct (_ || _); [|apply keepsLog_throw].
    apply keepsLog_bind; [by intros w|intros response].
    unfold ChatResponseModelClass.applyUsedContext,
      ChatResponseModelClass.set_shouldBeRemovedOnSend,
      ChatResponseModelClass.applyContentReference,
      ChatResponseModelClass.applyCodeCitation.
    keepsLog_steps.
  - apply keepsLog_throw.
Qed.

(** C2 (as the code has it). When the persisted exchange list holds a record
    of unrecognized shape, [_deserialize] writes one error line, [Failed to
    parse chat data] with the error thrown, and returns the empty list: no
    exchange of the list is kept, the well-formed ones neither. On every
    input [_deserialize] returns; it never throws. *)
Theorem deserialize_unrecognized_empties_the_session :
  (∀ (obj : ISerializableChatData) (exchanges : list ISerializableExchange) (w : World),
     dataExchanges obj = Some exchanges →
     (∃ raw, raw ∈ exchanges ∧ unrecognized raw) →
     ∃ (w' : World) (error : JsError),
       ChatModelClass._deserialize obj w = (Returned [], w')
       ∧ logService_error w'
         = logService_error w ++ [(Message "Failed to parse chat data", Some error)])
  ∧ (∀ (obj : ISerializableChatData) (w : World),
       ∃ (kept : list ExchangeRef) (w' : World),
         ChatModelClass._deserialize obj w = (Returned kept, w')).
Proof.
  split.
  - intros obj exchanges w Hex (raw & Hin & Hu).
    unfold ChatModelClass._deserialize. rewrite Hex.
    destruct (mapM_throws ChatModelClass.deserializeExchange exchanges) with (w := w)
      as (e & w1 & Hthrow).
    { exists raw. split; [assumption|]. intros w0.
      by apply deserializeExchange_unrecognized_throws. }
    pose proof (keepsLog_mapM ChatModelClass.deserializeExchange exchanges
                  keepsLog_deserializeExchange w) as Hlog.
    unfold try_catch. rewrite Hthrow in Hlog |- *. cbn in Hlog.
    unfold bind, logError, modify, ret. cbn.
    eexists _, e. split; [reflexivity|]. cbn. by rewrite Hlog.
  - intros obj w. unfold ChatModelClass._deserialize.
    destruct (dataExchanges obj) as [exchanges|].
    + unfold try_catch.
      destruct (mapM ChatModelClass.deserializeExchange exchanges w) as [[kept|e] w1].
      * eauto.
      * unfold bind, logError, modify, ret. cbn. eauto.
    + unfold bind, logError, modify, ret. cbn. eauto.
Qed.

Lemma deserialize_unrecognized_empties_the_session_witness :
  ∃ w',
    ChatModelClass._deserialize persistedWithStranger emptyWorld = (Returned [], w')
    ∧ logService_error w'
      = [(Message "Failed to parse chat data", Some (Error "Unknown exchange"))].
Proof.
  destruct deserialize_unrecognized_empties_the_session as [Hempties _].
  destruct (Hempties persistedWithStranger
              [persistedResponse "first"; RawOther "note"; persistedResponse "second"]
              emptyWorld eq_refl) as (w' & error & Hrun & Hlog).
  { exists (RawOther "note"). split; [|exact I].
    apply list_elem_of_further, list_elem_of_here. }
  exists w'. split; [exact Hrun|].
  vm_compute in Hrun. injection Hrun as <-. reflexivity.
Defined.

(** C2, as the specification has it, fails: of three persisted exchanges, a
    well-formed response, a record with an unknown type and another
    well-formed response, the two well-formed ones are not returned. *)
Lemma deserialize_does_not_keep_the_others :
  (∀ raw, raw ∈ [persistedResponse "first"; persistedResponse "second"] →
          ¬ unrecognized raw)
  ∧ unrecognized (RawOther "note")
  ∧ ¬ ∃ (kept : list ExchangeRef) (w' : World),
        ChatModelClass._deserialize persistedWithStranger emptyWorld = (Returned kept, w')
        ∧ length kept = 2.
Proof.
  split; [|split].
  - intros raw Hin.
    repeat (apply elem_of_cons in Hin as [->|Hin];
            [intros [Hnone _]; discriminate Hnone|]).
    destruct (not_elem_of_nil _ Hin).
  - exact I.
  - intros (kept & w' & Hrun & Hlen). vm_compute in Hrun.
    injection Hrun as <- _. discriminate Hlen.
Qed.

(** ** The dispatcher *)

Section JsMapFacts.
Context {V : Type}.
Implicit Types (m : JsMap.t V) (k : string) (v : V).

Lemma JsMap_get_delete_same k m : JsMap.get k (JsMap.delete k m) = None.
Proof.
  unfold JsMap.delete. induction m as [|[k' v'] m IH]; [reflexivity|].
  rewrite filter_cons. cbn [fst].
  destruct (decide (k' ≠ k)) as [Hne|Heq]; [|exact IH].
  cbn [JsMap.get]. by rewrite decide_False.
Qed.

Lemma JsMap_get_delete_other k k' m :
  k ≠ k' → JsMap.get k (JsMap.delete k' m) = JsMap.get k m.
Proof.
  intros Hne. unfold JsMap.delete. induction m as [|[k0 v0] m IH]; [reflexivity|].
  rewrite filter_cons. cbn [fst JsMap.get].
  destruct (decide (k0 ≠ k')) as [Hkeep|Hdrop].
  - cbn [JsMap.get]. by rewrite IH.
  - apply dec_stable in Hdrop. subst k0. by rewrite decide_False by congruence.
Qed.

Lemma JsMap_get_delete_None k k' m :
  JsMap.get k m = None → JsMap.get k (JsMap.delete k' m) = None.
Proof.
  intros Hnone. destruct (decide (k = k')) as [->|Hne].
  - apply JsMap_get_delete_same.
  - by rewrite JsMap_get_delete_other.
Qed.

Lemma JsMap_get_values k v m : JsMap.get k m = Some v → v ∈ JsMap.values m.
Proof.
  unfold JsMap.values. induction m as [|[k' v'] m IH]; [discriminate|].
  cbn [JsMap.get map snd]. destruct (decide (k' = k)).
  - intros [= ->]. apply list_elem_of_here.
  - intros H. apply list_elem_of_further. by apply IH.
Qed.
End JsMapFacts.

Lemma append_inj_r (pre a b : string) : pre +:+ a = pre +:+ b → a = b.
Proof.
  induction pre as [|c pre IH]; cbn; [done|].
  intros [= H]. by apply IH.
Qed.

Section Dispatcher.
Import AideAgentSessionProvider Terminal Routing.

Lemma closeAndRemove_collection sid eid p :
  responseStreamCollection (fst (closeAndRemoveResponseStream sid eid p))
  = JsMap.delete (getKey (mkIdentifier sid eid)) (responseStreamCollection p).
Proof. reflexivity. Qed.

Lemma closeAndRemove_started sid eid p :
  startedStreams (fst (closeAndRemoveResponseStream sid eid p)) = startedStreams p.
Proof. reflexivity. Qed.

Lemma closeAndRemove_out sid eid p :
  snd (closeAndRemoveResponseStream sid eid p)
  = callOn (mkIdentifier sid eid) (getResponseStream (mkIdentifier sid eid) p) Close.
Proof. reflexivity. Qed.

(** Going through a list of streams removes each key it names, keeps what
    was absent absent, leaves the other keys alone, and closes every stream
    that was registered under a key it names. *)
Lemma closeEach_spec sid (l : list AideAgentEventSenderResponse) :
  ∀ p p' out,
    closeEach sid l p = (p', out) →
    startedStreams p' = startedStreams p
    ∧ (∀ k, JsMap.get k (responseStreamCollection p) = None →
            JsMap.get k (responseStreamCollection p') = None)
    ∧ (∀ s, s ∈ l →
            getResponseStream (mkIdentifier sid (senderExchangeId s)) p' = None)
    ∧ (∀ eid s, getResponseStream (mkIdentifier sid eid) p = Some s →
                (∃ s', s' ∈ l ∧ senderExchangeId s' = eid) →
                mkEmitted (mkIdentifier sid eid) (stream s) Close ∈ out)
    ∧ Forall (fun e => call e = Close) out.
Proof.
  induction l as [|x l IH]; intros p p' out Hrun; cbn [closeEach] in Hrun.
  - injection Hrun as <- <-. repeat split; try done.
    + intros s Hs. destruct (not_elem_of_nil _ Hs).
    + intros eid s _ (s' & Hs' & _). destruct (not_elem_of_nil _ Hs').
  - destruct (closeAndRemoveResponseStream sid (senderExchangeId x) p)
      as [p1 out1] eqn:Hstep.
    destruct (closeEach sid l p1) as [p2 out2] eqn:Hrest.
    injection Hrun as <- <-.
    destruct (IH p1 p2 out2 Hrest) as (Hstarted & Hnone & Hgone & Hclosed & Hcalls).
    assert (Hcoll : responseStreamCollection p1
                    = JsMap.delete (getKey (mkIdentifier sid (senderExchangeId x)))
                        (responseStreamCollection p))
      by (rewrite <- closeAndRemove_collection; by rewrite Hstep).
    assert (Hout : out1 = callOn (mkIdentifier sid (senderExchangeId x))
                            (getResponseStream (mkIdentifier sid (senderExchangeId x)) p)
                            Close)
      by (rewrite <- closeAndRemove_out; by rewrite Hstep).
    split; [|split; [|split; [|split]]].
    + rewrite Hstarted. rewrite <- (closeAndRemove_started sid (senderExchangeId x) p).
      by rewrite Hstep.
    + intros k Hk. apply Hnone. rewrite Hcoll. by apply JsMap_get_delete_None.
    + intros s Hs. apply elem_of_cons in Hs as [->|Hs]; [|by apply Hgone].
      apply Hnone. rewrite Hcoll. apply JsMap_get_delete_same.
    + intros eid s Hopen (s' & Hs' & Heid).
      destruct (decide (senderExchangeId x = eid)) as [Hx|Hx].
      * apply elem_of_app. left. rewrite Hout, Hx, Hopen. apply list_elem_of_here.
      * apply elem_of_app. right. apply Hclosed.
        -- unfold getResponseStream. rewrite Hcoll.
           rewrite JsMap_get_delete_other; [exact Hopen|].
           unfold getKey; cbn. intros Heq. apply Hx.
           by apply append_inj_r in Heq; apply append_inj_r in Heq.
        -- apply elem_of_cons in Hs' as [->|Hs']; [contradiction|]. eauto.
    + apply Forall_app. split; [|assumption].
      rewrite Hout. destruct (getResponseStream _ p); repeat constructor.
Qed.

Lemma list_elem_of_further_closed sid s p' out first :
  closedAndRemoved sid s p' out → closedAndRemoved sid s p' (first :: out).
Proof. intros [Hgone Hclose]. split; [assumption|]. by apply list_elem_of_further. Qed.

Lemma onUIEvent_fansOut i rs e p p' out flow :
  onUIEvent i rs e p = (p', out, flow) →
  fansOut e →
  ∀ s, openIn (sessionId i) s p → closedAndRemoved (sessionId i) s p' out.
Proof.
  intros Hui Hf s Hs. unfold openIn in Hs. unfold closedAndRemoved.
  destruct e as [fe| | | | | | | |]; try destruct Hf.
  destruct fe as [| | |[[| |]|]| |]; try destruct Hf.
  - cbn [onUIEvent onFrameworkEvent] in Hui.
    destruct (closeEach (sessionId i) (getAllResponseStreams p) p) as [p2 closed] eqn:Hclose.
    injection Hui as <- <- <-.
    destruct (closeEach_spec _ _ _ _ _ Hclose) as (_ & _ & Hgone & Hclosed & _).
    assert (Hin : s ∈ getAllResponseStreams p) by (eapply JsMap_get_values; exact Hs).
    split; [by apply Hgone|].
    apply list_elem_of_further. apply Hclosed; [exact Hs|]. by exists s.
  - cbn [onUIEvent onFrameworkEvent] in Hui.
    destruct (closeEach (sessionId i) (getAllResponseStreams p) p) as [p2 closed] eqn:Hclose.
    injection Hui as <- <- <-.
    destruct (closeEach_spec _ _ _ _ _ Hclose) as (_ & _ & Hgone & Hclosed & _).
    assert (Hin : s ∈ getAllResponseStreams p) by (eapply JsMap_get_values; exact Hs).
    split; [by apply Hgone|].
    do 2 apply list_elem_of_further. apply Hclosed; [exact Hs|]. by exists s.
Qed.

(** What the end of one exchange does: the stream of the pair is closed
    and removed, and that is all that is closed or removed. *)
Lemma closeAndRemove_one i rs p p' closed :
  getResponseStream i p = Some rs →
  closeAndRemoveResponseStream (sessionId i) (exchangeId i) p = (p', closed) →
  getResponseStream i p' = None
  ∧ closed = [mkEmitted i (stream rs) Close]
  ∧ startedStreams p' = startedStreams p
  ∧ (∀ j, getKey j ≠ getKey i → getResponseStream j p' = getResponseStream j p).
Proof.
  intros Hopen Hrun. destruct i as [sid eid]. cbn [sessionId exchangeId] in Hrun.
  unfold closeAndRemoveResponseStream in Hrun. rewrite Hopen in Hrun.
  injection Hrun as <- <-. repeat split.
  - apply JsMap_get_delete_same.
  - intros j Hj. unfold getResponseStream, removeResponseStream. cbn.
    by apply JsMap_get_delete_other.
Qed.

Lemma onUIEvent_endsExchange i rs e p p' out flow :
  getResponseStream i p = Some rs →
  onUIEvent i rs e p = (p', out, flow) →
  endsExchange e →
  getResponseStream i p' = None
  ∧ out = [mkEmitted i (stream rs) (Stage "Complete"); mkEmitted i (stream rs) Close]
  ∧ (∀ j, getKey j ≠ getKey i → getResponseStream j p' = getResponseStream j p).
Proof.
  intros Hopen Hui He. destruct i as [sid eid].
  destruct e as [| | | | | | |ee|]; try destruct He.
  destruct (closeAndRemoveResponseStream sid eid p) as [p2 closed] eqn:Hclose.
  destruct (closeAndRemove_one (mkIdentifier sid eid) rs p p2 closed Hopen Hclose)
    as (Hgone & -> & _ & Hothers).
  destruct ee as [st|st|st| |]; cbn [endsExchange] in He;
    [subst st|subst st|destruct He| |destruct He];
    cbn [onUIEvent onExchangeEvent sessionId exchangeId] in Hui;
    rewrite Hclose, Hopen in Hui; cbn in Hui;
    injection Hui as <- <- <-; by repeat split.
Qed.

(** C3 (as the code has it). An event routed to an open stream of the
    session: a completion tool use ([AttemptCompletion]) or a tool-type
    error closes and removes every open stream of that session; the end of
    an exchange ([FinishedExchange], or [MarkedComplete] of the plans or
    edits state) closes and removes the stream of its own (session,
    exchange) pair and no other: every other registered stream stays
    registered and receives no [close]. *)
Theorem terminal_event_closes_streams :
  ∀ (editMode : bool) (p : t) (sid eid : string) (e : UIEvent)
    (rs : AideAgentEventSenderResponse) (p' : t) (out : list Emitted) (flow : Flow),
    getResponseStream (mkIdentifier sid eid) p = Some rs →
    onEvent editMode (UIEventWithID sid eid e) p = (p', out, flow) →
    (fansOut e → ∀ s, openIn sid s p → closedAndRemoved sid s p' out)
    ∧ (endsExchange e →
       getResponseStream (mkIdentifier sid eid) p' = None
       ∧ mkEmitted (mkIdentifier sid eid) (stream rs) Close ∈ out
       ∧ (∀ j, getKey j ≠ getKey (mkIdentifier sid eid) →
               getResponseStream j p' = getResponseStream j p)
       ∧ (∀ em, em ∈ out → call em = Close →
                em = mkEmitted (mkIdentifier sid eid) (stream rs) Close)).
Proof.
  intros editMode p sid eid e rs p' out flow Hopen Hrun.
  unfold onEvent in Hrun. rewrite Hopen in Hrun.
  set (p1 := mkProvider (responseStreamCollection p) (lastThinkingText p)
               ({[sid +:+ "-" +:+ eid]} ∪ startedStreams p)) in Hrun.
  assert (Hopen1 : getResponseStream (mkIdentifier sid eid) p1 = Some rs) by exact Hopen.
  destruct (bool_decide (sid +:+ "-" +:+ eid ∈ startedStreams p)).
  - destruct (onUIEvent (mkIdentifier sid eid) rs e p) as [[p2 out2] flow2] eqn:Hui.
    injection Hrun as <- <- <-. cbn [app]. split.
    + intros Hf s Hs.
      exact (onUIEvent_fansOut (mkIdentifier sid eid) rs e p p2 out2 flow2 Hui Hf s Hs).
    + intros He.
      destruct (onUIEvent_endsExchange _ rs e p p2 out2 flow2 Hopen Hui He)
        as (Hgone & -> & Hothers).
      repeat split; [assumption| |assumption|].
      * apply list_elem_of_further, list_elem_of_here.
      * intros em Hem Hcall.
        repeat (apply elem_of_cons in Hem as [->|Hem]; [try discriminate Hcall; done|]).
        destruct (not_elem_of_nil _ Hem).
  - destruct (onUIEvent (mkIdentifier sid eid) rs e p1) as [[p2 out2] flow2] eqn:Hui.
    injection Hrun as <- <- <-. cbn [app]. split.
    + intros Hf s Hs. apply list_elem_of_further_closed.
      exact (onUIEvent_fansOut (mkIdentifier sid eid) rs e p1 p2 out2 flow2 Hui Hf s Hs).
    + intros He.
      destruct (onUIEvent_endsExchange _ rs e p1 p2 out2 flow2 Hopen1 Hui He)
        as (Hgone & -> & Hothers).
      repeat split; [assumption| |exact Hothers|].
      * do 2 apply list_elem_of_further. apply list_elem_of_here.
      * intros em Hem Hcall.
        repeat (apply elem_of_cons in Hem as [->|Hem]; [try discriminate Hcall; done|]).
        destruct (not_elem_of_nil _ Hem).
Qed.

Lemma terminal_event_closes_streams_witness :
  let completion := FrameworkEv (ToolUseDetected (Some AttemptCompletion)) in
  let result := onEvent true (UIEventWithID "s" "e1" completion) threeStreams in
  openIn "s" (mkSender "e2" 2) threeStreams
  ∧ openIn "s" (mkSender "e3" 3) threeStreams
  ∧ closedAndRemoved "s" (mkSender "e2" 2) (fst (fst result)) (snd (fst result))
  ∧ closedAndRemoved "s" (mkSender "e3" 3) (fst (fst result)) (snd (fst result)).
Proof.
  intros completion result.
  destruct result as [[p' out] flow] eqn:Hresult.
  assert (Hopen1 : getResponseStream (mkIdentifier "s" "e1") threeStreams
                   = Some (mkSender "e1" 1)) by reflexivity.
  assert (Hopen2 : openIn "s" (mkSender "e2" 2) threeStreams) by reflexivity.
  assert (Hopen3 : openIn "s" (mkSender "e3" 3) threeStreams) by reflexivity.
  destruct (terminal_event_closes_streams true threeStreams "s" "e1" completion
              (mkSender "e1" 1) p' out flow Hopen1 Hresult) as [Hfan _].
  repeat split; try assumption; apply (Hfan I); assumption.
Defined.

(** C3, as the specification has it, fails for [FinishedExchange]: with
    three streams open in one session, the event on the first exchange
    leaves the streams of the second and third open. *)
Lemma finished_exchange_leaves_other_streams_open :
  let finished := ExchangeEv FinishedExchange in
  let result := onEvent true (UIEventWithID "s" "e1" finished) threeStreams in
  isTerminal finished
  ∧ openIn "s" (mkSender "e2" 2) threeStreams
  ∧ getResponseStream (mkIdentifier "s" "e2") (fst (fst result)) = Some (mkSender "e2" 2)
  ∧ ¬ (∀ s, openIn "s" s threeStreams →
            closedAndRemoved "s" s (fst (fst result)) (snd (fst result))).
Proof.
  intros finished result.
  split; [by right|]. split; [reflexivity|]. split; [reflexivity|].
  intros Hall. destruct (Hall (mkSender "e2" 2) eq_refl) as [Hgone _].
  vm_compute in Hgone. discriminate Hgone.
Qed.

(** *** The first-event stage *)












Lemma onEvent_unrouted editMode event p :
  unrouted p event → onEvent editMode event p = (p, [], Continue).
Proof.
  destruct event as [| | |sid eid e]; try reflexivity.
  cbn [unrouted onEvent]. by intros ->.
Qed.

Lemma loop_unrouted editMode events p :
  Forall (unrouted p) events →
  reportAgentEventsToChat editMode events p = (p, [], Continue).
Proof.
  induction 1 as [|event events Hevent Hrest IH]; [reflexivity|].
  cbn [reportAgentEventsToChat]. by rewrite (onEvent_unrouted _ _ _ Hevent), IH.
Qed.






End Dispatcher.

(** * Further properties of the code *)

(** ** The accumulator *)

Lemma bool_eq_of_iff (a b : bool) : (a = true ↔ b = true) → a = b.
Proof. destruct a, b; intros [H1 H2]; try reflexivity; [by rewrite H1|by rewrite H2]. Qed.

Lemma string_app_cons (x : Ascii.ascii) (a b : string) :
  String x a +:+ b = String x (a +:+ b).
Proof. reflexivity. Qed.

Lemma string_app_assoc (a b c : string) : (a +:+ b) +:+ c = a +:+ (b +:+ c).
Proof.
  induction a as [|x a IH]; [reflexivity|]. by rewrite !string_app_cons, IH.
Qed.

Lemma string_app_nil_r (a : string) : a +:+ "" = a.
Proof.
  induction a as [|x a IH]; [reflexivity|]. by rewrite string_app_cons, IH.
Qed.

Lemma sameAttributes_refl (a : IMarkdownString) : sameAttributes a a.
Proof. unfold sameAttributes. tauto. Qed.

(** X1. [canMergeMarkdownStrings] is an equivalence on markdown strings that
    does not look at their text, and [appendMarkdownString] stays in the
    class of its first argument. *)
Theorem canMergeMarkdownStrings_is_equivalence :
  (∀ a, canMergeMarkdownStrings a a = true)
  ∧ (∀ a b, canMergeMarkdownStrings a b = canMergeMarkdownStrings b a)
  ∧ (∀ a b c, canMergeMarkdownStrings a b = true →
              canMergeMarkdownStrings b c = true →
              canMergeMarkdownStrings a c = true)
  ∧ (∀ a b c, canMergeMarkdownStrings (appendMarkdownString a b) c
              = canMergeMarkdownStrings a c)
  ∧ (∀ a b v, canMergeMarkdownStrings a b
              = canMergeMarkdownStrings
                  (mkMarkdown v (isTrusted a) (supportThemeIcons a) (supportHtml a)
                     (baseUri a)) b).
Proof.
  split; [|split; [|split; [|split]]].
  - intros a. apply canMergeMarkdownStrings_spec, sameAttributes_refl.
  - intros a b. apply bool_eq_of_iff. rewrite !canMergeMarkdownStrings_spec.
    split; apply sameAttributes_sym.
  - intros a b c. rewrite !canMergeMarkdownStrings_spec. apply sameAttributes_trans.
  - intros a b c. apply bool_eq_of_iff. rewrite !canMergeMarkdownStrings_spec.
    unfold sameAttributes. cbn. tauto.
  - intros a b v. apply bool_eq_of_iff. rewrite !canMergeMarkdownStrings_spec.
    unfold sameAttributes. cbn. tauto.
Qed.

Lemma canMergeMarkdownStrings_is_equivalence_witness :
  canMergeMarkdownStrings (MarkdownString "a") (MarkdownString "b") = true
  ∧ canMergeMarkdownStrings (MarkdownString "b") (MarkdownString "c") = true
  ∧ canMergeMarkdownStrings (MarkdownString "a") (MarkdownString "c") = true.
Proof.
  destruct canMergeMarkdownStrings_is_equivalence as (_ & _ & Htrans & _).
  assert (Hab : canMergeMarkdownStrings (MarkdownString "a") (MarkdownString "b") = true)
    by reflexivity.
  assert (Hbc : canMergeMarkdownStrings (MarkdownString "b") (MarkdownString "c") = true)
    by reflexivity.
  split; [exact Hab|]. split; [exact Hbc|]. exact (Htrans _ _ _ Hab Hbc).
Defined.

Lemma updateAll_markdown_run_from (pre : Response.t) (fs : list IMarkdownString) :
  ∀ m, Forall (sameAttributes m) fs →
       Response.updateAll (pre ++ [markdownContent m]) (map markdownFragment fs)
       = pre ++ [markdownContent
                   (mkMarkdown (value m +:+ joinValues fs) (isTrusted m)
                      (supportThemeIcons m) (supportHtml m) (baseUri m))].
Proof.
  induction fs as [|f fs IH]; intros m Hall.
  - cbn. rewrite string_app_nil_r. by destruct m.
  - apply Forall_cons in Hall as [Hf Hfs].
    unfold Response.updateAll in *. cbn [map fold_left].
    rewrite (updateContent_markdown_merge _ m) by (by rewrite ?last_snoc).
    cbn [fst]. rewrite removelast_last.
    rewrite IH.
    + cbn. by rewrite string_app_assoc.
    + eapply Forall_impl; [exact Hfs|]. intros g Hg.
      unfold sameAttributes in *. cbn. exact Hg.
Qed.

(** X2. A run of markdown fragments that all carry the attributes of the
    first ends in one part: sent to an empty response, the fragments leave
    exactly one markdown part, with the attributes of the first fragment and
    the texts of all of them in arrival order; sent behind a markdown part
    with these attributes, they all join that part. *)
Theorem updateAll_merges_a_markdown_run :
  ∀ (f : IMarkdownString) (fs : list IMarkdownString),
    Forall (sameAttributes f) fs →
    Response.updateAll [] (map markdownFragment (f :: fs))
    = [markdownContent
         (mkMarkdown (joinValues (f :: fs)) (isTrusted f) (supportThemeIcons f)
            (supportHtml f) (baseUri f))]
    ∧ ∀ pre, Response.updateAll (pre ++ [markdownContent f]) (map markdownFragment fs)
             = pre ++ [markdownContent
                         (mkMarkdown (joinValues (f :: fs)) (isTrusted f)
                            (supportThemeIcons f) (supportHtml f) (baseUri f))].
Proof.
  intros f fs Hall. split.
  - change (Response.updateAll [] (map markdownFragment (f :: fs)))
      with (Response.updateAll ([] ++ [markdownContent f]) (map markdownFragment fs)).
    by rewrite updateAll_markdown_run_from.
  - intros pre. by rewrite updateAll_markdown_run_from.
Qed.

Lemma updateAll_merges_a_markdown_run_witness :
  Response.updateAll []
    (map markdownFragment [MarkdownString "a"; MarkdownString "b"; MarkdownString "c"])
  = [markdownContent (MarkdownString "abc")].
Proof.
  destruct (updateAll_merges_a_markdown_run (MarkdownString "a")
              [MarkdownString "b"; MarkdownString "c"]) as [Hrun _].
  - repeat constructor.
  - exact Hrun.
Defined.

Lemma last_removelast {X} (l : list X) (x : X) :
  last l = Some x → l = removelast l ++ [x].
Proof. intros H. apply last_Some in H as [l' ->]. by rewrite removelast_last. Qed.

Lemma mergeTextEdit_kinds (parts : Response.t) u batch d parts' :
  Response.mergeTextEdit parts u batch d = Some parts' → map kind parts' = map kind parts.
Proof.
  revert parts'. induction parts as [|p parts IH]; intros parts'; [discriminate|].
  cbn [Response.mergeTextEdit].
  destruct (Response.mergeTextEdit parts u batch d) as [rest'|] eqn:Hrest;
    destruct p; cbn; try (intros [= <-]; cbn; by rewrite (IH rest'));
    try discriminate.
  - destruct (isEqual uri u); intros [= <-]; cbn; [reflexivity|by rewrite (IH rest')].
  - destruct (isEqual uri u); [|discriminate]. by intros [= <-].
Qed.

(** X3. [updateContent] never removes, reorders or changes the kind of a
    part that is there: the kinds of the parts after the call are the kinds
    before it, with at most one kind more at the end. *)
Theorem updateContent_keeps_the_kinds :
  ∀ (parts : Response.t) (progress : Progress) (quiet : bool),
    let after := fst (Response.updateContent parts progress quiet) in
    map kind after = map kind parts
    ∨ ∃ k, map kind after = map kind parts ++ [k].
Proof.
  intros parts progress quiet after. unfold after. clear after.
  destruct progress as [p|u batch d].
  - destruct p; try (right; eexists; cbn; by rewrite map_app).
    cbn [Response.updateContent].
    destruct (last parts) as [[l| | | | | | | | | | | | | ]|] eqn:Hlast;
      try (right; eexists; cbn; by rewrite map_app).
    destruct (negb (canMergeMarkdownStrings l content));
      [right; eexists; cbn; by rewrite map_app|].
    left. cbn [fst]. rewrite (last_removelast parts _ Hlast) at 2.
    by rewrite !map_app.
  - cbn [Response.updateContent]. destruct (0 <? length batch)%nat; [|by left].
    destruct (Response.mergeTextEdit parts u batch d) as [parts'|] eqn:Hmerge.
    + left. cbn. by eapply mergeTextEdit_kinds.
    + right. eexists. cbn. by rewrite map_app.
Qed.

(** X4. A batch of edits goes to the first edit group of its file and
    leaves everything else as it is: the parts before the group, the state of
    the group, and every part after it, also when a later part is another
    group of the same file. *)
Theorem updateContent_edits_the_first_group :
  ∀ (pre rest : Response.t) (u : URI) (es : list (list TextEdit))
    (st : option IChatTextEditGroupState) (d0 d : option bool)
    (batch : list TextEdit) (quiet : bool),
    noGroupFor u pre →
    batch ≠ [] →
    Response.updateContent (pre ++ textEditGroup u es st d0 :: rest)
      (textEdit u batch d) quiet
    = (pre ++ textEditGroup u (es ++ [batch]) st d :: rest, negb quiet).
Proof.
  intros pre rest u es st d0 d batch quiet Hpre Hne.
  unfold Response.updateContent.
  destruct batch as [|e batch]; [done|]. cbn [length Nat.ltb Nat.leb].
  rewrite mergeTextEdit_skip by assumption.
  cbn [Response.mergeTextEdit]. by rewrite isEqual_refl.
Qed.

Lemma updateContent_edits_the_first_group_witness :
  let g n := textEditGroup fooTs [[mkTextEdit n 1 n 1 "x"]] None None in
  Response.updateContent [markdownContent (MarkdownString "ok"); g 1; g 2]
    (textEdit fooTs [mkTextEdit 3 1 3 1 "y"] (Some true)) false
  = ([markdownContent (MarkdownString "ok");
      textEditGroup fooTs [[mkTextEdit 1 1 1 1 "x"]; [mkTextEdit 3 1 3 1 "y"]] None
        (Some true);
      g 2], true).
Proof.
  intros g.
  apply (updateContent_edits_the_first_group [markdownContent (MarkdownString "ok")]
           [g 2] fooTs [[mkTextEdit 1 1 1 1 "x"]] None None (Some true)
           [mkTextEdit 3 1 3 1 "y"] false).
  - repeat constructor.
  - discriminate.
Defined.

(** ** Responses in the store *)

Lemma updateContent_parts_any_quiet (parts : Response.t) (progress : Progress) (q q' : bool) :
  fst (Response.updateContent parts progress q)
  = fst (Response.updateContent parts progress q').
Proof.
  unfold Response.updateContent.
  destruct progress as [p|u batch d].
  - destruct p; try reflexivity.
    destruct (last parts) as [[l| | | | | | | | | | | | | ]|]; try reflexivity.
    by destruct (negb _).
  - destruct (0 <? length batch)%nat; [|reflexivity].
    by destruct (Response.mergeTextEdit parts u batch d).
Qed.

(** What [updateContent] of a response does to the store. *)
Lemma response_updateContent_run (a : nat) (progress : Progress) (q : bool)
    (w : World) (resp : ChatResponseModel) :
  responseObjects w !! a = Some resp →
  let parts' := fst (Response.updateContent (_response resp) progress q) in
  let changed := snd (Response.updateContent (_response resp) progress q) in
  let shown := with_response parts' resp in
  ChatResponseModelClass.updateContent a progress q w
  = (Returned tt,
     mkWorld (requestObjects w)
       (<[a := with_hasSideEffects
                 (ChatResponseModelClass.sideEffectsAfter progress (_hasSideEffects resp))
                 shown]> (responseObjects w))
       (ChatRequestModel_nextId w) (ChatResponseModel_nextId w)
       (responseDidChange w ++ (if changed then [(a, shown)] else []))
       (logService_error w)).
Proof.
  intros Hlive parts' changed shown.
  assert (Hlt : a < length (responseObjects w)) by (eapply lookup_lt_Some; eassumption).
  unfold ChatResponseModelClass.updateContent, bind, get. rewrite Hlive.
  subst shown parts' changed.
  destruct (Response.updateContent (_response resp) progress q) as [parts' changed].
  cbn [fst snd]. unfold writeResponse, fireResponse, modify, ret. cbn.
  rewrite Hlive. cbn.
  destruct changed; cbn;
    repeat (rewrite list_lookup_insert_eq by (rewrite ?length_insert; assumption); cbn);
    rewrite ?list_insert_insert_eq, ?app_nil_r; reflexivity.
Qed.

Lemma lowerAscii_sameLetter (c l : Ascii.ascii) :
  ¬ (65 <= Ascii.nat_of_ascii l <= 90)%nat →
  ChatResponseModelClass.lowerAscii c = l ↔ sameLetter c l.
Proof.
  intros Hl. unfold ChatResponseModelClass.lowerAscii, sameLetter.
  pose proof (Ascii.nat_ascii_bounded c) as Hc.
  destruct ((65 <=? Ascii.nat_of_ascii c) && (Ascii.nat_of_ascii c <=? 90))%nat eqn:Hupper.
  - apply andb_true_iff in Hupper as [H1 H2].
    apply Nat.leb_le in H1. apply Nat.leb_le in H2. split.
    + intros <-. right. split; [lia|].
      rewrite Ascii.nat_ascii_embedding; lia.
    + intros [->|[_ Heq]]; [lia|]. rewrite Heq. apply Ascii.ascii_nat_embedding.
  - apply andb_false_iff in Hupper. split.
    + intros <-. by left.
    + intros [->|[Hup _]]; [reflexivity|].
      destruct Hupper as [H|H]; apply Nat.leb_gt in H; lia.
Qed.

Lemma prefix_toLowerCase (p s : string) :
  Forall (fun l => ¬ (65 <= Ascii.nat_of_ascii l <= 90)%nat) (list_ascii_of_string p) →
  String.prefix p (ChatResponseModelClass.toLowerCase s) = true
  ↔ ∃ head rest,
      s = head +:+ rest
      ∧ Forall2 sameLetter (list_ascii_of_string head) (list_ascii_of_string p).
Proof.
  revert s. induction p as [|l p IH]; intros s Hp.
  - split; [|intros _; by destruct s]. intros _. exists "", s.
    split; [reflexivity|constructor].
  - cbn [list_ascii_of_string] in Hp. apply Forall_cons in Hp as [Hl Hp].
    destruct s as [|c s]; cbn [ChatResponseModelClass.toLowerCase String.prefix].
    + split; [discriminate|]. intros (head & rest & Heq & Hall).
      destruct head; [inversion Hall|discriminate].
    + destruct (Ascii.ascii_dec l (ChatResponseModelClass.lowerAscii c)) as [Heq|Hne].
      * rewrite (IH s Hp). symmetry in Heq. apply (lowerAscii_sameLetter c l Hl) in Heq.
        split.
        -- intros (head & rest & -> & Hall). exists (String c head), rest.
           split; [reflexivity|]. by constructor.
        -- intros (head & rest & Hs & Hall). destruct head as [|c' head]; [inversion Hall|].
           rewrite string_app_cons in Hs. injection Hs as <- ->.
           cbn [list_ascii_of_string] in Hall. apply Forall2_cons in Hall as [_ Hall].
           by exists head, rest.
      * split; [discriminate|]. intros (head & rest & Hs & Hall).
        destruct head as [|c' head]; [inversion Hall|].
        rewrite string_app_cons in Hs. injection Hs as <- ->.
        cbn [list_ascii_of_string] in Hall. apply Forall2_cons in Hall as [Hsame _].
        apply (lowerAscii_sameLetter c l Hl) in Hsame. congruence.
Qed.

Lemma announcesCommand_spec (s : string) :
  String.prefix "running command" (ChatResponseModelClass.toLowerCase s) = true
  ↔ announcesCommand s.
Proof.
  apply prefix_toLowerCase. cbn [list_ascii_of_string].
  repeat (apply Forall_cons_2; [intros [H1 H2]; vm_compute in H1, H2; lia|]).
  apply Forall_nil_2.
Qed.

Lemma sideEffectsAfter_spec (progress : Progress) (b : bool) :
  ChatResponseModelClass.sideEffectsAfter progress b = true
  ↔ b = true ∨ marksSideEffects progress.
Proof.
  unfold marksSideEffects, ChatResponseModelClass.sideEffectsAfter.
  destruct progress as [p|u batch d]; [|by intuition].
  destruct p; try (by intuition).
  pose proof (announcesCommand_spec (value content)) as Hrule.
  destruct (String.prefix _ _).
  - split; [intros _; right; by apply Hrule|done].
  - split; [by left|]. intros [H|H]; [exact H|]. apply Hrule in H. discriminate.
Qed.

(** X5. A sequence of [updateContent] calls on one response, complete or
    not: its content is what the accumulator makes of the fragments, in
    order, and its side-effect flag is set afterwards exactly when it was set
    before or one of the fragments is a text edit or a markdown text that
    starts, in any letter case, with [running command]; so the flag is never
    taken back. Nothing else of the response changes. *)
Theorem response_updateContent_sequence :
  ∀ (fragments : list Progress) (q : bool) (a : nat) (w : World)
    (resp : ChatResponseModel),
    responseObjects w !! a = Some resp →
    ∃ (w' : World) (flag : bool),
      forEachM (fun f => ChatResponseModelClass.updateContent a f q) fragments w
      = (Returned tt, w')
      ∧ responseObjects w' !! a
        = Some (with_hasSideEffects flag
                  (with_response (Response.updateAll (_response resp) fragments) resp))
      ∧ (flag = true ↔ _hasSideEffects resp = true ∨ Exists marksSideEffects fragments)
      ∧ requestObjects w' = requestObjects w
      ∧ (∀ a', a' ≠ a → responseObjects w' !! a' = responseObjects w !! a').
Proof.
  induction fragments as [|f fragments IH]; intros q a w resp Hlive.
  - exists w, (_hasSideEffects resp). cbn. split; [reflexivity|].
    split; [rewrite Hlive; by destruct resp|]. split; [|by split].
    split; [by left|]. intros [H|H]; [exact H|inversion H].
  - assert (Hlt : a < length (responseObjects w)) by (eapply lookup_lt_Some; eassumption).
    cbn [forEachM]. unfold bind at 1.
    rewrite (response_updateContent_run a f q w resp Hlive).
    set (resp1 := with_hasSideEffects _ _).
    set (w1 := mkWorld _ _ _ _ _ _).
    assert (Hlive1 : responseObjects w1 !! a = Some resp1)
      by (cbn; by rewrite list_lookup_insert_eq).
    destruct (IH q a w1 resp1 Hlive1) as (w' & flag & Hrun & Hobj & Hflag & Hreq & Hothers).
    exists w', flag. split; [exact Hrun|]. split; [|split; [|split]].
    + rewrite Hobj. f_equal. subst resp1. cbn.
      unfold Response.updateAll. cbn [fold_left].
      by rewrite (updateContent_parts_any_quiet _ f q false).
    + rewrite Hflag. subst resp1. cbn [_hasSideEffects with_hasSideEffects].
      rewrite sideEffectsAfter_spec, Exists_cons. tauto.
    + by rewrite Hreq.
    + intros a' Hne. rewrite Hothers by assumption. cbn.
      by rewrite list_lookup_insert_ne.
Qed.

Lemma response_updateContent_sequence_witness :
  (∃ (w' : World) (flag : bool),
     forEachM (fun f => ChatResponseModelClass.updateContent 0 f false)
       [markdownFragment (MarkdownString "Let me look");
        markdownFragment (MarkdownString "RUNNING Command: ls");
        markdownFragment (MarkdownString " done")] redactedWorld
     = (Returned tt, w')
     ∧ (_hasSideEffects <$> responseObjects w' !! 0) = Some flag
     ∧ flag = true)
  ∧ (∃ (w' : World) (flag : bool),
       forEachM (fun f => ChatResponseModelClass.updateContent 0 f false)
         [markdownFragment (MarkdownString "Let me look");
          markdownFragment (MarkdownString "I am running command ls")] redactedWorld
       = (Returned tt, w')
       ∧ (_hasSideEffects <$> responseObjects w' !! 0) = Some flag
       ∧ flag = false).
Proof.
  split.
  - destruct (response_updateContent_sequence
                [markdownFragment (MarkdownString "Let me look");
                 markdownFragment (MarkdownString "RUNNING Command: ls");
                 markdownFragment (MarkdownString " done")] false 0
                redactedWorld redactedResponse eq_refl)
      as (w' & flag & Hrun & Hobj & Hflag & _).
    exists w', flag. split; [exact Hrun|]. split; [by rewrite Hobj|].
    apply Hflag. right. apply Exists_cons_tl, Exists_cons_hd.
    exists "RUNNING Command", ": ls". split; [reflexivity|].
    cbn [list_ascii_of_string].
    repeat (apply Forall2_cons; split; [first [by left | right; vm_compute; lia]|]).
    constructor.
  - destruct (response_updateContent_sequence
                [markdownFragment (MarkdownString "Let me look");
                 markdownFragment (MarkdownString "I am running command ls")] false 0
                redactedWorld redactedResponse eq_refl)
      as (w' & flag & Hrun & Hobj & Hflag & _).
    exists w', flag. split; [exact Hrun|]. split; [by rewrite Hobj|].
    destruct flag; [|reflexivity].
    destruct (proj1 Hflag eq_refl) as [Hset|Hsome]; [discriminate Hset|].
    repeat (apply Exists_cons in Hsome as [Hsome|Hsome];
            [apply announcesCommand_spec in Hsome; discriminate Hsome|]).
    by apply Exists_nil in Hsome.
Defined.

(** X6. A text edit with no edits in it changes no content and fires no
    event, whether quiet or not, but it still marks the response as one
    with side effects. *)
Theorem empty_textEdit_only_marks_side_effects :
  ∀ (a : nat) (w : World) (resp : ChatResponseModel) (u : URI) (d : option bool)
    (q : bool),
    responseObjects w !! a = Some resp →
    ∃ (w' : World),
      ChatResponseModelClass.updateContent a (textEdit u [] d) q w = (Returned tt, w')
      ∧ responseObjects w' !! a = Some (with_hasSideEffects true resp)
      ∧ _response (with_hasSideEffects true resp) = _response resp
      ∧ responseDidChange w' = responseDidChange w
      ∧ requestObjects w' = requestObjects w.
Proof.
  intros a w resp u d q Hlive.
  assert (Hlt : a < length (responseObjects w)) by (eapply lookup_lt_Some; eassumption).
  rewrite (response_updateContent_run a _ q w resp Hlive). cbn.
  eexists. split; [reflexivity|]. cbn.
  rewrite list_lookup_insert_eq by assumption. rewrite app_nil_r.
  repeat split.
Qed.

Lemma empty_textEdit_only_marks_side_effects_witness :
  ∃ w',
    ChatResponseModelClass.updateContent 0 (textEdit fooTs [] None) false redactedWorld
    = (Returned tt, w')
    ∧ responseObjects w' !! 0 = Some (with_hasSideEffects true redactedResponse)
    ∧ responseDidChange w' = [].
Proof.
  destruct (empty_textEdit_only_marks_side_effects 0 redactedWorld redactedResponse
              fooTs None false eq_refl) as (w' & Hrun & Hobj & _ & Hquiet & _).
  exists w'. repeat split; assumption.
Defined.

(** ** The session model, further *)




Lemma addRequest_run (m : ChatModel) (w : World) (now : nat) (msg : IParsedChatRequest)
    (variableData : IChatRequestVariableData) (attempt : nat)
    (chatAgent slashCommand confirm locationData : option string)
    (attachments : option (list IChatRequestVariableEntry))
    (isCompleteAddedRequest : option bool) :
  let req := mkRequest ("request_" +:+ showNat (ChatRequestModel_nextId w)) msg variableData
               attempt confirm locationData attachments
               (default false isCompleteAddedRequest) false in
  let resp := mkResponse ("response_" +:+ showNat (ChatResponseModel_nextId w)) []
                chatAgent slashCommand false false None None None None
                (default false isCompleteAddedRequest) false false false None [] [] false in
  let request := length (requestObjects w) in
  let response := length (responseObjects w) in
  ChatModelClass.addRequest m now msg variableData attempt chatAgent slashCommand
    confirm locationData attachments isCompleteAddedRequest w
  = (Returned
       (request,
        fire (addRequestEvent request)
          (set_lastExchangeComplete false
             (with_lastMessageDate now
                (with_exchanges (_exchanges m ++ [RequestRef request; ResponseRef response])
                   m)))),
     mkWorld (requestObjects w ++ [req]) (responseObjects w ++ [resp])
       (S (ChatRequestModel_nextId w)) (S (ChatResponseModel_nextId w))
       (responseDidChange w) (logService_error w)).
Proof. reflexivity. Qed.



(** X8. [disableExchange] with an id that no exchange has throws, where
    [removeExchange] does nothing: the exchange read at index -1 is
    undefined, and the assignment to it is an error of the engine; nothing
    has changed by then. With an id that some exchange has, the first
    exchange with that id is marked [shouldBeRemovedOnSend], no other
    exchange changes its mark, no exchange changes its id, and the session
    keeps its exchanges and fires no event. *)
Theorem disableExchange_unknown_id_throws :
  ∀ (m : ChatModel) (w : World) (id : string),
    ((∀ e, e ∈ _exchanges m → exchangeId w e ≠ Some id) →
     ChatModelClass.disableExchange m id w = (Thrown TypeError, w))
    ∧ (∀ before e after,
         _exchanges m = before ++ e :: after →
         exchangeId w e = Some id →
         (∀ x, x ∈ before → exchangeId w x ≠ Some id) →
         ∃ (w' : World),
           ChatModelClass.disableExchange m id w = (Returned m, w')
           ∧ shouldBeRemovedOnSend w' e = Some true
           ∧ (∀ x, x ≠ e → shouldBeRemovedOnSend w' x = shouldBeRemovedOnSend w x)
           ∧ (∀ x, exchangeId w' x = exchangeId w x)).
Proof.
  intros m w id. split.
  - intros Hnone. unfold ChatModelClass.disableExchange, bind, get.
    replace (ChatModelClass.findIndex w id (_exchanges m)) with
      (@None (nat * ExchangeRef)); [reflexivity|].
    symmetry. apply list_find_None. apply Forall_forall. intros e He. by apply Hnone.
  - intros before exchange after Hex Hid Hbefore.
    assert (Hfound : ChatModelClass.findIndex w id (_exchanges m)
                     = Some (length before, exchange)).
    { unfold ChatModelClass.findIndex. apply list_find_Some. rewrite Hex.
      split; [by rewrite list_lookup_middle|]. split; [exact Hid|].
      intros j y Hy Hj. rewrite lookup_app_l in Hy by exact Hj.
      apply Hbefore. by eapply list_elem_of_lookup_2. }
    unfold ChatModelClass.disableExchange, bind, get. rewrite Hfound.
    destruct exchange as [a|a]; cbn in Hid.
    + destruct (requestObjects w !! a) as [r|] eqn:Hr; [|discriminate].
      assert (Hlt : a < length (requestObjects w)) by (eapply lookup_lt_Some; eassumption).
      unfold writeRequest, modify, ret. rewrite Hr. eexists. split; [reflexivity|].
      split; [|split].
      * cbn. by rewrite list_lookup_insert_eq by assumption.
      * intros [a'|a'] Hne; cbn; [|reflexivity].
        rewrite list_lookup_insert_ne; [reflexivity|congruence].
      * intros [a'|a']; cbn; [|reflexivity].
        destruct (decide (a = a')) as [<-|Hne].
        -- rewrite list_lookup_insert_eq by assumption. by rewrite Hr.
        -- by rewrite list_lookup_insert_ne by assumption.
    + destruct (responseObjects w !! a) as [r|] eqn:Hr; [|discriminate].
      assert (Hlt : a < length (responseObjects w)) by (eapply lookup_lt_Some; eassumption).
      unfold ChatResponseModelClass.set_shouldBeRemovedOnSend, bind, writeResponse,
        fireResponse, modify, ret. cbn. rewrite Hr. eexists. split; [reflexivity|].
      split; [|split].
      * cbn. by rewrite list_lookup_insert_eq by assumption.
      * intros [a'|a'] Hne; cbn; [reflexivity|].
        rewrite list_lookup_insert_ne; [reflexivity|congruence].
      * intros [a'|a']; cbn; [reflexivity|].
        destruct (decide (a = a')) as [<-|Hne].
        -- rewrite list_lookup_insert_eq by assumption. by rewrite Hr.
        -- by rewrite list_lookup_insert_ne by assumption.
Qed.

Lemma disableExchange_unknown_id_throws_witness :
  ∃ m w w',
    scenarioSession emptyWorld = (Returned m, w)
    ∧ ChatModelClass.disableExchange m "request_7" w = (Thrown TypeError, w)
    ∧ map (shouldBeRemovedOnSend w) (_exchanges m)
      = [Some false; Some false; Some false; Some false]
    ∧ ChatModelClass.disableExchange m "request_1" w = (Returned m, w')
    ∧ map (shouldBeRemovedOnSend w') (_exchanges m)
      = [Some false; Some false; Some true; Some false].
Proof.
  destruct (scenarioSession emptyWorld) as [[m|e] w] eqn:Hscenario;
    [|vm_compute in Hscenario; discriminate].
  assert (Hm : _exchanges m
               = [RequestRef 0; ResponseRef 0] ++ RequestRef 1 :: [ResponseRef 1])
    by (vm_compute in Hscenario; by injection Hscenario as <- <-).
  assert (Hids : map (exchangeId w) (_exchanges m)
                 = [Some "request_0"; Some "response_0"; Some "request_1"; Some "response_1"])
    by (vm_compute in Hscenario; by injection Hscenario as <- <-).
  assert (Hmarks : map (shouldBeRemovedOnSend w) (_exchanges m)
                   = [Some false; Some false; Some false; Some false])
    by (vm_compute in Hscenario; by injection Hscenario as <- <-).
  destruct (disableExchange_unknown_id_throws m w "request_7") as [Hthrows _].
  destruct (disableExchange_unknown_id_throws m w "request_1") as [_ Hfound].
  pose proof Hids as Hids'. rewrite Hm in Hids'. cbn [map app] in Hids'.
  injection Hids' as Hid0 Hid1 Hid2 Hid3.
  change (exchangeId w (RequestRef 0) = Some "request_0") in Hid0.
  change (exchangeId w (ResponseRef 0) = Some "response_0") in Hid1.
  change (exchangeId w (RequestRef 1) = Some "request_1") in Hid2.
  pose proof Hmarks as Hmarks'. rewrite Hm in Hmarks'. cbn [map app] in Hmarks'.
  injection Hmarks' as Hmark0 Hmark1 _ Hmark3.
  change (shouldBeRemovedOnSend w (RequestRef 0) = Some false) in Hmark0.
  change (shouldBeRemovedOnSend w (ResponseRef 0) = Some false) in Hmark1.
  change (shouldBeRemovedOnSend w (ResponseRef 1) = Some false) in Hmark3.
  destruct (Hfound [RequestRef 0; ResponseRef 0] (RequestRef 1) [ResponseRef 1] Hm Hid2)
    as (w' & Hrun & Hmarked & Hothers & _).
  { intros x Hx Hid.
    repeat (apply elem_of_cons in Hx as [->|Hx]; [congruence|]).
    destruct (not_elem_of_nil _ Hx). }
  exists m, w, w'. split; [reflexivity|]. split.
  { apply Hthrows. intros x Hx Hid.
    assert (Hmem : Some "request_7" ∈ map (exchangeId w) (_exchanges m)).
    { rewrite <- Hid. apply list_elem_of_fmap. by exists x. }
    rewrite Hids in Hmem.
    repeat (apply elem_of_cons in Hmem as [Heq|Hmem]; [discriminate|]).
    destruct (not_elem_of_nil _ Hmem). }
  split; [exact Hmarks|]. split; [exact Hrun|]. rewrite Hm.
  change ([shouldBeRemovedOnSend w' (RequestRef 0); shouldBeRemovedOnSend w' (ResponseRef 0);
           shouldBeRemovedOnSend w' (RequestRef 1); shouldBeRemovedOnSend w' (ResponseRef 1)]
          = [Some false; Some false; Some true; Some false]).
  rewrite Hmarked, !Hothers by discriminate. by rewrite Hmark0, Hmark1, Hmark3.
Defined.

(** X9. Two calls of [disableRequests] in a row: the marks after the second
    call are those of the second batch alone, so an empty batch un-hides
    every exchange; each call fires its own ['setHidden'] event. *)
Theorem disableRequests_last_batch_wins :
  ∀ (m : ChatModel) (w : World) (first second : list string),
    (∀ e, e ∈ _exchanges m → is_Some (exchangeId w e)) →
    ∃ (m1 : ChatModel) (w1 : World) (m2 : ChatModel) (w2 : World),
      ChatModelClass.disableRequests m first w = (Returned m1, w1)
      ∧ ChatModelClass.disableRequests m1 second w1 = (Returned m2, w2)
      ∧ (∀ e id, e ∈ _exchanges m → exchangeId w e = Some id →
           shouldBeRemovedOnSend w2 e = Some (bool_decide (id ∈ second)))
      ∧ (second = [] →
         ∀ e, e ∈ _exchanges m → shouldBeRemovedOnSend w2 e = Some false)
      ∧ onDidChange m2
        = onDidChange m ++ [(setHiddenEvent (list_to_set first), _exchanges m);
                            (setHiddenEvent (list_to_set second), _exchanges m)].
Proof.
  intros m w first second Hlive.
  destruct (forEach_hideExchange (list_to_set first) (_exchanges m) w Hlive)
    as (w1 & Hrun1 & Hids1 & _ & _).
  assert (Hlive1 : ∀ e, e ∈ _exchanges m → is_Some (exchangeId w1 e))
    by (intros e He; rewrite Hids1; by apply Hlive).
  destruct (forEach_hideExchange (list_to_set second) (_exchanges m) w1 Hlive1)
    as (w2 & Hrun2 & Hids2 & Hin2 & _).
  assert (Hflags : ∀ e id, e ∈ _exchanges m → exchangeId w e = Some id →
                     shouldBeRemovedOnSend w2 e = Some (bool_decide (id ∈ second))).
  { intros e id He Hid. rewrite (Hin2 e id He) by (by rewrite Hids1).
    f_equal. apply bool_decide_ext, elem_of_list_to_set. }
  exists (fire (setHiddenEvent (list_to_set first)) m), w1,
    (fire (setHiddenEvent (list_to_set second))
       (fire (setHiddenEvent (list_to_set first)) m)), w2.
  split; [|split; [|split; [|split]]].
  - unfold ChatModelClass.disableRequests, bind, ret. by rewrite Hrun1.
  - unfold ChatModelClass.disableRequests, bind, ret. cbn [_exchanges fire].
    by rewrite Hrun2.
  - exact Hflags.
  - intros -> e He. destruct (Hlive e He) as [id Hid].
    rewrite (Hflags e id He Hid). reflexivity.
  - cbn. by rewrite <- app_assoc.
Qed.

Lemma disableRequests_last_batch_wins_witness :
  ∃ m w m1 w1 m2 w2,
    scenarioSession emptyWorld = (Returned m, w)
    ∧ ChatModelClass.disableRequests m ["request_0"; "response_0"] w = (Returned m1, w1)
    ∧ ChatModelClass.disableRequests m1 [] w1 = (Returned m2, w2)
    ∧ map (shouldBeRemovedOnSend w2) (_exchanges m)
      = [Some false; Some false; Some false; Some false].
Proof.
  destruct (scenarioSession emptyWorld) as [[m|e] w] eqn:Hscenario;
    [|vm_compute in Hscenario; discriminate].
  assert (Hm : _exchanges m = [RequestRef 0; ResponseRef 0; RequestRef 1; ResponseRef 1])
    by (vm_compute in Hscenario; by injection Hscenario as <- <-).
  assert (Hids : map (exchangeId w) (_exchanges m)
                 = [Some "request_0"; Some "response_0"; Some "request_1"; Some "response_1"])
    by (vm_compute in Hscenario; by injection Hscenario as <- <-).
  destruct (disableRequests_last_batch_wins m w ["request_0"; "response_0"] [])
    as (m1 & w1 & m2 & w2 & Hrun1 & Hrun2 & _ & Hclear & _).
  { intros e He.
    assert (Hmem : exchangeId w e ∈ map (exchangeId w) (_exchanges m))
      by (apply list_elem_of_fmap; by exists e).
    rewrite Hids in Hmem.
    repeat (apply elem_of_cons in Hmem as [->|Hmem]; [eauto|]).
    destruct (not_elem_of_nil _ Hmem). }
  exists m, w, m1, w1, m2, w2. split; [reflexivity|]. split; [exact Hrun1|].
  split; [exact Hrun2|].
  specialize (Hclear eq_refl). rewrite Hm in Hclear |- *. cbn [map].
  repeat f_equal; apply Hclear; repeat constructor.
Defined.

(** *** Titles *)

Lemma firstLine_spec (text line : JsString) :
  isFirstLine text line → ChatModelClass.firstLine text = line.
Proof.
  intros [Hnone Hline].
  assert (Hrun : ∀ rest, (rest = [] ∨ ∃ tail, rest = lineFeedUnit :: tail) →
                         ChatModelClass.firstLine (line ++ rest) = line).
  { clear Hline. intros rest Hrest. induction line as [|c line IH].
    - destruct Hrest as [->|[tail ->]]; reflexivity.
    - apply not_elem_of_cons in Hnone as [Hc Hnone]. cbn [app ChatModelClass.firstLine].
      destruct (N.eqb_spec c 10) as [->|_]; [by destruct Hc|]. by rewrite (IH Hnone). }
  destruct Hline as [->|[tail ->]].
  - rewrite <- (app_nil_r line) at 1. apply Hrun. by left.
  - apply Hrun. right. by exists tail.
Qed.

Lemma firstRequest_onlyResponses (w : World) (exchanges rest : list ExchangeRef) :
  onlyResponses exchanges →
  ChatModelClass.firstRequest w (exchanges ++ rest) = ChatModelClass.firstRequest w rest.
Proof.
  induction exchanges as [|x exchanges IH]; intros Hall; [reflexivity|].
  destruct (Hall x) as [a ->]; [apply list_elem_of_here|].
  cbn [app ChatModelClass.firstRequest]. apply IH.
  intros y Hy. apply Hall. by apply list_elem_of_further.
Qed.

Lemma getDefaultTitle_spec (w : World) (exchanges : list ExchangeRef)
    (text line : JsString) :
  isTitleSource w exchanges text → isFirstLine text line →
  ChatModelClass.getDefaultTitle w exchanges = take 50 line.
Proof.
  intros Hsource Hline. unfold ChatModelClass.getDefaultTitle.
  destruct Hsource as [(before & a & r & after & -> & Hbefore & Hlive & ->)|[Hall ->]].
  - rewrite (firstRequest_onlyResponses w before _ Hbefore).
    cbn [ChatModelClass.firstRequest]. rewrite Hlive. by rewrite (firstLine_spec _ line).
  - rewrite <- (app_nil_r exchanges), (firstRequest_onlyResponses w exchanges [] Hall).
    cbn [ChatModelClass.firstRequest]. by rewrite (firstLine_spec _ line).
Qed.

(** X10. The title of a session: a custom title that is not the empty string
    is the title. Otherwise the title is the first line of the text of the
    first request, or of [Session] when the session has no request, cut
    after 50 UTF-16 code units: the whole line when it has at most 50 of
    them, and its first 50 otherwise. *)
Theorem title_is_one_short_line :
  ∀ (m : ChatModel) (w : World) (text line : JsString),
    isTitleSource w (_exchanges m) text →
    isFirstLine text line →
    (∀ custom, _customTitle m = Some custom → custom ≠ [] →
               ChatModelClass.title m w = custom)
    ∧ (_customTitle m = None ∨ _customTitle m = Some [] →
       ChatModelClass.title m w = take 50 line
       ∧ (length line <= 50 → ChatModelClass.title m w = line)
       ∧ (50 < length line →
          length (ChatModelClass.title m w) = 50
          ∧ ∃ more, more ≠ [] ∧ line = ChatModelClass.title m w ++ more)).
Proof.
  intros m w text line Hsource Hline. split.
  - intros custom Hc Hne. unfold ChatModelClass.title. rewrite Hc.
    by destruct custom.
  - intros Hnone.
    assert (Ht : ChatModelClass.title m w = take 50 line).
    { unfold ChatModelClass.title.
      destruct Hnone as [-> | ->]; by apply getDefaultTitle_spec with (text := text). }
    rewrite Ht. split; [reflexivity|]. split.
    + intros Hshort. by apply take_ge.
    + intros Hlong. split; [rewrite length_take; lia|].
      exists (drop 50 line). split; [|by rewrite take_drop].
      intros Hnil. apply (f_equal length) in Hnil. rewrite length_drop in Hnil.
      cbn in Hnil. lia.
Qed.

Lemma title_is_one_short_line_witness :
  let request :=
    mkRequest "request_0"
      (mkParsed (js "Fix the bug in foo.ts
It fails on empty input.") []) (mkVariableData []) 0 None None None false false in
  let long :=
    mkRequest "request_1" (mkParsed (replicate 60 233%N) []) (mkVariableData []) 0
      None None None false false in
  let m := mkChatModel "session-1" [ResponseRef 0; RequestRef 0] 1000 1000 false None
             "" "" None None [] in
  let m1 := mkChatModel "session-2" [RequestRef 1] 1000 1000 false (Some []) "" "" None
              None [] in
  let w := mkWorld [request; long] [redactedResponse] 2 1 [] [] in
  ChatModelClass.title m w = js "Fix the bug in foo.ts"
  ∧ ChatModelClass.title (ChatModelClass.setCustomTitle m (js "Foo")) w = js "Foo"
  ∧ ChatModelClass.title m1 w = replicate 50 233%N.
Proof.
  intros request long m m1 w.
  assert (Hsource : isTitleSource w [ResponseRef 0; RequestRef 0]
                      (messageText (message request))).
  { left. exists [ResponseRef 0], 0, request, []. split; [reflexivity|].
    split; [|by split]. intros x Hx. apply list_elem_of_singleton in Hx as ->. by eexists. }
  assert (Hline : isFirstLine (messageText (message request)) (js "Fix the bug in foo.ts")).
  { split; [|right; by exists (js "It fails on empty input.")].
    intros Hin. vm_compute in Hin.
    repeat (apply elem_of_cons in Hin as [Hin|Hin]; [discriminate Hin|]).
    destruct (not_elem_of_nil _ Hin). }
  assert (Hsource1 : isTitleSource w [RequestRef 1] (replicate 60 233%N)).
  { left. exists [], 1, long, []. split; [reflexivity|]. split; [|by split].
    intros x Hx. destruct (not_elem_of_nil _ Hx). }
  assert (Hline1 : isFirstLine (replicate 60 233%N) (replicate 60 233%N)).
  { split; [|by left]. intros Hin. apply elem_of_replicate in Hin as [Hin _].
    discriminate Hin. }
  split; [|split].
  - destruct (title_is_one_short_line m w _ _ Hsource Hline) as [_ Hdefault].
    destruct (Hdefault (or_introl eq_refl)) as (_ & Hwhole & _).
    apply Hwhole. vm_compute. lia.
  - destruct (title_is_one_short_line (ChatModelClass.setCustomTitle m (js "Foo")) w _ _
                Hsource Hline) as [Hcustom _].
    by apply Hcustom.
  - destruct (title_is_one_short_line m1 w _ _ Hsource1 Hline1) as [_ Hdefault].
    destruct (Hdefault (or_intror eq_refl)) as (Hcut & _).
    rewrite Hcut. reflexivity.
Defined.

(** *** Reading persisted data *)



Lemma reviveParts_exportPart (l : Response.t) :
  ChatModelClass.reviveParts (map ChatModelClass.exportPart l) = l.
Proof.
  unfold ChatModelClass.reviveParts.
  induction l as [|p l IH]; [reflexivity|].
  cbn [map]. rewrite IH. by destruct p.
Qed.

(** X12. The persisted form of the content parts reads back as the parts:
    the constructor of [Response] undoes what [toExport] does to them, for
    every list of parts, and the accumulator goes on from there as it would
    have from the parts. *)
Theorem exported_parts_read_back :
  ∀ (l : Response.t) (progress : Progress) (quiet : bool),
    ChatModelClass.reviveParts (map ChatModelClass.exportPart l) = l
    ∧ Response.updateContent
        (ChatModelClass.reviveParts (map ChatModelClass.exportPart l)) progress quiet
      = Response.updateContent l progress quiet.
Proof.
  intros l progress quiet. by rewrite reviveParts_exportPart.
Qed.

Lemma editsResponse_ext {A} (c : M A) a f g x :
  (∀ o, f o = g o) → editsResponse c a f x → editsResponse c a g x.
Proof.
  intros Hfg Hc w obj Hlive. destruct (Hc w obj Hlive) as (w' & Hrun & Hobj & Hrest).
  exists w'. split; [exact Hrun|]. split; [by rewrite <- Hfg|exact Hrest].
Qed.

Lemma editsResponse_ret {A} (x : A) a : editsResponse (ret x) a (fun o => o) x.
Proof.
  intros w obj Hlive. exists w. split; [reflexivity|].
  split; [by rewrite list_insert_id|]. repeat split.
Qed.

Lemma editsResponse_write a f : editsResponse (writeResponse a f) a f tt.
Proof.
  intros w obj Hlive. unfold writeResponse, modify. rewrite Hlive.
  eexists. split; [reflexivity|]. repeat split.
Qed.

Lemma editsResponse_fire a : editsResponse (fireResponse a) a (fun o => o) tt.
Proof.
  intros w obj Hlive. unfold fireResponse, modify.
  eexists. split; [reflexivity|]. cbn. split; [by rewrite list_insert_id|]. repeat split.
Qed.

Lemma editsResponse_bind {A B} (c : M A) (k : A → M B) a f g x y :
  editsResponse c a f x → editsResponse (k x) a g y →
  editsResponse (bind c k) a (fun o => g (f o)) y.
Proof.
  intros Hc Hk w obj Hlive.
  assert (Hlt : a < length (responseObjects w)) by (eapply lookup_lt_Some; eassumption).
  destruct (Hc w obj Hlive) as (w1 & Hrun1 & Hobj1 & Hreq1 & Hn1 & Hm1 & Hlog1).
  destruct (Hk w1 (f obj)) as (w2 & Hrun2 & Hobj2 & Hreq2 & Hn2 & Hm2 & Hlog2).
  { rewrite Hobj1. by apply list_lookup_insert_eq. }
  exists w2. unfold bind. rewrite Hrun1. split; [exact Hrun2|].
  split; [by rewrite Hobj2, Hobj1, list_insert_insert_eq|].
  repeat split; congruence.
Qed.

Lemma editsResponse_forEach {X} (op : X → M unit)
    (step : X → ChatResponseModel → ChatResponseModel) a (l : list X) :
  (∀ x, editsResponse (op x) a (step x) tt) →
  editsResponse (forEachM op l) a (fun o => fold_left (fun o x => step x o) l o) tt.
Proof.
  intros Hop. induction l as [|x l IH]; cbn [forEachM fold_left].
  - apply editsResponse_ret.
  - eapply editsResponse_ext; [|eapply editsResponse_bind; [apply Hop|exact IH]].
    reflexivity.
Qed.

Lemma fold_contentReferences (l : list string) (o : ChatResponseModel) :
  fold_left (fun o x => with_contentReferences (_contentReferences o ++ [x]) o) l o
  = with_contentReferences (_contentReferences o ++ l) o.
Proof.
  revert o. induction l as [|x l IH]; intros o; cbn [fold_left].
  - rewrite app_nil_r. by destruct o.
  - rewrite IH. cbn. by rewrite <- app_assoc.
Qed.

Lemma fold_codeCitations (l : list string) (o : ChatResponseModel) :
  fold_left (fun o x => with_codeCitations (_codeCitations o ++ [x]) o) l o
  = with_codeCitations (_codeCitations o ++ l) o.
Proof.
  revert o. induction l as [|x l IH]; intros o; cbn [fold_left].
  - rewrite app_nil_r. by destruct o.
  - rewrite IH. cbn. by rewrite <- app_assoc.
Qed.

Lemma insert_snoc {X} (l : list X) (x y : X) : <[length l := y]> (l ++ [x]) = l ++ [y].
Proof.
  rewrite insert_app_r_alt by lia. by rewrite Nat.sub_diag.
Qed.

Lemma applyUsedContext_edits a u :
  editsResponse (ChatResponseModelClass.applyUsedContext a u) a
    (with_usedContext (Some u)) tt.
Proof. apply editsResponse_write. Qed.

Lemma set_shouldBeRemovedOnSend_edits a b :
  editsResponse (ChatResponseModelClass.set_shouldBeRemovedOnSend a b) a
    (with_shouldBeRemovedOnSend b) tt.
Proof.
  unfold ChatResponseModelClass.set_shouldBeRemovedOnSend.
  eapply editsResponse_ext;
    [|eapply editsResponse_bind; [apply editsResponse_write|apply editsResponse_fire]].
  reflexivity.
Qed.

Lemma applyContentReference_edits a x :
  editsResponse (ChatResponseModelClass.applyContentReference a x) a
    (fun o => with_contentReferences (_contentReferences o ++ [x]) o) tt.
Proof.
  unfold ChatResponseModelClass.applyContentReference.
  eapply editsResponse_ext;
    [|eapply editsResponse_bind; [apply editsResponse_write|apply editsResponse_fire]].
  reflexivity.
Qed.

Lemma applyCodeCitation_edits a x :
  editsResponse (ChatResponseModelClass.applyCodeCitation a x) a
    (fun o => with_codeCitations (_codeCitations o ++ [x]) o) tt.
Proof.
  unfold ChatResponseModelClass.applyCodeCitation.
  eapply editsResponse_ext;
    [|eapply editsResponse_bind;
      [apply editsResponse_write
      |eapply editsResponse_bind; apply editsResponse_fire]].
  reflexivity.
Qed.

Lemma exportExchange_response (a : nat) (w : World) (r : ChatResponseModel) :
  responseObjects w !! a = Some r →
  ChatModelClass.exportExchange (ResponseRef a) w = (Returned (exportedResponse r), w).
Proof.
  intros Hlive. unfold ChatModelClass.exportExchange, bind, get, ret.
  by rewrite Hlive.
Qed.

Lemma deserializeExchange_exported (r : ChatResponseModel) (w0 : World) :
  ∃ w0' : World,
    ChatModelClass.deserializeExchange (exportedResponse r) w0
    = (Returned (ResponseRef (length (responseObjects w0))), w0')
    ∧ responseObjects w0'
      = responseObjects w0
        ++ [readBack ("response_" +:+ showNat (ChatResponseModel_nextId w0)) r]
    ∧ requestObjects w0' = requestObjects w0
    ∧ ChatRequestModel_nextId w0' = ChatRequestModel_nextId w0
    ∧ ChatResponseModel_nextId w0' = S (ChatResponseModel_nextId w0)
    ∧ logService_error w0' = logService_error w0.
Proof.
  pose (here := length (responseObjects w0)).
  pose (fresh := mkResponse ("response_" +:+ showNat (ChatResponseModel_nextId w0))
                   (_response r) (_agent r) (_slashCommand r) true (_isCanceled r)
                   (_vote r) (_voteDownReason r) (_result r) (_followups r) false false
                   (negb (length (_response r) =? 0)%nat) false None [] [] false).
  pose (w1 := mkWorld (requestObjects w0) (responseObjects w0 ++ [fresh])
                (ChatRequestModel_nextId w0) (S (ChatResponseModel_nextId w0))
                (responseDidChange w0) (logService_error w0)).
  assert (Hlive1 : responseObjects w1 !! here = Some fresh) by apply lookup_snoc_new.
  assert (Hedits :
    editsResponse
      (match option_map (mkRawUsedContext true) (_usedContext r) with
       | Some u => ChatResponseModelClass.applyUsedContext here (usedContextData u)
       | None => ret tt
       end ;;;
       ChatResponseModelClass.set_shouldBeRemovedOnSend here
         (truthy (Some (_shouldBeRemovedOnSend r))) ;;;
       forEachM (ChatResponseModelClass.applyContentReference here) (_contentReferences r) ;;;
       forEachM (ChatResponseModelClass.applyCodeCitation here) (_codeCitations r) ;;;
       ret (ResponseRef here))
      here
      (fun o =>
         with_codeCitations (_codeCitations o ++ _codeCitations r)
           (with_contentReferences (_contentReferences o ++ _contentReferences r)
              (with_shouldBeRemovedOnSend (_shouldBeRemovedOnSend r)
                 (with_usedContext
                    (match _usedContext r with
                     | Some u => Some u
                     | None => _usedContext o
                     end) o))))
      (ResponseRef here)).
  { eapply editsResponse_ext;
      [|eapply editsResponse_bind
          with (f := fun o => with_usedContext (match _usedContext r with
                                                | Some u => Some u
                                                | None => _usedContext o
                                                end) o);
        [|eapply editsResponse_bind;
          [apply set_shouldBeRemovedOnSend_edits
          |eapply editsResponse_bind;
           [apply editsResponse_forEach, applyContentReference_edits
           |eapply editsResponse_bind;
            [apply editsResponse_forEach, applyCodeCitation_edits
            |apply editsResponse_ret]]]]].
    - intros o. cbn beta. rewrite fold_codeCitations, fold_contentReferences.
      destruct (_shouldBeRemovedOnSend r); reflexivity.
    - destruct (_usedContext r) as [u|]; cbn [option_map usedContextData].
      + apply applyUsedContext_edits.
      + eapply editsResponse_ext; [|apply editsResponse_ret]. intros o. by destruct o. }
  destruct (Hedits w1 fresh Hlive1) as (w2 & Hrun & Hobj & Hreq & Hn & Hm & Hlog).
  exists w2. split.
  { unfold ChatModelClass.deserializeExchange, exportedResponse.
    cbn [rawResponse rawResult rawResponseErrorDetails defined orb rawAgent rawSlashCommand
         rawIsCanceled rawVote rawVoteDownReason rawFollowups rawUsedContext
         rawResponseIsHidden rawContentReferences rawCodeCitations default].
    unfold id. rewrite reviveParts_exportPart.
    replace (match option_map (λ agent : string, (true, agent)) (_agent r) with
             | Some (true, a0) => Some a0
             | _ => None
             end) with (_agent r) by (by destruct (_agent r)).
    unfold bind at 1. unfold ChatResponseModelClass.new at 1. exact Hrun. }
  rewrite Hobj, Hreq, Hn, Hm, Hlog. subst w1 here fresh.
  cbn [responseObjects requestObjects ChatRequestModel_nextId ChatResponseModel_nextId
       logService_error].
  rewrite insert_snoc. repeat split.
  unfold readBack. cbn. by destruct (_usedContext r).
Qed.

(** X13. A response that [toExport] has written is read back by
    [_deserialize]'s callback as one new response: the content parts, the
    agent and command, the canceled flag, the vote and its reason, the
    result, the followups, the hidden flag, the used context, the content
    references and the code citations are those of the exported response. It
    is always complete, also when the exported response was still in
    progress, and the side-effect flag is not carried over. *)
Theorem exported_response_reads_back :
  ∀ (a : nat) (w w0 : World) (r : ChatResponseModel),
    responseObjects w !! a = Some r →
    ∃ (raw : ISerializableExchange) (w0' : World),
      ChatModelClass.exportExchange (ResponseRef a) w = (Returned raw, w)
      ∧ ChatModelClass.deserializeExchange raw w0
        = (Returned (ResponseRef (length (responseObjects w0))), w0')
      ∧ responseObjects w0'
        = responseObjects w0
          ++ [readBack ("response_" +:+ showNat (ChatResponseModel_nextId w0)) r]
      ∧ _isComplete (readBack ("response_" +:+ showNat (ChatResponseModel_nextId w0)) r)
        = true
      ∧ _hasSideEffects
          (readBack ("response_" +:+ showNat (ChatResponseModel_nextId w0)) r) = false
      ∧ requestObjects w0' = requestObjects w0
      ∧ ChatResponseModel_nextId w0' = S (ChatResponseModel_nextId w0)
      ∧ logService_error w0' = logService_error w0.
Proof.
  intros a w w0 r Hlive.
  destruct (deserializeExchange_exported r w0)
    as (w0' & Hrun & Hobj & Hreq & Hn & Hm & Hlog).
  exists (exportedResponse r), w0'.
  split; [by apply exportExchange_response|]. by repeat split.
Qed.

Lemma exported_response_reads_back_witness :
  ∃ (raw : ISerializableExchange) (w0' : World),
    ChatModelClass.exportExchange (ResponseRef 0) redactedWorld
    = (Returned raw, redactedWorld)
    ∧ ChatModelClass.deserializeExchange raw emptyWorld = (Returned (ResponseRef 0), w0')
    ∧ responseObjects w0' = [readBack "response_0" redactedResponse].
Proof.
  destruct (exported_response_reads_back 0 redactedWorld emptyWorld redactedResponse
              eq_refl) as (raw & w0' & Hexp & Hrun & Hobj & _).
  exists raw, w0'. repeat split; assumption.
Defined.

Lemma mapM_exportExchange (w : World) (exchanges : list ExchangeRef)
    (rs : list ChatResponseModel) :
  responsesAt w exchanges rs →
  mapM ChatModelClass.exportExchange exchanges w = (Returned (map exportedResponse rs), w).
Proof.
  induction 1 as [|e r exchanges rs (a & -> & Hlive) Hrest IH]; [reflexivity|].
  cbn [mapM map]. unfold bind at 1. rewrite (exportExchange_response a w r Hlive).
  unfold bind at 1. by rewrite IH.
Qed.

Lemma mapM_deserializeExchange_exported (rs : list ChatResponseModel) (w0 : World) :
  ∃ w0' : World,
    mapM ChatModelClass.deserializeExchange (map exportedResponse rs) w0
    = (Returned (map ResponseRef (seq (length (responseObjects w0)) (length rs))), w0')
    ∧ responseObjects w0'
      = responseObjects w0 ++ readBackFrom (ChatResponseModel_nextId w0) rs
    ∧ requestObjects w0' = requestObjects w0
    ∧ ChatRequestModel_nextId w0' = ChatRequestModel_nextId w0
    ∧ ChatResponseModel_nextId w0' = ChatResponseModel_nextId w0 + length rs
    ∧ logService_error w0' = logService_error w0.
Proof.
  revert w0. induction rs as [|r rs IH]; intros w0.
  - exists w0. cbn. rewrite app_nil_r, Nat.add_0_r. by repeat split.
  - destruct (deserializeExchange_exported r w0)
      as (w1 & Hrun1 & Hobj1 & Hreq1 & Hn1 & Hm1 & Hlog1).
    destruct (IH w1) as (w2 & Hrun2 & Hobj2 & Hreq2 & Hn2 & Hm2 & Hlog2).
    exists w2. cbn [mapM map length seq readBackFrom]. unfold bind at 1. rewrite Hrun1.
    unfold bind at 1. rewrite Hrun2. unfold ret.
    rewrite Hobj1, length_app, Nat.add_1_r in *.
    rewrite Hobj2, Hreq2, Hn2, Hm2, Hlog2, Hm1, <- app_assoc.
    repeat split; try assumption. cbn [length]. lia.
Qed.

Lemma readBackFrom_length (n : nat) (rs : list ChatResponseModel) :
  length (readBackFrom n rs) = length rs.
Proof. revert n. induction rs as [|r rs IH]; intros n; cbn; [done|by rewrite IH]. Qed.

(** X14. A session that holds responses only round-trips: [toExport] writes
    one record per response and leaves the store alone, and [_deserialize]
    reads the records back as as many new responses, in the same order, each
    the read-back form of the one exported, with consecutive ids. Nothing is
    logged and no request is made. *)
Theorem responses_survive_the_round_trip :
  ∀ (m : ChatModel) (w w0 : World) (rs : list ChatResponseModel),
    responsesAt w (_exchanges m) rs →
    ∃ (data : ISerializableChatData) (w0' : World),
      ChatModelClass.toExport m w = (Returned data, w)
      ∧ option_map length (dataExchanges data) = Some (length (_exchanges m))
      ∧ ChatModelClass._deserialize data w0
        = (Returned (map ResponseRef
                       (seq (length (responseObjects w0)) (length (_exchanges m)))), w0')
      ∧ responseObjects w0'
        = responseObjects w0 ++ readBackFrom (ChatResponseModel_nextId w0) rs
      ∧ requestObjects w0' = requestObjects w0
      ∧ logService_error w0' = logService_error w0.
Proof.
  intros m w w0 rs Hrs.
  pose proof (Forall2_length _ _ _ Hrs) as Hlen.
  destruct (mapM_deserializeExchange_exported rs w0)
    as (w0' & Hrun & Hobj & Hreq & Hn & Hm & Hlog).
  eexists _, w0'. split.
  { unfold ChatModelClass.toExport, bind. rewrite (mapM_exportExchange w _ rs Hrs).
    reflexivity. }
  cbn [dataExchanges option_map]. rewrite length_map, Hlen.
  split; [reflexivity|]. split.
  { unfold ChatModelClass._deserialize, try_catch. cbn [dataExchanges].
    by rewrite Hrun. }
  by repeat split.
Qed.

Lemma responses_survive_the_round_trip_witness :
  ∃ (data : ISerializableChatData) (w0' : World),
    ChatModelClass.toExport
      (mkChatModel "session-1" [ResponseRef 0; ResponseRef 1] 1000 1000 false None "" ""
         None None [])
      (mkWorld [] [redactedResponse; readBack "response_1" redactedResponse] 0 2 [] [])
    = (Returned data,
       mkWorld [] [redactedResponse; readBack "response_1" redactedResponse] 0 2 [] [])
    ∧ ChatModelClass._deserialize data emptyWorld
      = (Returned [ResponseRef 0; ResponseRef 1], w0')
    ∧ responseObjects w0'
      = [readBack "response_0" redactedResponse; readBack "response_1" redactedResponse].
Proof.
  destruct (responses_survive_the_round_trip
              (mkChatModel "session-1" [ResponseRef 0; ResponseRef 1] 1000 1000 false None
                 "" "" None None [])
              (mkWorld [] [redactedResponse; readBack "response_1" redactedResponse]
                 0 2 [] [])
              emptyWorld [redactedResponse; readBack "response_1" redactedResponse])
    as (data & w0' & Hexp & _ & Hrun & Hobj & _).
  { repeat constructor; [by exists 0|by exists 1]. }
  exists data, w0'. repeat split; assumption.
Defined.

(** *** The constructor *)

Lemma deserialize_returns (obj : ISerializableChatData) (w : World) :
  ∃ (kept : list ExchangeRef) (w' : World),
    ChatModelClass._deserialize obj w = (Returned kept, w').
Proof.
  unfold ChatModelClass._deserialize.
  destruct (dataExchanges obj) as [exchanges|].
  - unfold try_catch.
    destruct (mapM ChatModelClass.deserializeExchange exchanges w) as [[kept|e] w1].
    + eauto.
    + unfold bind, logError, modify, ret. cbn. eauto.
  - unfold bind, logError, modify, ret. cbn. eauto.
Qed.

(** X15. The constructor over data whose [exchanges] field is not an array:
    when the data has no session fields, it writes one line to the log,
    [Ignoring malformed session data: ] followed by the data as
    [JSON.stringify] prints them, with no error object, and gives an empty
    session that is marked imported, with a new id and the present time as
    its dates; when the data has the session fields, the constructor throws
    before it gets there, out of [isSerializableSessionData], and nothing is
    logged or changed. *)
Theorem new_over_data_without_an_exchange_array :
  ∀ (env : ChatModelClass.Env) (data : ISerializableChatData)
    (initialLocation : option string) (w : World),
    dataExchanges data = None →
    (dataSession data = None →
     ∃ (m : ChatModel) (w' : World),
       ChatModelClass.new env (Some data) initialLocation w = (Returned m, w')
       ∧ _exchanges m = []
       ∧ _isImported m = true
       ∧ _sessionId m = ChatModelClass.generateUuid env
       ∧ _creationDate m = ChatModelClass.Date_now env
       ∧ _lastMessageDate m = ChatModelClass.Date_now env
       ∧ _customTitle m = None
       ∧ logService_error w'
         = logService_error w
           ++ [(MessageWithJson "Ignoring malformed session data: " data, None)]
       ∧ responseObjects w' = responseObjects w
       ∧ requestObjects w' = requestObjects w)
    ∧ (dataSession data ≠ None →
       ∃ error : JsError,
         ChatModelClass.new env (Some data) initialLocation w = (Thrown error, w)).
Proof.
  intros env data initialLocation w Hex. split; intros Hsession.
  - unfold ChatModelClass.new, ChatModelClass.isSerializableSessionData,
      ChatModelClass._deserialize.
    rewrite Hsession, Hex. cbn. eexists _, _. split; [reflexivity|]. by repeat split.
  - unfold ChatModelClass.new, ChatModelClass.isSerializableSessionData.
    destruct (dataSession data) as [f|]; [|done]. rewrite Hex. cbn. eauto.
Qed.

Lemma new_over_data_without_an_exchange_array_witness :
  (∃ (m : ChatModel) (w' : World),
     ChatModelClass.new scenarioEnv (Some (mkChatData "user" "Aide" None None None)) None
       emptyWorld = (Returned m, w')
     ∧ _exchanges m = [] ∧ _isImported m = true
     ∧ logService_error w'
       = [(MessageWithJson "Ignoring malformed session data: "
             (mkChatData "user" "Aide" None None None), None)])
  ∧ (∃ error : JsError,
       ChatModelClass.new scenarioEnv
         (Some (mkChatData "user" "Aide" None None
                  (Some (mkSessionFields "session-9" 5 false 6 None)))) None emptyWorld
       = (Thrown error, emptyWorld)).
Proof.
  split.
  - destruct (new_over_data_without_an_exchange_array scenarioEnv
                (mkChatData "user" "Aide" None None None) None emptyWorld eq_refl)
      as [Hlogs _].
    destruct (Hlogs eq_refl) as (m & w' & Hrun & Hex & Himp & _ & _ & _ & _ & Hlog & _).
    exists m, w'. repeat split; assumption.
  - destruct (new_over_data_without_an_exchange_array scenarioEnv
                (mkChatData "user" "Aide" None None
                   (Some (mkSessionFields "session-9" 5 false 6 None)))
                None emptyWorld eq_refl) as [_ Hthrows].
    apply Hthrows. discriminate.
Defined.

(** X16. The constructor over data whose [exchanges] field is an array
    always gives a session. It takes the identity of the session from the
    data only when [isSerializableSessionData] holds of it: then an empty
    session id gives way to a new one, a creation date of 0 to the present
    time, a last message date of 0 to the creation date, and the imported
    flag is the one of the data. Otherwise the session is marked imported,
    with a new id, the present time as both dates and no custom title. With
    a record of an unknown type among the exchanges it is otherwise, and the
    session has no exchange either. *)
Theorem new_takes_the_identity_of_serializable_data :
  ∀ (env : ChatModelClass.Env) (data : ISerializableChatData)
    (initialLocation : option string) (w : World)
    (exchanges : list ISerializableExchange),
    dataExchanges data = Some exchanges →
    ∃ (serializable : bool) (m : ChatModel) (w' : World),
      ChatModelClass.isSerializableSessionData data w = (Returned serializable, w)
      ∧ ChatModelClass.new env (Some data) initialLocation w = (Returned m, w')
      ∧ (∀ f, serializable = true → dataSession data = Some f →
              _sessionId m = (if String.eqb (dataSessionId f) ""
                              then ChatModelClass.generateUuid env else dataSessionId f)
              ∧ _creationDate m = (if (dataCreationDate f =? 0)%nat
                                   then ChatModelClass.Date_now env
                                   else dataCreationDate f)
              ∧ _lastMessageDate m = (if (dataLastMessageDate f =? 0)%nat
                                      then _creationDate m else dataLastMessageDate f)
              ∧ _isImported m = dataIsImported f
              ∧ _customTitle m = dataCustomTitle f)
      ∧ (serializable = false →
         _sessionId m = ChatModelClass.generateUuid env
         ∧ _creationDate m = ChatModelClass.Date_now env
         ∧ _lastMessageDate m = ChatModelClass.Date_now env
         ∧ _isImported m = true
         ∧ _customTitle m = None)
      ∧ (dataSession data = None → serializable = false)
      ∧ ((∃ type, RawOther type ∈ exchanges) →
         serializable = false ∧ _exchanges m = []).
Proof.
  intros env data initialLocation w exchanges Hex.
  destruct (deserialize_returns data w) as (kept & w' & Hrun).
  assert (Hstranger : (∃ type, RawOther type ∈ exchanges) → kept = []).
  { intros (type & Hin).
    destruct (mapM_throws ChatModelClass.deserializeExchange exchanges) with (w := w)
      as (e & w1 & Hthrow).
    { exists (RawOther type). split; [assumption|]. intros w0.
      by apply deserializeExchange_unrecognized_throws. }
    unfold ChatModelClass._deserialize, try_catch in Hrun. rewrite Hex, Hthrow in Hrun.
    unfold bind, logError, modify, ret in Hrun. by injection Hrun as <- _. }
  unfold ChatModelClass.new, ChatModelClass.isSerializableSessionData.
  rewrite Hex. destruct (dataSession data) as [f|] eqn:Hsession.
  - set (b := forallb _ exchanges).
    assert (Hb : (∃ type, RawOther type ∈ exchanges) → b = false).
    { intros (type & Hin). apply not_true_is_false. intros Hall.
      apply forallb_forall with (x := RawOther type) in Hall; [discriminate|].
      by apply list_elem_of_In. }
    exists b. cbv beta iota delta [bind ret]. rewrite Hrun.
    eexists _, w'. split; [reflexivity|]. split; [reflexivity|].
    cbn [_sessionId _creationDate _lastMessageDate _isImported _customTitle _exchanges].
    split; [|split; [|split]].
    + intros f' -> [= <-]. cbn [negb orb]. by repeat split.
    + intros ->. cbn [negb orb]. by repeat split.
    + discriminate.
    + intros Hin. split; [by apply Hb|by apply Hstranger].
  - exists false. cbv beta iota delta [bind ret]. rewrite Hrun.
    eexists _, w'. split; [reflexivity|]. split; [reflexivity|].
    cbn [_sessionId _creationDate _lastMessageDate _isImported _customTitle _exchanges
         negb orb].
    split; [|split; [|split]].
    + discriminate.
    + by repeat split.
    + reflexivity.
    + intros Hin. split; [reflexivity|by apply Hstranger].
Qed.

Lemma new_takes_the_identity_of_serializable_data_witness :
  ∃ (m : ChatModel) (w' : World),
    ChatModelClass.new scenarioEnv
      (Some (mkChatData "user" "Aide" None (Some [persistedResponse "first"])
               (Some (mkSessionFields "" 0 false 0 (Some (js "My title"))))))
      None emptyWorld = (Returned m, w')
    ∧ _sessionId m = "session-1"
    ∧ _creationDate m = 1000
    ∧ _lastMessageDate m = 1000
    ∧ _customTitle m = Some (js "My title").
Proof.
  destruct (new_takes_the_identity_of_serializable_data scenarioEnv
              (mkChatData "user" "Aide" None (Some [persistedResponse "first"])
                 (Some (mkSessionFields "" 0 false 0 (Some (js "My title")))))
              None emptyWorld [persistedResponse "first"] eq_refl)
    as (b & m & w' & Hser & Hrun & Hyes & _).
  vm_compute in Hser. injection Hser as <-.
  destruct (Hyes _ eq_refl eq_refl) as (Hid & Hdate & Hlast & _ & Htitle).
  exists m, w'. split; [exact Hrun|]. rewrite Hlast, Hdate, Hid, Htitle.
  by repeat split.
Defined.

(** ** Further properties of the dispatcher *)

Section JsMapSetFacts.
Context {V : Type}.
Implicit Types (m : JsMap.t V) (k : string) (v : V).

Lemma JsMap_get_replace_same k v m :
  JsMap.get k (JsMap.replace k v m) = (fun _ => v) <$> JsMap.get k m.
Proof.
  induction m as [|[k' v'] m IH]; [reflexivity|]. cbn [JsMap.replace JsMap.get].
  destruct (decide (k' = k)) as [->|Hne]; cbn [JsMap.get].
  - by rewrite decide_True.
  - by rewrite decide_False.
Qed.

Lemma JsMap_get_replace_other k k' v m :
  k' ≠ k → JsMap.get k' (JsMap.replace k v m) = JsMap.get k' m.
Proof.
  intros Hne. induction m as [|[k0 v0] m IH]; [reflexivity|].
  cbn [JsMap.replace JsMap.get].
  destruct (decide (k0 = k)) as [->|Hk]; cbn [JsMap.get].
  - by rewrite !decide_False by congruence.
  - by rewrite IH.
Qed.

Lemma JsMap_get_snoc k k' v m :
  JsMap.get k' (m ++ [(k, v)])
  = match JsMap.get k' m with
    | Some x => Some x
    | None => if decide (k = k') then Some v else None
    end.
Proof.
  induction m as [|[k0 v0] m IH]; [reflexivity|].
  cbn [app JsMap.get]. by destruct (decide (k0 = k')).
Qed.

Lemma JsMap_get_set_same k v m : JsMap.get k (JsMap.set k v m) = Some v.
Proof.
  unfold JsMap.set, JsMap.has. destruct (JsMap.get k m) as [x|] eqn:Hget; cbn.
  - by rewrite JsMap_get_replace_same, Hget.
  - by rewrite JsMap_get_snoc, Hget, decide_True.
Qed.

Lemma JsMap_get_set_other k k' v m :
  k' ≠ k → JsMap.get k' (JsMap.set k v m) = JsMap.get k' m.
Proof.
  intros Hne. unfold JsMap.set, JsMap.has. destruct (JsMap.get k m) as [x|] eqn:Hget; cbn.
  - by apply JsMap_get_replace_other.
  - rewrite JsMap_get_snoc. destruct (JsMap.get k' m); [done|].
    by rewrite decide_False by congruence.
Qed.
End JsMapSetFacts.

Lemma string_length_app (a b : string) :
  String.length (a +:+ b) = String.length a + String.length b.
Proof.
  induction a as [|c a IH]; [reflexivity|]. rewrite string_app_cons. cbn. by rewrite IH.
Qed.

Section DispatcherFurther.
Import AideAgentSessionProvider Terminal Routing.

Lemma slice_app (a d : JsString) : slice (length a) (a ++ d) = d.
Proof. unfold slice. by rewrite drop_app_length. Qed.

Lemma slice_0 (s : JsString) : slice 0 s = s.
Proof. reflexivity. Qed.

Lemma slice_beyond (n : nat) (s : JsString) : length s <= n → slice n s = [].
Proof. intros Hle. unfold slice. by apply drop_ge. Qed.

Lemma nonEmptyText_spec (s : JsString) : nonEmptyText s = true ↔ s ≠ [].
Proof. by destruct s. Qed.

Lemma nonEmpty_spec (s : string) : nonEmpty s = true ↔ s ≠ "".
Proof.
  unfold nonEmpty. rewrite negb_true_iff. split.
  - intros H ->. discriminate.
  - intros H. by apply String.eqb_neq.
Qed.

Lemma getKey_collision (a b c : string) :
  getKey (mkIdentifier (a +:+ "-" +:+ b) c) = getKey (mkIdentifier a (b +:+ "-" +:+ c)).
Proof.
  unfold getKey. cbn [sessionId exchangeId]. by rewrite !string_app_assoc.
Qed.

(** X17. The loop passes over the events it cannot route: the sentinels
    ([keep_alive], the [started] notice, [done]) and the events of a pair
    that has no registered stream. Over any number of them no call is made
    on any stream, the provider is as before — the pair is not marked as
    started either — and the loop runs to the end of its stream. *)
Theorem unrouted_events_do_nothing :
  ∀ (editMode : bool) (events : list SideCarAgentEvent) (p : t),
    Forall (unrouted p) events →
    reportAgentEventsToChat editMode events p = (p, [], Continue)
    ∧ dispatch editMode events p = (p, []).
Proof.
  intros editMode events p Hall. split; [by apply loop_unrouted|].
  induction Hall as [|event events Hevent Hrest IH]; [reflexivity|].
  cbn [dispatch]. by rewrite (onEvent_unrouted _ _ _ Hevent), IH.
Qed.

Lemma unrouted_events_do_nothing_witness :
  reportAgentEventsToChat true
    [keep_alive; UIEventWithID "other" "e1" (ChatEvent (Some (js "hello"))); done] threeStreams
  = (threeStreams, [], Continue).
Proof.
  apply (unrouted_events_do_nothing true
           [keep_alive; UIEventWithID "other" "e1" (ChatEvent (Some (js "hello"))); done]
           threeStreams).
  repeat constructor.
Defined.

(** X18. A stream is found by the key of its pair, not by the pair: after
    [addResponseStream] every identifier with the same key finds the stream,
    and after [removeResponseStream] none of them finds one; identifiers
    with another key find what they found before. The key joins session and
    exchange with a dash, so two different pairs can have one key: session
    [a] with exchange [b-c], and session [a-b] with exchange [c]. *)
Theorem stream_is_found_by_its_key :
  ∀ (i j : ResponseStreamIdentifier) (s : AideAgentEventSenderResponse) (p : t),
    (getKey j = getKey i →
     getResponseStream j (addResponseStream i s p) = Some s
     ∧ getResponseStream j (removeResponseStream i p) = None)
    ∧ (getKey j ≠ getKey i →
       getResponseStream j (addResponseStream i s p) = getResponseStream j p
       ∧ getResponseStream j (removeResponseStream i p) = getResponseStream j p)
    ∧ (∀ a b c, i = mkIdentifier a (b +:+ "-" +:+ c) →
                j = mkIdentifier (a +:+ "-" +:+ b) c →
                i ≠ j ∧ getKey j = getKey i).
Proof.
  intros i j s p. unfold getResponseStream, addResponseStream, removeResponseStream.
  cbn [responseStreamCollection]. split; [|split].
  - intros ->. split; [apply JsMap_get_set_same|apply JsMap_get_delete_same].
  - intros Hne. split; [by apply JsMap_get_set_other|].
    apply JsMap_get_delete_other. congruence.
  - intros a b c -> ->. split; [|apply getKey_collision].
    intros [= Ha _]. apply (f_equal String.length) in Ha.
    rewrite !string_length_app in Ha. cbn in Ha. lia.
Qed.

Lemma stream_is_found_by_its_key_witness :
  getResponseStream (mkIdentifier "s-e1" "x")
    (addResponseStream (mkIdentifier "s" "e1-x") (mkSender "e1-x" 7) initial)
  = Some (mkSender "e1-x" 7)
  ∧ getResponseStream (mkIdentifier "s" "e2")
      (removeResponseStream (mkIdentifier "s" "e1") threeStreams)
    = Some (mkSender "e2" 2).
Proof.
  split.
  - destruct (stream_is_found_by_its_key (mkIdentifier "s" "e1-x")
                (mkIdentifier "s-e1" "x") (mkSender "e1-x" 7) initial) as [Hsame _].
    by destruct (Hsame eq_refl).
  - destruct (stream_is_found_by_its_key (mkIdentifier "s" "e1")
                (mkIdentifier "s" "e2") (mkSender "e1" 1) threeStreams) as (_ & Hother & _).
    destruct Hother as [_ ->]; [discriminate|reflexivity].
Defined.

Lemma onEvent_thinking editMode sid eid cur rs p :
  getResponseStream (mkIdentifier sid eid) p = Some rs →
  sid +:+ "-" +:+ eid ∈ startedStreams p →
  onEvent editMode (UIEventWithID sid eid (FrameworkEv (ToolThinking cur))) p
  = (mkProvider (responseStreamCollection p)
       (<[sid +:+ "-" +:+ eid := cur]> (lastThinkingText p)) (startedStreams p),
     (let delta := slice (length (default [] (lastThinkingText p !! (sid +:+ "-" +:+ eid))))
                     cur in
      if nonEmptyText delta
      then [mkEmitted (mkIdentifier sid eid) (stream rs)
              (Markdown (delta ++ [lineFeedUnit]))]
      else []),
     Continue).
Proof.
  intros Hopen Hstarted.
  cbn [onEvent]. rewrite Hopen. rewrite bool_decide_eq_true_2 by exact Hstarted.
  reflexivity.
Qed.

(** X19. A [ToolThinking] event of a started stream sends what is new in the
    thinking text and remembers the whole text for the pair; texts are
    measured in UTF-16 code units. When the text continues the remembered
    one, the continuation goes out as one markdown call, followed by a line
    feed; when the text is not longer than the remembered one, nothing is
    sent, whatever the text is; when it is longer, what goes out is the text
    without as many code units at its start as the remembered one has,
    whether it continues the remembered one or not. The loop goes on. *)
Theorem thinking_sends_what_is_new :
  ∀ (editMode : bool) (sid eid : string) (prev cur : JsString)
    (rs : AideAgentEventSenderResponse) (p : t),
    getResponseStream (mkIdentifier sid eid) p = Some rs →
    sid +:+ "-" +:+ eid ∈ startedStreams p →
    default [] (lastThinkingText p !! (sid +:+ "-" +:+ eid)) = prev →
    ∃ out : list Emitted,
      onEvent editMode (UIEventWithID sid eid (FrameworkEv (ToolThinking cur))) p
      = (mkProvider (responseStreamCollection p)
           (<[sid +:+ "-" +:+ eid := cur]> (lastThinkingText p)) (startedStreams p),
         out, Continue)
      ∧ (∀ d, cur = prev ++ d → d ≠ [] →
              out = [mkEmitted (mkIdentifier sid eid) (stream rs)
                       (Markdown (d ++ [lineFeedUnit]))])
      ∧ (length cur <= length prev → out = [])
      ∧ (length prev < length cur →
         ∃ old d, cur = old ++ d ∧ length old = length prev ∧ d ≠ []
                  ∧ out = [mkEmitted (mkIdentifier sid eid) (stream rs)
                             (Markdown (d ++ [lineFeedUnit]))]).
Proof.
  intros editMode sid eid prev cur rs p Hopen Hstarted Hprev.
  rewrite (onEvent_thinking _ _ _ _ _ _ Hopen Hstarted), Hprev. cbn zeta.
  eexists. split; [reflexivity|]. split; [|split].
  - intros d -> Hd. rewrite slice_app.
    by rewrite (proj2 (nonEmptyText_spec d) Hd).
  - intros Hle. by rewrite (slice_beyond _ _ Hle).
  - intros Hlt. exists (take (length prev) cur), (drop (length prev) cur).
    assert (Hd : drop (length prev) cur ≠ []).
    { intros Hnil. apply (f_equal length) in Hnil. rewrite length_drop in Hnil.
      cbn in Hnil. lia. }
    split; [by rewrite take_drop|]. split; [rewrite length_take; lia|].
    split; [exact Hd|]. unfold slice.
    by rewrite (proj2 (nonEmptyText_spec _) Hd).
Qed.

Lemma thinking_sends_what_is_new_witness :
  let remembered : JsString := js "caf" ++ [233%N; 55357%N; 56832%N] in
  let provider :=
    mkProvider (responseStreamCollection threeStreams) {["s-e1" := remembered]}
      {["s-e1"]} in
  ∃ p',
    onEvent true
      (UIEventWithID "s" "e1" (FrameworkEv (ToolThinking (remembered ++ js " is open"))))
      provider
    = (p', [mkEmitted (mkIdentifier "s" "e1") 1 (Markdown (js " is open" ++ [10%N]))],
       Continue).
Proof.
  intros remembered provider.
  destruct (thinking_sends_what_is_new true "s" "e1" remembered
              (remembered ++ js " is open") (mkSender "e1" 1) provider)
    as (out & Hrun & Hnew & _); [reflexivity|vm_compute; reflexivity|reflexivity|].
  rewrite (Hnew (js " is open") eq_refl) in Hrun by discriminate.
  eexists. exact Hrun.
Defined.

(** X20. Closing a stream forgets the thinking text of its pair and not that
    the pair was started. When a stream is registered again for the pair,
    its first event sends no [Loading...] stage, and the first thinking text
    goes out whole. *)
Theorem closing_forgets_the_text_not_the_start :
  ∀ (editMode : bool) (sid eid : string) (cur : JsString)
    (again : AideAgentEventSenderResponse) (p : t),
    sid +:+ "-" +:+ eid ∈ startedStreams p →
    cur ≠ [] →
    ∃ (p1 p3 : t) (closed : list Emitted),
      closeAndRemoveResponseStream sid eid p = (p1, closed)
      ∧ getResponseStream (mkIdentifier sid eid) p1 = None
      ∧ lastThinkingText p1 !! (sid +:+ "-" +:+ eid) = None
      ∧ sid +:+ "-" +:+ eid ∈ startedStreams p1
      ∧ onEvent editMode (UIEventWithID sid eid (FrameworkEv (ToolThinking cur)))
          (addResponseStream (mkIdentifier sid eid) again p1)
        = (p3, [mkEmitted (mkIdentifier sid eid) (stream again)
                  (Markdown (cur ++ [lineFeedUnit]))], Continue).
Proof.
  intros editMode sid eid cur again p Hstarted Hcur.
  eexists _, _, _. split; [reflexivity|].
  split; [apply JsMap_get_delete_same|].
  split; [apply lookup_delete_eq|].
  split; [exact Hstarted|].
  rewrite (onEvent_thinking editMode sid eid cur again).
  - unfold addResponseStream, removeResponseStream. cbn [lastThinkingText].
    rewrite lookup_delete_eq.
    cbn [default length]. rewrite slice_0.
    rewrite (proj2 (nonEmptyText_spec cur) Hcur). reflexivity.
  - apply JsMap_get_set_same.
  - exact Hstarted.
Qed.

Lemma closing_forgets_the_text_not_the_start_witness :
  ∃ (p1 p3 : t) (closed : list Emitted),
    closeAndRemoveResponseStream "s" "e1"
      (mkProvider (responseStreamCollection threeStreams) {["s-e1" := js "I will"]}
         {["s-e1"]})
    = (p1, closed)
    ∧ onEvent true (UIEventWithID "s" "e1" (FrameworkEv (ToolThinking (js "Again"))))
        (addResponseStream (mkIdentifier "s" "e1") (mkSender "e1" 9) p1)
      = (p3, [mkEmitted (mkIdentifier "s" "e1") 9
                (Markdown (js "Again" ++ [lineFeedUnit]))], Continue).
Proof.
  destruct (closing_forgets_the_text_not_the_start true "s" "e1" (js "Again")
              (mkSender "e1" 9)
              (mkProvider (responseStreamCollection threeStreams)
                 {["s-e1" := js "I will"]} {["s-e1"]}))
    as (p1 & p3 & closed & Hclose & _ & _ & _ & Hrun);
    [vm_compute; reflexivity|discriminate|].
  exists p1, p3, closed. split; assumption.
Defined.

Lemma onUIEvent_finished sid eid rs p :
  getResponseStream (mkIdentifier sid eid) p = Some rs →
  onUIEvent (mkIdentifier sid eid) rs (ExchangeEv FinishedExchange) p
  = (fst (closeAndRemoveResponseStream sid eid p),
     [mkEmitted (mkIdentifier sid eid) (stream rs) (Stage "Complete");
      mkEmitted (mkIdentifier sid eid) (stream rs) Close],
     Continue).
Proof.
  intros Hopen. cbn [onUIEvent onExchangeEvent sessionId exchangeId].
  unfold closeAndRemoveResponseStream. by rewrite Hopen.
Qed.

Lemma ofPair_unrouted i p (rest : list SideCarAgentEvent) :
  getResponseStream i p = None → Forall (ofPair i) rest → Forall (unrouted p) rest.
Proof.
  intros Hgone Hrest. eapply Forall_impl; [exact Hrest|].
  intros [| | |sid' eid' e]; cbn; try done. by intros ->.
Qed.

(** X21. Once an exchange has finished, the rest of its loop is silent:
    [FinishedExchange] sends the [Complete] stage (after the [Loading...]
    stage, when this is the first event of the pair), closes and removes the
    stream of the pair, and the loop goes on; every later event of that
    pair finds no stream and is passed over, whatever it is. *)
Theorem finished_exchange_silences_its_pair :
  ∀ (editMode : bool) (sid eid : string) (rs : AideAgentEventSenderResponse)
    (rest : list SideCarAgentEvent) (p : t),
    getResponseStream (mkIdentifier sid eid) p = Some rs →
    Forall (ofPair (mkIdentifier sid eid)) rest →
    ∃ p' : t,
      reportAgentEventsToChat editMode
        (UIEventWithID sid eid (ExchangeEv FinishedExchange) :: rest) p
      = (p',
         (if bool_decide (sid +:+ "-" +:+ eid ∈ startedStreams p) then []
          else [mkEmitted (mkIdentifier sid eid) (stream rs) (Stage "Loading...")])
         ++ [mkEmitted (mkIdentifier sid eid) (stream rs) (Stage "Complete");
             mkEmitted (mkIdentifier sid eid) (stream rs) Close],
         Continue)
      ∧ getResponseStream (mkIdentifier sid eid) p' = None
      ∧ sid +:+ "-" +:+ eid ∈ startedStreams p'.
Proof.
  intros editMode sid eid rs rest p Hopen Hrest.
  cbn [reportAgentEventsToChat onEvent]. rewrite Hopen.
  destruct (bool_decide (sid +:+ "-" +:+ eid ∈ startedStreams p)) eqn:Hb.
  - apply bool_decide_eq_true in Hb.
    rewrite (onUIEvent_finished _ _ _ _ Hopen).
    assert (Hgone : getResponseStream (mkIdentifier sid eid)
                      (fst (closeAndRemoveResponseStream sid eid p)) = None)
      by apply JsMap_get_delete_same.
    rewrite (loop_unrouted _ _ _ (ofPair_unrouted _ _ _ Hgone Hrest)).
    eexists. split; [reflexivity|]. split; [exact Hgone|exact Hb].
  - set (p1 := mkProvider _ _ _).
    assert (Hopen1 : getResponseStream (mkIdentifier sid eid) p1 = Some rs) by exact Hopen.
    rewrite (onUIEvent_finished _ _ _ _ Hopen1).
    assert (Hgone : getResponseStream (mkIdentifier sid eid)
                      (fst (closeAndRemoveResponseStream sid eid p1)) = None)
      by apply JsMap_get_delete_same.
    rewrite (loop_unrouted _ _ _ (ofPair_unrouted _ _ _ Hgone Hrest)).
    eexists. split; [reflexivity|]. split; [exact Hgone|].
    cbn. apply elem_of_union_l. by apply elem_of_singleton.
Qed.

Lemma finished_exchange_silences_its_pair_witness :
  ∃ p' : t,
    reportAgentEventsToChat true
      [UIEventWithID "s" "e2" (ExchangeEv FinishedExchange);
       UIEventWithID "s" "e2" (ChatEvent (Some (js "late"))); done] threeStreams
    = (p',
       [mkEmitted (mkIdentifier "s" "e2") 2 (Stage "Loading...");
        mkEmitted (mkIdentifier "s" "e2") 2 (Stage "Complete");
        mkEmitted (mkIdentifier "s" "e2") 2 Close], Continue).
Proof.
  destruct (finished_exchange_silences_its_pair true "s" "e2" (mkSender "e2" 2)
              [UIEventWithID "s" "e2" (ChatEvent (Some (js "late"))); done] threeStreams)
    as (p' & Hrun & _); [reflexivity|by repeat constructor|].
  exists p'. exact Hrun.
Defined.

Import LoopEnd.

Ltac flow_cases Hui :=
  repeat match type of Hui with
         | context [String.eqb ?a ?b] => destruct (String.eqb_spec a b); [subst|]
         | context [closeEach ?a ?b ?c] => destruct (closeEach a b c)
         | context [closeAndRemoveResponseStream ?a ?b ?c] =>
             destruct (closeAndRemoveResponseStream a b c)
         end.

Lemma onUIEvent_flow i rs e p p' out flow :
  onUIEvent i rs e p = (p', out, flow) →
  (flow = Return ↔ endsLoop e) ∧ ((∃ error, flow = Throws error) ↔ lacksThinking e).
Proof.
  intros Hui. destruct e as [fe|keys|path name sub| | |delta|pe|ee|];
    cbn [onUIEvent] in Hui.
  - destruct fe as [filePath|thinking|fieldName delta|[[|filePath|key]|]|err|];
      cbn [onFrameworkEvent] in Hui; flow_cases Hui; injection Hui as <- <- <-;
      cbn [endsLoop lacksThinking]; (split; split; [done|try done; by intros []| |done]);
      by intros [].
  - injection Hui as <- <- <-. cbn. split; split; try done. by intros [].
  - destruct sub as [|[thinking|]|keys|]; cbn [endsLoop lacksThinking].
    1,4,5: injection Hui as <- <- <-; split; split; try done; by intros [].
    + assert (flow = Continue) as ->.
      { destruct (negb (nonEmpty path) && negb (nonEmpty name)); congruence. }
      split; split; try done. by intros [].
    + destruct (nonEmpty path) eqn:Hpath; cbn [negb andb] in Hui.
      * injection Hui as <- <- <-. split; [done|]. split; [|by eauto].
        intros _. left. by apply nonEmpty_spec.
      * destruct (nonEmpty name) eqn:Hname; cbn [negb] in Hui; injection Hui as <- <- <-.
        -- split; [done|]. split; [|by eauto]. intros _. right. by apply nonEmpty_spec.
        -- split; [done|]. split; [by intros []|].
           intros [H|H]; apply nonEmpty_spec in H; congruence.
  - injection Hui as <- <- <-. cbn. split; split; try done. by intros [].
  - injection Hui as <- <- <-. cbn. split; split; try done. by intros [].
  - injection Hui as <- <- <-. cbn. split; split; try done. by intros [].
  - destruct pe; injection Hui as <- <- <-; cbn; split; split; try done; by intros [].
  - destruct ee as [s|s|s| |]; cbn [onExchangeEvent] in Hui; flow_cases Hui;
      injection Hui as <- <- <-; cbn [endsLoop lacksThinking];
      (split; split; try done; try congruence); by intros [].
  - injection Hui as <- <- <-. cbn. split; split; try done. by intros [].
Qed.

(** X22. Where a loop of [reportAgentEventsToChat] ends. The turn of a
    routed event returns from the loop exactly when the event is a
    completion tool use, a tool-type error, or a plans or edits state
    [MarkedComplete]; it throws exactly when the event is an edit sub-step
    that names a file or a symbol and has no [ThinkingForEdit] field. In both
    cases what follows in the stream is never handled; after every other
    event the loop goes on with the rest. *)
Theorem loop_ends_at_completion :
  ∀ (editMode : bool) (sid eid : string) (e : UIEvent)
    (rs : AideAgentEventSenderResponse) (rest : list SideCarAgentEvent) (p : t),
    getResponseStream (mkIdentifier sid eid) p = Some rs →
    ∃ (p' : t) (out : list Emitted) (flow : Flow),
      onEvent editMode (UIEventWithID sid eid e) p = (p', out, flow)
      ∧ (flow = Return ↔ endsLoop e)
      ∧ ((∃ error, flow = Throws error) ↔ lacksThinking e)
      ∧ (endsLoop e ∨ lacksThinking e →
         reportAgentEventsToChat editMode (UIEventWithID sid eid e :: rest) p
         = (p', out, flow))
      ∧ (¬ endsLoop e → ¬ lacksThinking e →
         ∃ p'' out' flow',
           reportAgentEventsToChat editMode rest p' = (p'', out', flow')
           ∧ reportAgentEventsToChat editMode (UIEventWithID sid eid e :: rest) p
             = (p'', out ++ out', flow')).
Proof.
  intros editMode sid eid e rs rest p Hopen.
  cbn [reportAgentEventsToChat].
  destruct (onEvent editMode (UIEventWithID sid eid e) p) as [[p' out] flow] eqn:Hrun.
  exists p', out, flow. split; [reflexivity|].
  assert (Hflow : (flow = Return ↔ endsLoop e)
                  ∧ ((∃ error, flow = Throws error) ↔ lacksThinking e)).
  { cbn [onEvent] in Hrun. rewrite Hopen in Hrun.
    destruct (bool_decide _);
      destruct (onUIEvent _ rs e _) as [[p2 out2] flow2] eqn:Hui;
      injection Hrun as <- <- <-; exact (onUIEvent_flow _ _ _ _ _ _ _ Hui). }
  destruct Hflow as [Hreturn Hthrow].
  split; [exact Hreturn|]. split; [exact Hthrow|]. split.
  - intros [Hends|Hlacks].
    + apply Hreturn in Hends as ->. reflexivity.
    + apply Hthrow in Hlacks as [error ->]. reflexivity.
  - intros Hends Hlacks. destruct flow as [| |error].
    + destruct (reportAgentEventsToChat editMode rest p') as [[p'' out'] flow'].
      by exists p'', out', flow'.
    + destruct Hends. by apply Hreturn.
    + destruct Hlacks. apply Hthrow. by exists error.
Qed.

Lemma loop_ends_at_completion_witness :
  ∃ (p' : t) (out : list Emitted),
    reportAgentEventsToChat true
      [UIEventWithID "s" "e1" (FrameworkEv (ToolTypeError "bad input"));
       UIEventWithID "s" "e2" (ChatEvent (Some (js "never sent")))] threeStreams
    = (p', out, Return)
    ∧ Forall (fun em => call em ≠ Markdown (js "never sent")) out.
Proof.
  destruct (loop_ends_at_completion true "s" "e1" (FrameworkEv (ToolTypeError "bad input"))
              (mkSender "e1" 1) [UIEventWithID "s" "e2" (ChatEvent (Some (js "never sent")))]
              threeStreams eq_refl)
    as (p' & out & flow & Hrun & Hreturn & _ & Hends & _).
  rewrite (proj2 Hreturn I) in Hends. exists p', out.
  split; [apply Hends; by left|].
  vm_compute in Hrun. injection Hrun as <- <- _. by repeat constructor.
Defined.

End DispatcherFurther.

(** ** The provider's port and its queue of requests *)

Section ProviderIntake.
Import AideAgentSessionProvider Routing.

Lemma scanPorts_spec (isPortOpen : N → bool) (remaining : nat) :
  ∀ startFrom : N,
    match scanPorts isPortOpen remaining startFrom with
    | Some port =>
        (startFrom <= port < startFrom + N.of_nat remaining)%N
        ∧ isPortOpen port = true
        ∧ ∀ q, (startFrom <= q < port)%N → isPortOpen q = false
    | None =>
        ∀ q, (startFrom <= q < startFrom + N.of_nat remaining)%N → isPortOpen q = false
    end.
Proof.
  induction remaining as [|remaining IH]; intros startFrom; cbn [scanPorts].
  - intros q Hq. lia.
  - destruct (isPortOpen startFrom) eqn:Hhere.
    + split; [lia|]. split; [exact Hhere|]. intros q Hq. lia.
    + specialize (IH (N.succ startFrom)).
      destruct (scanPorts isPortOpen remaining (N.succ startFrom)) as [port|].
      * destruct IH as (Hrange & Hopen & Hbefore). split; [lia|]. split; [exact Hopen|].
        intros q Hq. destruct (decide (q = startFrom)) as [->|Hne]; [exact Hhere|].
        apply Hbefore. lia.
      * intros q Hq. destruct (decide (q = startFrom)) as [->|Hne]; [exact Hhere|].
        apply IH. lia.
Qed.

(** X23. [getNextOpenPort] gives the first open port from [startFrom] on
    that is below 65535, and null when none of them is open: a port it gives
    is open, and every port from [startFrom] up to it is not; port 65535 is
    never probed and never given, open or not. *)
Theorem getNextOpenPort_is_the_first_open_port :
  ∀ (isPortOpen : N → bool) (startFrom : N),
    match getNextOpenPort isPortOpen startFrom with
    | Some port =>
        (startFrom <= port < 65535)%N
        ∧ isPortOpen port = true
        ∧ ∀ q, (startFrom <= q < port)%N → isPortOpen q = false
    | None => ∀ q, (startFrom <= q < 65535)%N → isPortOpen q = false
    end.
Proof.
  intros isPortOpen startFrom. unfold getNextOpenPort.
  pose proof (scanPorts_spec isPortOpen (N.to_nat (65535 - startFrom)) startFrom) as Hscan.
  destruct (scanPorts isPortOpen (N.to_nat (65535 - startFrom)) startFrom) as [port|].
  - destruct Hscan as (Hrange & Hopen & Hbefore). split; [lia|]. by split.
  - intros q Hq. apply Hscan. lia.
Qed.

Lemma getNextOpenPort_is_the_first_open_port_witness :
  getNextOpenPort (fun port => (port =? 42429)%N || (port =? 65535)%N) 42427 = Some 42429%N
  ∧ getNextOpenPort (fun port => (port =? 65535)%N) 42427 = None.
Proof.
  split.
  - generalize (getNextOpenPort_is_the_first_open_port
                  (fun port => (port =? 42429)%N || (port =? 65535)%N) 42427).
    destruct (getNextOpenPort (fun port => (port =? 42429)%N || (port =? 65535)%N) 42427)
      as [port|].
    + intros (Hrange & Hopen & _). f_equal.
      apply orb_true_iff in Hopen as [Hopen|Hopen]; apply N.eqb_eq in Hopen; [exact Hopen|lia].
    + intros Hclosed. assert (Hin : (42427 <= 42429 < 65535)%N) by lia.
      apply Hclosed in Hin. discriminate Hin.
  - generalize (getNextOpenPort_is_the_first_open_port (fun port => (port =? 65535)%N) 42427).
    destruct (getNextOpenPort (fun port => (port =? 65535)%N) 42427) as [port|];
      [|reflexivity].
    intros (Hrange & Hopen & _). apply N.eqb_eq in Hopen. lia.
Defined.

Lemma has_set_same {V} (k : string) (v : V) (m : JsMap.t V) :
  JsMap.has k (JsMap.set k v m) = true.
Proof. unfold JsMap.has. by rewrite JsMap_get_set_same. Qed.

Lemma has_set_other {V} (k k' : string) (v : V) (m : JsMap.t V) :
  k' ≠ k → JsMap.has k' (JsMap.set k v m) = JsMap.has k' m.
Proof. intros Hne. unfold JsMap.has. by rewrite JsMap_get_set_other. Qed.

Lemma handleEvents_spec (events : list AideAgentRequest) :
  ∀ (q q' : Intake) (processed : list AideAgentRequest),
    handleEvents events q = (q', processed) →
    eventQueue q' = eventQueue q ++ events
    ∧ (∀ k, JsMap.has k (processingEvents q') = true
            ↔ JsMap.has k (processingEvents q) = true ∨ k ∈ map uniqueId events)
    ∧ NoDup (map uniqueId processed)
    ∧ (∀ e, e ∈ processed →
            JsMap.has (uniqueId e) (processingEvents q) = false
            ∧ ∃ before after, events = before ++ e :: after
                              ∧ ∀ x, x ∈ before → uniqueId x ≠ uniqueId e)
    ∧ (∀ e, e ∈ events → JsMap.has (uniqueId e) (processingEvents q) = false →
            uniqueId e ∈ map uniqueId processed).
Proof.
  induction events as [|event events IH]; intros q q' processed Hrun.
  - injection Hrun as <- <-. rewrite app_nil_r. split; [done|]. split.
    { intros k. cbn. split; [by left|]. intros [H|H]; [done|].
      destruct (not_elem_of_nil _ H). }
    split; [constructor|]. split; intros e He; destruct (not_elem_of_nil _ He).
  - cbn [handleEvents] in Hrun.
    destruct (handleEvent event q) as [q1 first] eqn:Hfirst.
    destruct (handleEvents events q1) as [q2 later] eqn:Hlater.
    injection Hrun as <- <-.
    destruct (IH _ _ _ Hlater) as (Hqueue & Hkeys & Hnodup & Hfirsts & Hall).
    unfold handleEvent in Hfirst. fold (uniqueId event) in Hfirst.
    destruct (JsMap.has (uniqueId event) (processingEvents q)) eqn:Hseen;
      cbn [negb] in Hfirst; injection Hfirst as <- <-;
      cbn [eventQueue processingEvents from_option app] in *.
    + (* the key is known: queued, not processed *)
      split; [by rewrite Hqueue, <- app_assoc|]. split.
      { intros k. rewrite Hkeys. cbn [map]. rewrite elem_of_cons.
        split; [tauto|]. intros [H|[->|H]]; tauto. }
      split; [exact Hnodup|]. split.
      * intros e He. destruct (Hfirsts e He) as (Hnew & before & after & -> & Hbefore).
        split; [exact Hnew|]. exists (event :: before), after. split; [reflexivity|].
        intros x Hx. apply elem_of_cons in Hx as [->|Hx]; [congruence|by apply Hbefore].
      * intros e He Hnew. apply elem_of_cons in He as [->|He]; [congruence|].
        by apply Hall.
    + (* the key is new: queued and processed *)
      split; [by rewrite Hqueue, <- app_assoc|]. split.
      { intros k. rewrite Hkeys. cbn [map]. rewrite elem_of_cons.
        destruct (decide (k = uniqueId event)) as [->|Hne].
        - rewrite has_set_same. tauto.
        - rewrite has_set_other by exact Hne. tauto. }
      split.
      { cbn [map]. apply NoDup_cons. split; [|exact Hnodup].
        intros Hin. apply list_elem_of_fmap in Hin as (e & Heq & He).
        destruct (Hfirsts e He) as (Hnew & _). rewrite <- Heq, has_set_same in Hnew.
        discriminate. }
      split.
      * intros e He. apply elem_of_cons in He as [->|He].
        -- split; [exact Hseen|]. exists [], events. split; [reflexivity|].
           intros x Hx. destruct (not_elem_of_nil _ Hx).
        -- destruct (Hfirsts e He) as (Hnew & before & after & -> & Hbefore).
           assert (Hne : uniqueId e ≠ uniqueId event).
           { intros Heq. rewrite Heq, has_set_same in Hnew. discriminate. }
           split; [by rewrite has_set_other in Hnew|].
           exists (event :: before), after. split; [reflexivity|].
           intros x Hx. apply elem_of_cons in Hx as [->|Hx]; [congruence|by apply Hbefore].
      * intros e He Hnew. cbn [map]. apply elem_of_cons.
        destruct (decide (uniqueId e = uniqueId event)) as [Heq|Hne]; [by left|right].
        apply elem_of_cons in He as [->|He]; [done|].
        apply Hall; [exact He|]. by rewrite has_set_other.
Qed.

(** X24. [handleEvent] queues every request and starts [processEvent] for
    the first request of each session and exchange key only: over any
    number of calls on a new provider, the queue holds all the requests in
    their order, no two processed requests have the same key, every request
    has its key among the processed ones, and a processed request is the
    first of the calls with its key. A key is never released, so a later
    request with the key of an earlier one is queued and never processed. *)
Theorem handleEvent_processes_the_first_of_each_key :
  ∀ (events : list AideAgentRequest),
    ∃ (q : Intake) (processed : list AideAgentRequest),
      handleEvents events (mkIntake [] []) = (q, processed)
      ∧ eventQueue q = events
      ∧ NoDup (map uniqueId processed)
      ∧ (∀ e, e ∈ events → uniqueId e ∈ map uniqueId processed)
      ∧ (∀ e, e ∈ processed →
              ∃ before after, events = before ++ e :: after
                              ∧ ∀ x, x ∈ before → uniqueId x ≠ uniqueId e)
      ∧ (∀ e, e ∈ events → JsMap.has (uniqueId e) (processingEvents q) = true).
Proof.
  intros events.
  destruct (handleEvents events (mkIntake [] [])) as [q processed] eqn:Hrun.
  destruct (handleEvents_spec events _ _ _ Hrun)
    as (Hqueue & Hkeys & Hnodup & Hfirsts & Hall).
  exists q, processed. split; [reflexivity|]. split; [exact Hqueue|].
  split; [exact Hnodup|]. split; [|split].
  - intros e He. by apply Hall.
  - intros e He. by destruct (Hfirsts e He) as [_ H].
  - intros e He. apply Hkeys. right. apply list_elem_of_fmap. by exists e.
Qed.

Lemma handleEvent_processes_the_first_of_each_key_witness :
  ∃ (q : Intake) (processed : list AideAgentRequest),
    handleEvents [mkAgentRequest "s" "e1" "fix it"; mkAgentRequest "s" "e1" "fix it again";
                  mkAgentRequest "s" "e2" "add a test"] (mkIntake [] [])
    = (q, processed)
    ∧ length (eventQueue q) = 3
    ∧ processed = [mkAgentRequest "s" "e1" "fix it"; mkAgentRequest "s" "e2" "add a test"]
    ∧ "s-e2" ∈ map uniqueId processed.
Proof.
  destruct (handleEvent_processes_the_first_of_each_key
              [mkAgentRequest "s" "e1" "fix it"; mkAgentRequest "s" "e1" "fix it again";
               mkAgentRequest "s" "e2" "add a test"])
    as (q & processed & Hrun & Hqueue & _ & Hall & _).
  exists q, processed. split; [exact Hrun|]. split; [by rewrite Hqueue|].
  split; [by vm_compute in Hrun; injection Hrun as _ <-|].
  apply (Hall (mkAgentRequest "s" "e2" "add a test")).
  do 2 apply list_elem_of_further. apply list_elem_of_here.
Defined.

End ProviderIntake.

(** ** The markdown string of a response *)








(** ** The initialization of a session *)

Section Initialization.
Import ChatModelClass Init.

Lemma initializeEvents_fire (m : ChatModel) :
  initializeEvents (onDidChange (fire initializeEvent m))
  = S (initializeEvents (onDidChange m)).
Proof.
  unfold initializeEvents, fire. cbn [onDidChange].
  rewrite List.filter_app, length_app. cbn. lia.
Qed.

Lemma afterCall_spec (c : InitCall) (s : InitFields * ChatModel) :
  initInvariant (fst s) →
  initInvariant (fst (afterCall c s))
  ∧ initializeEvents (onDidChange (snd (afterCall c s))) + initializing (fst (afterCall c s))
    <= initializeEvents (onDidChange (snd s)) + initializing (fst s) + starts [c]
  ∧ _exchanges (snd (afterCall c s)) = _exchanges (snd s).
Proof.
  destruct s as [[state future welcome] m]. unfold initInvariant, initializing.
  cbn [fst snd _initState _isInitializedDeferred]. intros Hinv.
  destruct c as [| |welcomeMessage|error]; destruct state;
    cbn [afterCall startInitialize deinitialize initialize setInitializationError fst snd
         _initState _isInitializedDeferred _welcomeMessage];
    rewrite ?initializeEvents_fire;
    try (destruct future; cbn in *; repeat split; try done; lia).
Qed.

Lemma afterCalls_spec (calls : list InitCall) :
  ∀ s : InitFields * ChatModel,
    initInvariant (fst s) →
    initInvariant (fst (afterCalls calls s))
    ∧ initializeEvents (onDidChange (snd (afterCalls calls s)))
      + initializing (fst (afterCalls calls s))
      <= initializeEvents (onDidChange (snd s)) + initializing (fst s) + starts calls
    ∧ _exchanges (snd (afterCalls calls s)) = _exchanges (snd s).
Proof.
  induction calls as [|c calls IH]; intros s Hinv.
  - cbn. split; [exact Hinv|]. split; [lia|reflexivity].
  - destruct (afterCall_spec c s Hinv) as (Hinv1 & Hcount1 & Hsame1).
    destruct (IH (afterCall c s) Hinv1) as (Hinv2 & Hcount2 & Hsame2).
    change (afterCalls (c :: calls) s) with (afterCalls calls (afterCall c s)).
    split; [exact Hinv2|]. split; [|congruence].
    assert (starts (c :: calls) = starts [c] + starts calls) as ->.
    { unfold starts. cbn [List.filter]. destruct c; cbn [length]; lia. }
    lia.
Qed.

(** X26. The initialization of a session is a state machine. After any
    calls of [startInitialize], [deinitialize], [initialize] and
    [setInitializationError] on a new session, of which the ones that throw
    change nothing: in the state [Created] the initialization future is
    pending; the future is resolved only in the state [Initialized]; in the
    state [Initialized] it is settled; the ['initialize'] event has been
    fired at most once for each call of [startInitialize]; and the exchanges
    are as they were. *)
Theorem initialization_is_a_state_machine :
  ∀ (calls : list InitCall) (m : ChatModel),
    let s := afterCalls calls (newInitFields, m) in
    (_initState (fst s) = Created → waitForInitialization (fst s) = Pending)
    ∧ (waitForInitialization (fst s) = Resolved → _initState (fst s) = Initialized)
    ∧ (_initState (fst s) = Initialized → isSettled (waitForInitialization (fst s)) = true)
    ∧ initializeEvents (onDidChange (snd s))
      <= initializeEvents (onDidChange m) + starts calls
    ∧ _exchanges (snd s) = _exchanges m.
Proof.
  intros calls m s.
  destruct (afterCalls_spec calls (newInitFields, m)) as (Hinv & Hcount & Hsame);
    [reflexivity|].
  fold s in Hinv, Hcount, Hsame. unfold initInvariant, waitForInitialization in *.
  cbn [fst snd] in Hcount, Hsame.
  split; [|split; [|split; [|split]]].
  - intros Hstate. by rewrite Hstate in Hinv.
  - intros Hfuture. rewrite Hfuture in Hinv. by destruct (_initState (fst s)).
  - intros Hstate. rewrite Hstate in Hinv. by destruct (_isInitializedDeferred (fst s)).
  - unfold initializing in Hcount. cbn [_initState newInitFields] in Hcount. lia.
  - exact Hsame.
Qed.

Lemma initialization_is_a_state_machine_witness :
  let s := afterCalls [StartInitialize; SetInitializationError "no agent"; Initialize None;
                       Initialize None]
             (newInitFields, emptyModel) in
  _initState (fst s) = Initialized
  ∧ waitForInitialization (fst s) = Rejected "no agent"
  ∧ isSettled (waitForInitialization (fst s)) = true
  ∧ initializeEvents (onDidChange (snd s)) <= 1.
Proof.
  destruct (initialization_is_a_state_machine
              [StartInitialize; SetInitializationError "no agent"; Initialize None;
               Initialize None] emptyModel) as (_ & _ & Hsettled & Hcount & _).
  cbv zeta. split; [reflexivity|]. split; [reflexivity|].
  split; [by apply Hsettled|exact Hcount].
Defined.

End Initialization.

(** ** The view model *)

Section ViewModel.
Import ChatViewModelClass View.

Lemma clearOldLast_id (l : list Item) : Forall notMarkedLast l → clearOldLast l = l.
Proof.
  induction 1 as [|[a|r] l Hx Hl IH]; cbn [clearOldLast]; [done|by rewrite IH|].
  cbn in Hx. by rewrite Hx, IH.
Qed.

Lemma unmark_id (l : list Item) : Forall notMarkedLast l → map unmark l = l.
Proof.
  induction 1 as [|[a|[a f l0]] l Hx Hl IH]; cbn [map unmark]; [done|by rewrite IH|].
  cbn in Hx. subst l0. by rewrite IH.
Qed.

Lemma clearOldLast_cons (x : Item) (l : list Item) :
  Forall notMarkedLast l → clearOldLast (x :: l) = unmark x :: l.
Proof.
  intros Hl. destruct x as [a|[a f l0]]; cbn [clearOldLast unmark isLast isFirst responseModel].
  - by rewrite (clearOldLast_id l Hl).
  - destruct l0; [done|]. by rewrite (clearOldLast_id l Hl).
Qed.

Lemma notMarkedLast_unmark (l : list Item) : Forall notMarkedLast (map unmark l).
Proof. induction l as [|[a|r] l IH]; by constructor. Qed.

Lemma model_unmark (l : list Item) : map model (map unmark l) = map model l.
Proof. induction l as [|[a|r] l IH]; cbn; by rewrite ?IH. Qed.

Lemma Forall_removelast {X} (P : X → Prop) (l : list X) :
  Forall P l → Forall P (removelast l).
Proof.
  destruct l as [|x l _] using rev_ind; [done|].
  rewrite removelast_last. intros H. by apply Forall_app in H as [H _].
Qed.

Lemma lookup_removelast {X} (l : list X) (i : nat) :
  S i < length l → removelast l !! i = l !! i.
Proof.
  destruct l as [|x l _] using rev_ind; [cbn; lia|].
  rewrite removelast_last, length_app. cbn. intros Hi.
  by rewrite lookup_app_l by lia.
Qed.

(** What [addItem] does to a list in which only the last item can be marked
    last. *)
Lemma addItem_spec (item : Item) (items : list Item) :
  Forall notMarkedLast (removelast items) →
  addItem item items
  = map unmark items
    ++ [match item with
        | ResponseVM r =>
            ResponseVM (mkResponseVM (responseModel r)
                          (isRequest (model <$> last items)) (isLast r))
        | RequestVM _ => item
        end].
Proof.
  intros Hinv. unfold addItem.
  destruct items as [|x init _] using rev_ind; [by destruct item|].
  rewrite removelast_last in Hinv. rewrite rev_app_distr. cbn [rev app].
  rewrite clearOldLast_cons by by apply Forall_rev.
  cbn [rev]. rewrite rev_involutive, map_app, (unmark_id init Hinv). cbn [map].
  f_equal. destruct item as [a|r]; [done|]. do 2 f_equal.
  rewrite !last_snoc. by destruct x.
Qed.

Lemma afterViewCall_invariant (c : ViewCall) (items : list Item) :
  Forall notMarkedLast (removelast items) →
  Forall notMarkedLast (removelast (afterViewCall c items)).
Proof.
  intros Hinv. destruct c as [a|a|[index|]]; cbn [afterViewCall removeItem];
    unfold onAddResponse.
  - rewrite (addItem_spec _ items Hinv), removelast_last. apply notMarkedLast_unmark.
  - rewrite (addItem_spec _ items Hinv), removelast_last. apply notMarkedLast_unmark.
  - destruct (decide (S index < length items)) as [Hlt|Hge].
    + destruct items as [|x init _] using rev_ind; [cbn in Hlt; lia|].
      rewrite removelast_last in Hinv. rewrite length_app in Hlt. cbn in Hlt.
      assert (Hdel : delete index (init ++ [x]) = delete index init ++ [x]).
      { rewrite delete_take_drop, (delete_take_drop init).
        rewrite take_app_le, drop_app_le by lia. by rewrite app_assoc. }
      rewrite Hdel, removelast_last. by apply Forall_delete.
    + destruct (decide (S index = length items)) as [Heq|Hne].
      * destruct items as [|x init _] using rev_ind; [done|].
        rewrite removelast_last in Hinv. rewrite length_app in Heq. cbn in Heq.
        assert (Hdel : delete index (init ++ [x]) = init).
        { rewrite delete_take_drop, take_app_le, drop_app_ge by lia.
          rewrite firstn_all2 by lia. replace (S index - length init) with 1 by lia.
          cbn. by rewrite app_nil_r. }
        rewrite Hdel. by apply Forall_removelast.
      * rewrite delete_take_drop, firstn_all2, skipn_all2 by lia. by rewrite app_nil_r.
  - exact Hinv.
Qed.

Lemma new_snoc (exchanges : list ExchangeRef) (e : ExchangeRef) :
  new (exchanges ++ [e])
  = match e with
    | RequestRef a => addItem (RequestVM a) (new exchanges)
    | ResponseRef a => onAddResponse a (new exchanges)
    end.
Proof. unfold new. by rewrite fold_left_app. Qed.

Lemma afterViewCalls_invariant (calls : list ViewCall) :
  ∀ items, Forall notMarkedLast (removelast items) →
           Forall notMarkedLast (removelast (afterViewCalls calls items)).
Proof.
  induction calls as [|c calls IH]; intros items Hinv; [exact Hinv|].
  cbn [afterViewCalls fold_left]. apply IH. by apply afterViewCall_invariant.
Qed.

Lemma new_invariant (exchanges : list ExchangeRef) :
  Forall notMarkedLast (removelast (new exchanges)).
Proof.
  induction exchanges as [|e exchanges IH] using rev_ind; [constructor|].
  rewrite new_snoc. destruct e as [a|a].
  - by apply (afterViewCall_invariant (AddRequest a)).
  - by apply (afterViewCall_invariant (AddResponse a)).
Qed.

(** X27. In a view model only the last item can be marked last. Whatever
    the exchanges it was built from, and after any calls of [addItem] for a
    request, of [onAddResponse] and of [removeItem], a response with
    [isLast] set is the last item of the list: appending anything clears
    the mark of the response before, and removing the last item marks no
    other. *)
Theorem only_the_last_item_is_marked_last :
  ∀ (exchanges : list ExchangeRef) (calls : list ViewCall) (i : nat)
    (r : ChatResponseViewModel),
    let items := afterViewCalls calls (new exchanges) in
    items !! i = Some (ResponseVM r) →
    isLast r = true →
    S i = length items.
Proof.
  intros exchanges calls i r items Hat Hlast.
  pose proof (afterViewCalls_invariant calls _ (new_invariant exchanges)) as Hinv.
  fold items in Hinv.
  pose proof (lookup_lt_Some _ _ _ Hat) as Hlt.
  destruct (decide (S i = length items)) as [|Hne]; [done|exfalso].
  rewrite <- (lookup_removelast items i) in Hat by lia.
  pose proof (proj1 (Forall_lookup _ _) Hinv i _ Hat) as Hnot. cbn in Hnot. congruence.
Qed.

Lemma only_the_last_item_is_marked_last_witness :
  afterViewCalls [AddResponse 1; RemoveItem (Some 0); AddRequest 1]
    (new [RequestRef 0; ResponseRef 0]) !! 1
  = Some (ResponseVM (mkResponseVM 1 false false))
  ∧ afterViewCalls [AddResponse 1] (new [RequestRef 0; ResponseRef 0]) !! 2
    = Some (ResponseVM (mkResponseVM 1 false true))
  ∧ S 2 = length (afterViewCalls [AddResponse 1] (new [RequestRef 0; ResponseRef 0])).
Proof.
  split; [reflexivity|]. split; [reflexivity|].
  apply (only_the_last_item_is_marked_last [RequestRef 0; ResponseRef 0] [AddResponse 1] 2
           (mkResponseVM 1 false true)); reflexivity.
Defined.

Lemma new_models (exchanges : list ExchangeRef) : map model (new exchanges) = exchanges.
Proof.
  induction exchanges as [|e exchanges IH] using rev_ind; [reflexivity|].
  rewrite new_snoc. unfold onAddResponse.
  destruct e as [a|a]; rewrite (addItem_spec _ _ (new_invariant exchanges));
    by rewrite map_app, model_unmark, IH.
Qed.

Lemma new_built (exchanges : list ExchangeRef) :
  new exchanges = imap (builtItem exchanges) exchanges.
Proof.
  induction exchanges as [|e exchanges IH] using rev_ind; [reflexivity|].
  rewrite new_snoc, imap_app. cbn [imap]. rewrite Nat.add_0_r.
  assert (Hlast : model <$> last (new exchanges) = last exchanges).
  { rewrite <- (new_models exchanges) at 2. by rewrite fmap_last. }
  assert (Hcleared : map unmark (new exchanges)
                     = imap (builtItem (exchanges ++ [e])) exchanges).
  { rewrite IH. change (map unmark ?l) with (unmark <$> l). rewrite fmap_imap.
    apply imap_ext. intros i x Hx. pose proof (lookup_lt_Some _ _ _ Hx) as Hi.
    destruct x as [a|a]; [reflexivity|]. cbn [builtItem unmark isFirst responseModel compose].
    do 2 f_equal.
    - destruct i as [|j]; [done|]. by rewrite lookup_app_l by lia.
    - symmetry. apply bool_decide_eq_false. rewrite length_app. cbn. lia. }
  unfold onAddResponse.
  destruct e as [a|a]; rewrite (addItem_spec _ _ (new_invariant exchanges)), Hcleared;
    [reflexivity|].
  do 2 f_equal. cbn [newResponseVM builtItem responseModel isLast].
  rewrite (bool_decide_eq_true_2 (S (length exchanges) = _))
    by (rewrite length_app; cbn; lia).
  f_equal. rewrite Hlast, last_lookup. destruct (length exchanges) as [|j] eqn:Hlen.
  - by destruct exchanges.
  - cbn [Init.Nat.pred]. by rewrite lookup_app_l by lia.
Qed.

(** X28. A view model built from the exchanges of a session has one item
    for each exchange, in their order: a response is marked first exactly
    when the exchange before it is a request, and marked last exactly when
    it is the last exchange. The listener follows [addRequest] with the
    request only: after the call the session has two exchanges more, the
    request and its response, and a view model that was there before has one
    item more, while a view model built anew has both. *)
Theorem view_model_mirrors_the_exchanges :
  ∀ (m : ChatModel) (w : World) (now : nat) (msg : IParsedChatRequest)
    (variableData : IChatRequestVariableData) (attempt : nat)
    (chatAgent slashCommand confirm locationData : option string)
    (attachments : option (list IChatRequestVariableEntry))
    (isCompleteAddedRequest : option bool),
    new (_exchanges m) = imap (builtItem (_exchanges m)) (_exchanges m)
    ∧ ∃ (request response : nat) (m1 : ChatModel) (w1 : World),
        ChatModelClass.addRequest m now msg variableData attempt chatAgent slashCommand
          confirm locationData attachments isCompleteAddedRequest w
        = (Returned (request, m1), w1)
        ∧ map fst (drop (length (onDidChange m)) (onDidChange m1))
          = [addRequestEvent request]
        ∧ _exchanges m1 = _exchanges m ++ [RequestRef request; ResponseRef response]
        ∧ map model (onModelChange w1 (addRequestEvent request) (new (_exchanges m)))
          = _exchanges m ++ [RequestRef request]
        ∧ map model (new (_exchanges m1)) = _exchanges m1.
Proof.
  intros. split; [apply new_built|]. rewrite addRequest_run.
  eexists _, _, _, _. split; [reflexivity|].
  split; [cbn; by rewrite drop_app_length|]. split; [reflexivity|]. split.
  - cbn [onModelChange]. rewrite (addItem_spec _ _ (new_invariant _)).
    by rewrite map_app, model_unmark, new_models.
  - apply new_models.
Qed.

(** X29. After [disableRequests(ids)], [getItems] on a view model of the
    session gives, of the items that the view model has, exactly those of
    the exchanges whose id is not among [ids], in their order: it leaves out
    the items of the exchanges that the call has hidden and gives the ones
    that an earlier call had hidden. This holds of any view model whose
    items stand for exchanges of the session, whether it was built from the
    exchanges or has followed the events of the session, and the listener of
    the view model does not change the items at the ['setHidden'] event. For
    a view model built from the exchanges, which has an item for each
    exchange, the items given are those of all the exchanges with an id not
    among [ids]. *)
Theorem getItems_leaves_out_the_disabled :
  ∀ (m : ChatModel) (w : World) (ids : list string),
    (∀ e, e ∈ _exchanges m → is_Some (exchangeId w e)) →
    ∃ (m' : ChatModel) (w' : World),
      ChatModelClass.disableRequests m ids w = (Returned m', w')
      ∧ (∀ items : list Item,
           (∀ item, item ∈ items → model item ∈ _exchanges m) →
           onModelChange w' (setHiddenEvent (list_to_set ids)) items = items
           ∧ getItems w' items = filter (standsOutside w ids) items
           ∧ ∀ item, item ∈ getItems w' items
                     ↔ item ∈ items
                       ∧ ∃ id, exchangeId w (model item) = Some id ∧ id ∉ ids)
      ∧ (∀ item,
           item ∈ getItems w' (new (_exchanges m'))
           ↔ item ∈ new (_exchanges m)
             ∧ ∃ id, exchangeId w (model item) = Some id ∧ id ∉ ids)
      ∧ (∀ e id, e ∈ _exchanges m → exchangeId w e = Some id → id ∉ ids →
                 e ∈ map model (getItems w' (new (_exchanges m')))).
Proof.
  intros m w ids Hlive.
  destruct (forEach_hideExchange (list_to_set ids) (_exchanges m) w Hlive)
    as (w' & Hrun & Hids & Hin & _).
  exists (fire (setHiddenEvent (list_to_set ids)) m), w'. split.
  { unfold ChatModelClass.disableRequests, bind, ret. by rewrite Hrun. }
  assert (Hrule : ∀ item, model item ∈ _exchanges m →
                    (shouldBeRemovedOnSend w' (model item) ≠ Some true
                     ↔ standsOutside w ids item)).
  { intros item Hmodel. destruct (Hlive _ Hmodel) as [id Hid].
    rewrite (Hin _ _ Hmodel Hid). unfold standsOutside. split.
    - intros Hshown. exists id. split; [exact Hid|]. intros Hmem. apply Hshown.
      f_equal. apply bool_decide_eq_true. by apply elem_of_list_to_set.
    - intros (id' & Hid' & Hnot) [= Hmem]. apply bool_decide_eq_true in Hmem.
      rewrite Hid in Hid'. injection Hid' as <-.
      apply Hnot. by apply elem_of_list_to_set in Hmem. }
  assert (Hany : ∀ items : list Item,
            (∀ item, item ∈ items → model item ∈ _exchanges m) →
            getItems w' items = filter (standsOutside w ids) items).
  { intros items. unfold getItems. induction items as [|item items IH]; intros Hitems;
      [reflexivity|].
    rewrite !filter_cons.
    rewrite IH by (intros x Hx; apply Hitems; by apply list_elem_of_further).
    pose proof (Hrule item (Hitems item (list_elem_of_here _ _))) as Hitem.
    destruct (decide (shouldBeRemovedOnSend w' (model item) ≠ Some true)) as [Hyes|Hno];
      destruct (decide (standsOutside w ids item)) as [Hout|Hin']; try reflexivity.
    - destruct Hin'. by apply Hitem.
    - destruct Hno. by apply Hitem. }
  assert (Hbuilt : ∀ item, item ∈ new (_exchanges m) → model item ∈ _exchanges m).
  { intros item Hitem. rewrite <- (new_models (_exchanges m)).
    apply list_elem_of_fmap. by exists item. }
  change (_exchanges (fire _ m)) with (_exchanges m).
  split; [|split].
  - intros items Hitems. split; [reflexivity|]. split; [by apply Hany|].
    intros item. rewrite (Hany items Hitems), list_elem_of_filter.
    unfold standsOutside. tauto.
  - intros item. rewrite (Hany _ Hbuilt), list_elem_of_filter.
    unfold standsOutside. tauto.
  - intros e id He Hid Hnot. rewrite (Hany _ Hbuilt).
    rewrite <- (new_models (_exchanges m)) in He.
    apply list_elem_of_fmap in He as (item & -> & Hitem).
    apply list_elem_of_fmap. exists item. split; [reflexivity|].
    apply list_elem_of_filter. split; [by exists id|exact Hitem].
Qed.

End ViewModel.

Lemma getItems_leaves_out_the_disabled_witness :
  let request :=
    mkRequest "request_0" (mkParsed (js "Fix the bug") []) (mkVariableData []) 0
      None None None false false in
  let w := mkWorld [request] [redactedResponse] 1 1 [] [] in
  let m := mkChatModel "session-1" [RequestRef 0; ResponseRef 0] 1000 1000 false None
             "" "" None None [] in
  let followed :=
    ChatViewModelClass.onModelChange w (addRequestEvent 0) (ChatViewModelClass.new []) in
  followed = [ChatViewModelClass.RequestVM 0]
  ∧ ∃ (m' : ChatModel) (w' : World),
      ChatModelClass.disableRequests m ["response_0"] w = (Returned m', w')
      ∧ ChatViewModelClass.getItems w' followed = [ChatViewModelClass.RequestVM 0]
      ∧ ChatViewModelClass.getItems w' (ChatViewModelClass.new (_exchanges m))
        = [ChatViewModelClass.RequestVM 0]
      ∧ ChatViewModelClass.new (_exchanges m)
        = [ChatViewModelClass.RequestVM 0;
           ChatViewModelClass.ResponseVM (ChatViewModelClass.mkResponseVM 0 true true)].
Proof.
  intros request w m followed. split; [reflexivity|].
  destruct (getItems_leaves_out_the_disabled m w ["response_0"])
    as (m' & w' & Hrun & Hitems & _).
  { intros e He.
    repeat (apply elem_of_cons in He as [->|He]; [by eexists|]).
    destruct (not_elem_of_nil _ He). }
  exists m', w'. split; [exact Hrun|]. split; [|split; [|reflexivity]].
  - destruct (Hitems followed) as (_ & -> & _); [|reflexivity].
    intros item Hitem. apply list_elem_of_singleton in Hitem as ->.
    apply list_elem_of_here.
  - destruct (Hitems (ChatViewModelClass.new (_exchanges m))) as (_ & -> & _);
      [|reflexivity].
    intros item Hitem.
    repeat (apply elem_of_cons in Hitem as [->|Hitem]; [by repeat constructor|]).
    destruct (not_elem_of_nil _ Hitem).
Defined.

(** ** Removing an exchange and all that come after it *)

Lemma exchangeId_dispose (w : World) (a : nat) (resp : ChatResponseModel) (e : ExchangeRef) :
  responseObjects w !! a = Some resp →
  exchangeId
    (mkWorld (requestObjects w) (<[a := with_isDisposed true resp]> (responseObjects w))
       (ChatRequestModel_nextId w) (ChatResponseModel_nextId w) (responseDidChange w)
       (logService_error w)) e
  = exchangeId w e.
Proof.
  intros Hlive. destruct e as [b|b]; cbn [exchangeId requestObjects responseObjects];
    [reflexivity|].
  destruct (decide (b = a)) as [->|Hne].
  - rewrite list_lookup_insert_eq by (eapply lookup_lt_Some; eassumption).
    by rewrite Hlive.
  - by rewrite list_lookup_insert_ne by congruence.
Qed.

Lemma removeExchange_found (m : ChatModel) (w : World) (id : string)
    (reason : ChatExchangeRemovalReason) (before after : list ExchangeRef)
    (e : ExchangeRef) :
  _exchanges m = before ++ e :: after →
  exchangeId w e = Some id →
  (∀ x, x ∈ before → exchangeId w x ≠ Some id) →
  ∃ (m' : ChatModel) (w' : World),
    ChatModelClass.removeExchange m id reason w = (Returned m', w')
    ∧ _exchanges m' = before ++ after
    ∧ onDidChange m' = onDidChange m ++ [(removeExchangeEvent id reason, _exchanges m)]
    ∧ requestObjects w' = requestObjects w
    ∧ (∀ x, exchangeId w' x = exchangeId w x)
    ∧ (∀ a, e = ResponseRef a → isDisposed <$> responseObjects w' !! a = Some true)
    ∧ (∀ a, isDisposed <$> responseObjects w !! a = Some true →
            isDisposed <$> responseObjects w' !! a = Some true).
Proof.
  intros Hex Hid Hbefore.
  assert (Hfound : ChatModelClass.findIndex w id (_exchanges m) = Some (length before, e)).
  { unfold ChatModelClass.findIndex. apply list_find_Some. rewrite Hex.
    split; [by rewrite list_lookup_middle|]. split; [exact Hid|].
    intros j y Hy Hj. rewrite lookup_app_l in Hy by exact Hj.
    apply Hbefore. by eapply list_elem_of_lookup_2. }
  unfold ChatModelClass.removeExchange, bind, get, ret. rewrite Hfound.
  assert (Hdel : delete (length before) (_exchanges m) = before ++ after).
  { rewrite Hex, delete_take_drop, take_app_length.
    rewrite drop_app_ge by lia. replace (S (length before) - length before) with 1 by lia.
    reflexivity. }
  destruct e as [a|a].
  - eexists _, w. split; [reflexivity|]. cbn [_exchanges with_exchanges fire onDidChange].
    split; [exact Hdel|]. repeat split; try done.
  - cbn [exchangeId] in Hid.
    destruct (responseObjects w !! a) as [resp|] eqn:Hlive; [|discriminate].
    unfold ChatResponseModelClass.dispose, writeResponse, modify. rewrite Hlive.
    eexists _, _. split; [reflexivity|]. cbn [_exchanges with_exchanges fire onDidChange].
    split; [exact Hdel|]. split; [reflexivity|]. split; [reflexivity|].
    split; [intros x; by apply exchangeId_dispose|]. cbn [responseObjects].
    pose proof (lookup_lt_Some _ _ _ Hlive) as Hlt. split.
    + intros a' [= <-]. by rewrite list_lookup_insert_eq.
    + intros a' Ha'. destruct (decide (a' = a)) as [->|Hne].
      * by rewrite list_lookup_insert_eq.
      * by rewrite list_lookup_insert_ne by congruence.
Qed.

Lemma removeEach_spec (after : list ExchangeRef) :
  ∀ (m : ChatModel) (w : World) (before : list ExchangeRef) (ids : list string),
    _exchanges m = before ++ after →
    idsIn w after ids →
    NoDup ids →
    (∀ x id, x ∈ before → id ∈ ids → exchangeId w x ≠ Some id) →
    ∃ (m' : ChatModel) (w' : World) (fired : list (IChatChangeEvent * list ExchangeRef)),
      removeEach ids m w = (Returned m', w')
      ∧ _exchanges m' = before
      ∧ onDidChange m' = onDidChange m ++ fired
      ∧ map fst fired = map (fun id => removeExchangeEvent id Removal) ids
      ∧ requestObjects w' = requestObjects w
      ∧ (∀ x, exchangeId w' x = exchangeId w x)
      ∧ (∀ a, ResponseRef a ∈ after → isDisposed <$> responseObjects w' !! a = Some true)
      ∧ (∀ a, isDisposed <$> responseObjects w !! a = Some true →
              isDisposed <$> responseObjects w' !! a = Some true).
Proof.
  induction after as [|e after IH]; intros m w before ids Hex Hids Hnodup Hbefore.
  - apply Forall2_nil_inv_l in Hids as ->. exists m, w, []. cbn [removeEach].
    split; [reflexivity|]. split; [by rewrite Hex, app_nil_r|].
    split; [by rewrite app_nil_r|]. repeat split; try done.
    intros a Ha. destruct (not_elem_of_nil _ Ha).
  - apply Forall2_cons_inv_l in Hids as (id & ids' & Hid & Hids' & ->).
    apply NoDup_cons in Hnodup as [Hfresh Hnodup].
    destruct (removeExchange_found m w id Removal before after e Hex Hid)
      as (m1 & w1 & Hrun1 & Hex1 & Hev1 & Hreq1 & Hsame1 & Hdisp1 & Hkeep1).
    { intros x Hx. apply Hbefore; [exact Hx|apply list_elem_of_here]. }
    destruct (IH m1 w1 before ids' Hex1)
      as (m2 & w2 & fired & Hrun2 & Hex2 & Hev2 & Hfired & Hreq2 & Hsame2 & Hdisp2 & Hkeep2).
    { eapply Forall2_impl; [exact Hids'|]. intros x i Hx. by rewrite Hsame1. }
    { exact Hnodup. }
    { intros x i Hx Hi. rewrite Hsame1. apply Hbefore; [exact Hx|].
      by apply list_elem_of_further. }
    exists m2, w2, ((removeExchangeEvent id Removal, _exchanges m) :: fired).
    cbn [removeEach]. unfold bind at 1. rewrite Hrun1.
    split; [exact Hrun2|]. split; [exact Hex2|].
    split; [by rewrite Hev2, Hev1, <- app_assoc|].
    split; [cbn [map fst]; by rewrite Hfired|].
    split; [congruence|]. split; [|split].
    + intros x. by rewrite Hsame2, Hsame1.
    + intros a Ha. apply elem_of_cons in Ha as [Heq|Ha]; [|by apply Hdisp2].
      apply Hkeep2, Hdisp1. by symmetry.
    + intros a Ha. by apply Hkeep2, Hkeep1.
Qed.

(** X30. Removing an exchange and all that come after it. When the
    exchanges of a session have different ids, calling [removeExchange] for
    the id of the exchange at [index] and of every exchange after it, in
    their order, leaves exactly the exchanges before [index]: one
    ['removeExchange'] event is fired for each id, in that order, every
    response among the removed exchanges is disposed, and no request object
    and no id changes. *)
Theorem removing_from_an_exchange_on_keeps_what_was_before :
  ∀ (m : ChatModel) (w : World) (ids : list string) (index : nat),
    idsIn w (_exchanges m) ids →
    NoDup ids →
    ∃ (m' : ChatModel) (w' : World) (fired : list (IChatChangeEvent * list ExchangeRef)),
      removeEach (drop index ids) m w = (Returned m', w')
      ∧ _exchanges m' = take index (_exchanges m)
      ∧ onDidChange m' = onDidChange m ++ fired
      ∧ map fst fired = map (fun id => removeExchangeEvent id Removal) (drop index ids)
      ∧ requestObjects w' = requestObjects w
      ∧ (∀ x, exchangeId w' x = exchangeId w x)
      ∧ (∀ a, ResponseRef a ∈ drop index (_exchanges m) →
              isDisposed <$> responseObjects w' !! a = Some true).
Proof.
  intros m w ids index Hids Hnodup.
  destruct (removeEach_spec (drop index (_exchanges m)) m w (take index (_exchanges m))
              (drop index ids))
    as (m' & w' & fired & Hrun & Hex & Hev & Hfired & Hreq & Hsame & Hdisp & _).
  - by rewrite take_drop.
  - by apply Forall2_drop.
  - rewrite <- (take_drop index ids) in Hnodup. by apply NoDup_app in Hnodup as (_ & _ & H).
  - intros x id Hx Hid Hxid.
    apply list_elem_of_lookup in Hx as [i Hi]. apply list_elem_of_lookup in Hid as [j Hj].
    pose proof (lookup_lt_Some _ _ _ Hi) as Hilt. rewrite length_take in Hilt.
    rewrite lookup_take_lt in Hi by lia. rewrite lookup_drop in Hj.
    destruct (Forall2_lookup_l _ _ _ _ _ Hids Hi) as (id' & Hi' & Hid').
    rewrite Hxid in Hid'. injection Hid' as <-.
    pose proof (NoDup_lookup _ _ _ _ Hnodup Hi' Hj). lia.
  - exists m', w', fired. by repeat split.
Qed.

Lemma removing_from_an_exchange_on_keeps_what_was_before_witness :
  ∃ (m' : ChatModel) (w' : World) (fired : list (IChatChangeEvent * list ExchangeRef)),
    removeEach ["response_1"]
      (mkChatModel "session-1" [ResponseRef 0; ResponseRef 1] 1000 1000 false None "" ""
         None None [])
      (mkWorld [] [redactedResponse; readBack "response_1" redactedResponse] 0 2 [] [])
    = (Returned m', w')
    ∧ _exchanges m' = [ResponseRef 0]
    ∧ map fst fired = [removeExchangeEvent "response_1" Removal].
Proof.
  destruct (removing_from_an_exchange_on_keeps_what_was_before
              (mkChatModel "session-1" [ResponseRef 0; ResponseRef 1] 1000 1000 false None
                 "" "" None None [])
              (mkWorld [] [redactedResponse; readBack "response_1" redactedResponse]
                 0 2 [] [])
              ["response_0"; "response_1"] 1)
    as (m' & w' & fired & Hrun & Hex & _ & Hfired & _).
  - by repeat constructor.
  - apply NoDup_cons. split; [|apply NoDup_singleton].
    intros H. apply list_elem_of_singleton in H. discriminate.
  - exists m', w', fired. by repeat split.
Defined.
